(** * ReadQueue client: peer mesh manager and turn coordinator

    A shallow embedding of the browser client of the reading-queue
    application:

    - [AudioManager] (utils/AudioManager.js): local capture, the set of
      peer connections of one sub-group and the offer/answer/ICE exchange;
    - [HomePage] (frontend/src/pages/HomePage.js): the queue page with the
      position-1 auto-skip timer;
    - [HomePageP2]: the revision of the queue page that has the
      position-2 get-ready timer.

    JavaScript objects that are shared and mutated (peer connections, media
    streams, timers, the DOM) live in an explicit [World]; the program's
    own objects hold handles into it.  Every async method is run to
    completion as one step, with the answers of the network and of the
    host passed in as arguments. *)

From Stdlib Require Import ZArith Lia Ascii String.
From Stdlib Require PrimFloat.
From stdpp Require Import base option list gmap strings.

(** ** Control flow: normal return or thrown exception *)

Module Js.

Inductive Exn :=
| TypeError
| ReferenceError
| InvalidStateError
| InvalidAccessError
| OperationError
| NotAllowedError.

Inductive Outcome (A : Type) :=
| Returned (a : A)
| Threw (e : Exn).
Arguments Returned {A} a.
Arguments Threw {A} e.

(** A computation over a mutable state [S]; what was written before a
    throw stays written. *)
Definition M (S A : Type) : Type := S → Outcome A * S.

Definition ret {S A} (a : A) : M S A := λ s, (Returned a, s).

Definition bind {S A B} (c : M S A) (k : A → M S B) : M S B :=
  λ s, match c s with
       | (Returned a, s') => k a s'
       | (Threw e, s') => (Threw e, s')
       end.

Definition throw {S A} (e : Exn) : M S A := λ s, (Threw e, s).

Definition get {S} : M S S := λ s, (Returned s, s).
Definition put {S} (s : S) : M S unit := λ _, (Returned tt, s).
Definition modify {S} (f : S → S) : M S unit := λ s, (Returned tt, f s).

(** [try { c } catch (error) { h error }] *)
Definition try_catch {S A} (c : M S A) (h : Exn → M S A) : M S A :=
  λ s, match c s with
       | (Returned a, s') => (Returned a, s')
       | (Threw e, s') => h e s'
       end.

(** [for (const x of l) { await body(x) }] *)
Fixpoint for_of {S A} (l : list A) (body : A → M S unit) : M S unit :=
  match l with
  | [] => ret tt
  | x :: l' => bind (body x) (λ _, for_of l' body)
  end.

Definition when {S} (b : bool) (c : M S unit) : M S unit :=
  if b then c else ret tt.

(** Run a computation of a component inside a larger state. *)
Definition zoom {S T A} (proj : T → S) (upd : S → T → T) (c : M S A) : M T A :=
  λ t, match c (proj t) with (o, s') => (o, upd s' t) end.

Definition returned {A} (o : Outcome A) : Prop :=
  match o with Returned _ => True | Threw _ => False end.

End Js.

Notation "'let*' x ':=' c1 'in' c2" := (Js.bind c1 (λ x, c2))
  (at level 10, x name, c1 at level 100, c2 at level 200).
Notation "c1 >> c2" := (Js.bind c1 (λ _, c2))
  (at level 100, c2 at level 200, right associativity).

(** ** The host: media tracks, peer connections, timers, the document *)

Module Browser.
Import Js.

Definition SessionId := string.

(** *** MediaStreamTrack *)

Inductive TrackKind := AudioKind | VideoKind.

Record Track := mkTrack {
  kind : TrackKind;
  enabled : bool;
  ended : bool            (* readyState === 'ended', after stop() *)
}.

Definition is_audio (t : Track) : bool :=
  match kind t with AudioKind => true | VideoKind => false end.

Definition set_enabled (b : bool) (t : Track) : Track :=
  mkTrack (kind t) b (ended t).

(** [track.enabled = b] on an audio track, as [getAudioTracks().forEach] does. *)
Definition enable_audio (b : bool) (t : Track) : Track :=
  if is_audio t then set_enabled b t else t.

Definition stop_track (t : Track) : Track :=
  mkTrack (kind t) (enabled t) true.

(** *** Session descriptions and candidates

    The SDP text is opaque; [d_parses] records whether the host accepts
    it, [d_id] tells two texts apart. *)

Inductive SdpType := SdpOffer | SdpAnswer.

Record Description := mkDescription {
  d_type : SdpType;
  d_id : nat;
  d_parses : bool
}.

Record Candidate := mkCandidate {
  c_id : nat;
  c_parses : bool
}.

(** *** RTCPeerConnection

    The signalling states and the transitions between them follow the
    WebRTC rules the client relies on: an answer is only accepted while
    a local offer is pending, an offer while stable or (by implicit
    rollback) while a local offer is pending, a remote candidate only
    once a remote description is set, and nothing after [close()]. *)

Inductive SignalingState :=
| Stable
| HaveLocalOffer
| HaveRemoteOffer
| Closed.

Record PeerConn := mkPeerConn {
  remotePeer : SessionId;       (* the id captured by ontrack/onicecandidate *)
  iceServers : list string;
  signalingState : SignalingState;
  localDescription : option Description;
  remoteDescription : option Description;
  senders : list (nat * nat);   (* (stream, track index) given to addTrack *)
  remoteCandidates : list Candidate
}.

Definition new_pc (peer : SessionId) (servers : list string) : PeerConn :=
  mkPeerConn peer servers Stable None None [] [].

Definition pc_addTrack (tr : nat * nat) (pc : PeerConn) : Outcome PeerConn :=
  match signalingState pc with
  | Closed => Threw InvalidStateError
  | _ =>
      if bool_decide (tr ∈ senders pc) then Threw InvalidAccessError
      else Returned (mkPeerConn (remotePeer pc) (iceServers pc) (signalingState pc)
                       (localDescription pc) (remoteDescription pc)
                       (senders pc ++ [tr]) (remoteCandidates pc))
  end.

Definition pc_createOffer (h : nat) (pc : PeerConn) : Outcome Description :=
  match signalingState pc with
  | Stable | HaveLocalOffer => Returned (mkDescription SdpOffer h true)
  | _ => Threw InvalidStateError
  end.

Definition pc_createAnswer (h : nat) (pc : PeerConn) : Outcome Description :=
  match signalingState pc with
  | HaveRemoteOffer => Returned (mkDescription SdpAnswer h true)
  | _ => Threw InvalidStateError
  end.

Definition pc_setLocalDescription (d : Description) (pc : PeerConn) : Outcome PeerConn :=
  if negb (d_parses d) then Threw OperationError else
  match d_type d, signalingState pc with
  | SdpOffer, (Stable | HaveLocalOffer) =>
      Returned (mkPeerConn (remotePeer pc) (iceServers pc) HaveLocalOffer
                  (Some d) (remoteDescription pc) (senders pc) (remoteCandidates pc))
  | SdpAnswer, HaveRemoteOffer =>
      Returned (mkPeerConn (remotePeer pc) (iceServers pc) Stable
                  (Some d) (remoteDescription pc) (senders pc) (remoteCandidates pc))
  | _, _ => Threw InvalidStateError
  end.

Definition pc_setRemoteDescription (d : Description) (pc : PeerConn) : Outcome PeerConn :=
  if negb (d_parses d) then Threw OperationError else
  match d_type d, signalingState pc with
  | SdpOffer, (Stable | HaveRemoteOffer) =>
      Returned (mkPeerConn (remotePeer pc) (iceServers pc) HaveRemoteOffer
                  (localDescription pc) (Some d) (senders pc) (remoteCandidates pc))
  | SdpOffer, HaveLocalOffer =>
      (* implicit rollback of the pending local offer *)
      Returned (mkPeerConn (remotePeer pc) (iceServers pc) HaveRemoteOffer
                  None (Some d) (senders pc) (remoteCandidates pc))
  | SdpAnswer, HaveLocalOffer =>
      Returned (mkPeerConn (remotePeer pc) (iceServers pc) Stable
                  (localDescription pc) (Some d) (senders pc) (remoteCandidates pc))
  | _, _ => Threw InvalidStateError
  end.

Definition pc_addIceCandidate (c : Candidate) (pc : PeerConn) : Outcome PeerConn :=
  match signalingState pc, remoteDescription pc with
  | Closed, _ => Threw InvalidStateError
  | _, None => Threw InvalidStateError
  | _, Some _ =>
      if negb (c_parses c) then Threw OperationError
      else Returned (mkPeerConn (remotePeer pc) (iceServers pc) (signalingState pc)
                       (localDescription pc) (remoteDescription pc)
                       (senders pc) (remoteCandidates pc ++ [c]))
  end.

Definition pc_close (pc : PeerConn) : PeerConn :=
  mkPeerConn (remotePeer pc) (iceServers pc) Closed
    (localDescription pc) (remoteDescription pc) (senders pc) (remoteCandidates pc).

(** What negotiation sees of a connection; [addTrack] leaves it alone. *)
Definition same_negotiation (pc pc' : PeerConn) : Prop :=
  remotePeer pc' = remotePeer pc ∧ signalingState pc' = signalingState pc
  ∧ localDescription pc' = localDescription pc
  ∧ remoteDescription pc' = remoteDescription pc.

(** *** Signalling envelopes *)

Inductive SignalType := Offer | Answer | IceCandidate | OtherType.

Record Payload := mkPayload {
  sdp : option Description;
  candidate : option Candidate
}.

(** An envelope as it is read from the mailbox: [{ from, type, data }];
    [data] may be missing. *)
Record Signal := mkSignal {
  from : SessionId;
  type : SignalType;
  data : option Payload
}.

(** The body of a [POST /webrtc/signal]. *)
Record Envelope := mkEnvelope {
  fromSessionId : SessionId;
  toSessionId : SessionId;
  e_type : SignalType;
  e_data : Payload
}.

(** *** Timers

    A timer is its callback, defunctionalised, with what the callback
    closed over.  The countdowns fire once a second and are created in
    the same turn as the timeout they accompany, so a timeout is counted
    in whole seconds as well. *)

Inductive QueueAction := Start | Skip | Finish.

Inductive Timer :=
| SignalPoll                       (* AudioManager: setInterval(…, 1000) *)
| StatusPoll                       (* queue page: setInterval(fetchQueueStatus, 750) *)
| Countdown (secondsLeft : Z)      (* auto-skip display countdown, with its local variable *)
| AutoSkipTimeout (remaining : nat) (hasStartedReading : bool) (sid : option SessionId)
| Position2Countdown
| Position2Timeout (remaining : nat) (sid : option SessionId).

(** *** The world *)

Record World := mkWorld {
  pcs : gmap nat PeerConn;          (* every RTCPeerConnection constructed so far *)
  streams : gmap nat (list Track);  (* every MediaStream handed out by getUserMedia *)
  timers : gmap nat Timer;          (* pending timeouts and running intervals *)
  nextTimer : nat;                  (* timer ids are never reused *)
  audioElements : list SessionId;   (* <audio id="audio-<peer>"> children of body, in order *)
  signalsSent : list Envelope       (* POST /webrtc/signal requests, oldest first *)
}.

Definition empty_world : World := mkWorld ∅ ∅ ∅ 1 [] [].

Definition set_pcs (f : gmap nat PeerConn → gmap nat PeerConn) (w : World) : World :=
  mkWorld (f (pcs w)) (streams w) (timers w) (nextTimer w) (audioElements w) (signalsSent w).
Definition set_streams (f : gmap nat (list Track) → gmap nat (list Track)) (w : World) : World :=
  mkWorld (pcs w) (f (streams w)) (timers w) (nextTimer w) (audioElements w) (signalsSent w).
Definition set_timers (f : gmap nat Timer → gmap nat Timer) (w : World) : World :=
  mkWorld (pcs w) (streams w) (f (timers w)) (nextTimer w) (audioElements w) (signalsSent w).
Definition set_audioElements (f : list SessionId → list SessionId) (w : World) : World :=
  mkWorld (pcs w) (streams w) (timers w) (nextTimer w) (f (audioElements w)) (signalsSent w).
Definition set_signalsSent (f : list Envelope → list Envelope) (w : World) : World :=
  mkWorld (pcs w) (streams w) (timers w) (nextTimer w) (audioElements w) (f (signalsSent w)).

(** [setInterval] / [setTimeout]: a fresh id, the timer pending. *)
Definition setTimer (t : Timer) (w : World) : nat * World :=
  (nextTimer w,
   mkWorld (pcs w) (streams w) (<[nextTimer w := t]> (timers w)) (S (nextTimer w))
     (audioElements w) (signalsSent w)).

(** [clearInterval] / [clearTimeout]; unknown ids are ignored. *)
Definition clearTimer (h : nat) (w : World) : World :=
  set_timers (delete h) w.

(** [new RTCPeerConnection(config)] *)
Definition alloc_pc (pc : PeerConn) (w : World) : nat * World :=
  let h := fresh (dom (pcs w)) in (h, set_pcs (<[h := pc]>) w).

(** A MediaStream returned by [getUserMedia]. *)
Definition alloc_stream (ts : list Track) (w : World) : nat * World :=
  let h := fresh (dom (streams w)) in (h, set_streams (<[h := ts]>) w).

(** [document.getElementById(id).remove()] on the first element with that id. *)
Fixpoint remove_first (p : SessionId) (l : list SessionId) : list SessionId :=
  match l with
  | [] => []
  | x :: l' => if decide (x = p) then l' else x :: remove_first p l'
  end.

(** What the host offers, and how it answers the capture request. *)
Record Host := mkHost {
  hasMediaDevices : bool;             (* navigator.mediaDevices *)
  hasGetUserMedia : bool;             (* navigator.mediaDevices.getUserMedia *)
  capture : option (list Track);      (* the granted stream; None when the request is rejected *)
  hasRTCPeerConnection : bool         (* the RTCPeerConnection constructor *)
}.

(** The answer to a [fetch]: a success response with its decoded body,
    a response that is not ok, or a rejected promise. *)
Inductive Fetch (A : Type) :=
| Ok (body : A)
| NotOk
| NetworkError.
Arguments Ok {A} body.
Arguments NotOk {A}.
Arguments NetworkError {A}.

End Browser.

(** ** utils/AudioManager.js *)

Module AudioManager.
Import Js Browser.

Record t := mk {
  sessionId : SessionId;
  subGroup : string;
  apiUrl : string;
  localStream : option nat;               (* null, or the captured MediaStream *)
  peerConnections : gmap SessionId nat;   (* peer id -> RTCPeerConnection *)
  isMuted : bool;
  isInitialized : bool;
  pollingInterval : option nat
}.

Definition constructor (sid : SessionId) (sg api : string) : t :=
  mk sid sg api None ∅ true false None.

Definition set_localStream (v : option nat) (a : t) : t :=
  mk (sessionId a) (subGroup a) (apiUrl a) v (peerConnections a)
     (isMuted a) (isInitialized a) (pollingInterval a).
Definition set_peerConnections (v : gmap SessionId nat) (a : t) : t :=
  mk (sessionId a) (subGroup a) (apiUrl a) (localStream a) v
     (isMuted a) (isInitialized a) (pollingInterval a).
Definition set_isMuted (v : bool) (a : t) : t :=
  mk (sessionId a) (subGroup a) (apiUrl a) (localStream a) (peerConnections a)
     v (isInitialized a) (pollingInterval a).
Definition set_isInitialized (v : bool) (a : t) : t :=
  mk (sessionId a) (subGroup a) (apiUrl a) (localStream a) (peerConnections a)
     (isMuted a) v (pollingInterval a).
Definition set_pollingInterval (v : option nat) (a : t) : t :=
  mk (sessionId a) (subGroup a) (apiUrl a) (localStream a) (peerConnections a)
     (isMuted a) (isInitialized a) v.

(** A method runs on the world and on [this]. *)
Definition St : Type := World * t.

Definition on_world (f : World → World) : M St unit :=
  modify (λ s : St, (f s.1, s.2)).
Definition on_this (f : t → t) : M St unit :=
  modify (λ s : St, (s.1, f s.2)).

(** A call on the connection [h] that returns a value. *)
Definition ask_pc {A} (h : nat) (op : PeerConn → Outcome A) : M St A :=
  λ s, match pcs s.1 !! h with
       | Some pc => (op pc, s)
       | None => (Threw TypeError, s)
       end.

(** A call on the connection [h] that changes it. *)
Definition update_pc (h : nat) (op : PeerConn → Outcome PeerConn) : M St unit :=
  λ s, match pcs s.1 !! h with
       | Some pc =>
           match op pc with
           | Returned pc' => (Returned tt, (set_pcs (<[h := pc']>) s.1, s.2))
           | Threw e => (Threw e, s)
           end
       | None => (Threw TypeError, s)
       end.

(** [new RTCPeerConnection({ iceServers })] *)
Definition construct_pc (host : Host) (peer : SessionId) (servers : list string) : M St nat :=
  λ s, if hasRTCPeerConnection host
       then let '(h, w) := alloc_pc (new_pc peer servers) s.1 in (Returned h, (w, s.2))
       else (Threw ReferenceError, s).

(** [sendSignal]: the POST is issued; a failing fetch is caught and
    logged inside, so the caller never sees it. *)
Definition sendSignal (to : SessionId) (ty : SignalType) (d : Payload) : M St unit :=
  λ s, (Returned tt,
        (set_signalsSent (λ l, l ++ [mkEnvelope (sessionId s.2) to ty d]) s.1, s.2)).

(** [if (this.localStream) this.localStream.getTracks().forEach(track => pc.addTrack(track, this.localStream))] *)
Definition addLocalTracks (h : nat) : M St unit :=
  let* s := get in
  match localStream s.2 with
  | None => ret tt
  | Some sh =>
      for_of (seq 0 (length (default [] (streams s.1 !! sh))))
        (λ i, update_pc h (pc_addTrack (sh, i)))
  end.

(** [pc.ontrack]: an <audio id="audio-<peer>"> element is appended to the body. *)
Definition ontrack (h : nat) (w : World) : World :=
  match pcs w !! h with
  | Some pc => set_audioElements (λ l, l ++ [remotePeer pc]) w
  | None => w
  end.

(** [pc.onicecandidate] *)
Definition onicecandidate (h : nat) (c : option Candidate) : M St unit :=
  λ s, match pcs s.1 !! h, c with
       | Some pc, Some c' => sendSignal (remotePeer pc) IceCandidate (mkPayload None (Some c')) s
       | _, _ => (Returned tt, s)
       end.

Definition createPeerConnection (host : Host) (peerId : SessionId) : M St unit :=
  try_catch
    (let* h := construct_pc host peerId
                 ["stun:stun.l.google.com:19302"; "stun:stun1.l.google.com:19302"]%string in
     on_this (λ a, set_peerConnections (<[peerId := h]> (peerConnections a)) a) >>
     addLocalTracks h >>
     let* offer := ask_pc h (pc_createOffer h) in
     update_pc h (pc_setLocalDescription offer) >>
     sendSignal peerId Offer (mkPayload (Some offer) None))
    (λ _, ret tt).

(** [connectToPeers], from the answer to [GET /webrtc/peers]; the body
    is [data.peers] (possibly missing), each entry reduced to its
    [sessionId]. *)
Definition connectToPeers (host : Host) (resp : Fetch (option (list SessionId))) : M St unit :=
  try_catch
    (match resp with
     | NetworkError => throw TypeError
     | NotOk => ret tt
     | Ok data =>
         for_of (default [] data)
           (λ peer,
              let* s := get in
              when (bool_decide (peer ≠ sessionId s.2)
                    && bool_decide (peerConnections s.2 !! peer = None))
                (createPeerConnection host peer))
     end)
    (λ _, ret tt).

(** [new RTCSessionDescription(data.sdp)] *)
Definition read_sdp (d : option Payload) : M St Description :=
  match d with
  | Some p => match sdp p with Some x => ret x | None => throw TypeError end
  | None => throw TypeError
  end.

Definition handleSignal (host : Host) (signal : Signal) : M St unit :=
  let from := from signal in
  let data := data signal in
  try_catch
    (match type signal with
     | Offer =>
         let* s := get in
         let* pc :=
           match peerConnections s.2 !! from with
           | Some pc => ret pc
           | None =>
               let* pc := construct_pc host from ["stun:stun.l.google.com:19302"%string] in
               on_this (λ a, set_peerConnections (<[from := pc]> (peerConnections a)) a) >>
               addLocalTracks pc >>
               ret pc
           end in
         let* d := read_sdp data in
         update_pc pc (pc_setRemoteDescription d) >>
         let* answer := ask_pc pc (pc_createAnswer pc) in
         update_pc pc (pc_setLocalDescription answer) >>
         sendSignal from Answer (mkPayload (Some answer) None)
     | Answer =>
         let* s := get in
         match peerConnections s.2 !! from with
         | Some pc =>
             let* d := read_sdp data in
             update_pc pc (pc_setRemoteDescription d)
         | None => ret tt
         end
     | IceCandidate =>
         let* s := get in
         match peerConnections s.2 !! from with
         | Some pc =>
             match data with
             | None => throw TypeError
             | Some p =>
                 match candidate p with
                 | Some c => update_pc pc (pc_addIceCandidate c)
                 | None => ret tt
                 end
             end
         | None => ret tt
         end
     | OtherType => ret tt
     end)
    (λ _, ret tt).

(** [startSignalPolling]: only the interval is created here; its
    callback is [signalPollTick]. *)
Definition startSignalPolling : M St unit :=
  λ s, let '(h, w) := setTimer SignalPoll s.1 in
       (Returned tt, (w, set_pollingInterval (Some h) s.2)).

(** One run of the polling callback, from the answer to
    [GET /webrtc/signals/<sessionId>]; the body is [data.signals]. *)
Definition signalPollTick (host : Host) (resp : Fetch (option (list Signal))) : M St unit :=
  try_catch
    (match resp with
     | NetworkError => throw TypeError
     | NotOk => ret tt
     | Ok data => for_of (default [] data) (handleSignal host)
     end)
    (λ _, ret tt).

Definition set_audio_enabled (b : bool) (sh : nat) (w : World) : World :=
  set_streams (alter (map (enable_audio b)) sh) w.

Definition toggleMute : M St bool :=
  on_this (λ a, set_isMuted (negb (isMuted a)) a) >>
  let* s := get in
  match localStream s.2 with
  | Some sh => on_world (set_audio_enabled (negb (isMuted s.2)) sh)
  | None => ret tt
  end >>
  ret (isMuted s.2).

Definition getMuteState : M St bool :=
  let* s := get in ret (isMuted s.2).

(** [getUserMedia({ audio: {…}, video: false })] *)
Definition getUserMedia (host : Host) : M St nat :=
  λ s, match capture host with
       | Some ts => let '(h, w) := alloc_stream ts s.1 in (Returned h, (w, s.2))
       | None => (Threw NotAllowedError, s)
       end.

(** [initialize].  The last call, [this.connectToPeers()], is not
    awaited: it only issues its fetch here and goes on, as
    [connectToPeers], in a later turn. *)
Definition initialize (host : Host) (startMuted : bool) : M St bool :=
  try_catch
    (if negb (hasMediaDevices host) || negb (hasGetUserMedia host) then ret false
     else
       let* sh := getUserMedia host in
       on_this (set_localStream (Some sh)) >>
       on_this (set_isMuted startMuted) >>
       on_world (set_audio_enabled (negb startMuted) sh) >>
       on_this (set_isInitialized true) >>
       startSignalPolling >>
       ret true)
    (λ _, ret false).

(** The body of the loop of [cleanup] over [Object.keys(this.peerConnections)]. *)
Definition close_peer (entry : SessionId * nat) (w : World) : World :=
  set_audioElements (remove_first entry.1) (set_pcs (alter pc_close entry.2) w).

Definition cleanup : M St unit :=
  (let* s := get in
   match pollingInterval s.2 with
   | Some h => on_world (clearTimer h) >> on_this (set_pollingInterval None)
   | None => ret tt
   end) >>
  (let* s := get in
   on_world (λ w, foldl (λ w e, close_peer e w) w (map_to_list (peerConnections s.2)))) >>
  on_this (set_peerConnections ∅) >>
  (let* s := get in
   match localStream s.2 with
   | Some sh => on_world (set_streams (alter (map stop_track) sh)) >>
                on_this (set_localStream None)
   | None => ret tt
   end) >>
  on_this (set_isInitialized false).

End AudioManager.

(** ** frontend/src/pages/HomePage.js

    The queue page.  Its state is the component's [useState] cells and
    [useRef] cells; document loading, toasts, notifications, local storage
    and navigation do not bear on the turn logic and are left out.  A
    handler runs as one step and is followed by [render], which runs the
    effects whose dependencies changed until none does. *)

Module HomePage.
Import Js Browser.

Record Snapshot := mkSnapshot {
  position : nat;
  totalInQueue : nat;
  isPosition1 : bool;
  isPosition2 : bool
}.

(** [[sessionId, hasJoined]] *)
Definition PollingDeps : Type := option SessionId * bool.

(** [[queueStatus?.isPosition1, queueStatus?.isPosition2, wasPosition2,
    hasStartedReading, startAutoSkipTimer]]; the callback is identified
    by the dependencies of its [useCallback], [[sessionId, hasStartedReading]]. *)
Definition PositionDeps : Type :=
  option bool * option bool * bool * bool * (option SessionId * bool).

Record Client := mkClient {
  (* the host *)
  world : World;
  apiBase : string;
  (* useState *)
  userRole : option string;
  name : string;
  sessionId : option SessionId;
  hasJoined : bool;
  queueStatus : option Snapshot;
  autoSkipTimer : Z;
  wasPosition2 : bool;
  isExpanded : bool;
  hasStartedReading : bool;
  selectedSubGroup : option string;
  isMuted : bool;
  audioInitialized : bool;
  (* useRef *)
  audioManager : option AudioManager.t;
  pollingInterval : option nat;
  autoSkipTimeout : option nat;
  timerInterval : option nat;
  (* POST /queue/action bodies, oldest first *)
  actionsPosted : list (SessionId * QueueAction);
  (* dependencies at the last render, per effect *)
  pollingDeps : option PollingDeps;
  positionDeps : option PositionDeps
}.

Definition set_world (v : World) (s : Client) : Client :=
  mkClient v (apiBase s) (userRole s) (name s) (sessionId s) (hasJoined s) (queueStatus s)
    (autoSkipTimer s) (wasPosition2 s) (isExpanded s) (hasStartedReading s)
    (selectedSubGroup s) (isMuted s) (audioInitialized s) (audioManager s) (pollingInterval
    s) (autoSkipTimeout s) (timerInterval s) (actionsPosted s) (pollingDeps s) (positionDeps
    s).
Definition set_userRole (v : option string) (s : Client) : Client :=
  mkClient (world s) (apiBase s) v (name s) (sessionId s) (hasJoined s) (queueStatus s)
    (autoSkipTimer s) (wasPosition2 s) (isExpanded s) (hasStartedReading s)
    (selectedSubGroup s) (isMuted s) (audioInitialized s) (audioManager s) (pollingInterval
    s) (autoSkipTimeout s) (timerInterval s) (actionsPosted s) (pollingDeps s) (positionDeps
    s).
Definition set_name (v : string) (s : Client) : Client :=
  mkClient (world s) (apiBase s) (userRole s) v (sessionId s) (hasJoined s) (queueStatus
    s) (autoSkipTimer s) (wasPosition2 s) (isExpanded s) (hasStartedReading s)
    (selectedSubGroup s) (isMuted s) (audioInitialized s) (audioManager s) (pollingInterval
    s) (autoSkipTimeout s) (timerInterval s) (actionsPosted s) (pollingDeps s) (positionDeps
    s).
Definition set_sessionId (v : option SessionId) (s : Client) : Client :=
  mkClient (world s) (apiBase s) (userRole s) (name s) v (hasJoined s) (queueStatus s)
    (autoSkipTimer s) (wasPosition2 s) (isExpanded s) (hasStartedReading s)
    (selectedSubGroup s) (isMuted s) (audioInitialized s) (audioManager s) (pollingInterval
    s) (autoSkipTimeout s) (timerInterval s) (actionsPosted s) (pollingDeps s) (positionDeps
    s).
Definition set_hasJoined (v : bool) (s : Client) : Client :=
  mkClient (world s) (apiBase s) (userRole s) (name s) (sessionId s) v (queueStatus s)
    (autoSkipTimer s) (wasPosition2 s) (isExpanded s) (hasStartedReading s)
    (selectedSubGroup s) (isMuted s) (audioInitialized s) (audioManager s) (pollingInterval
    s) (autoSkipTimeout s) (timerInterval s) (actionsPosted s) (pollingDeps s) (positionDeps
    s).
Definition set_queueStatus (v : option Snapshot) (s : Client) : Client :=
  mkClient (world s) (apiBase s) (userRole s) (name s) (sessionId s) (hasJoined s) v
    (autoSkipTimer s) (wasPosition2 s) (isExpanded s) (hasStartedReading s)
    (selectedSubGroup s) (isMuted s) (audioInitialized s) (audioManager s) (pollingInterval
    s) (autoSkipTimeout s) (timerInterval s) (actionsPosted s) (pollingDeps s) (positionDeps
    s).
Definition set_autoSkipTimer (v : Z) (s : Client) : Client :=
  mkClient (world s) (apiBase s) (userRole s) (name s) (sessionId s) (hasJoined s)
    (queueStatus s) v (wasPosition2 s) (isExpanded s) (hasStartedReading s)
    (selectedSubGroup s) (isMuted s) (audioInitialized s) (audioManager s) (pollingInterval
    s) (autoSkipTimeout s) (timerInterval s) (actionsPosted s) (pollingDeps s) (positionDeps
    s).
Definition set_wasPosition2 (v : bool) (s : Client) : Client :=
  mkClient (world s) (apiBase s) (userRole s) (name s) (sessionId s) (hasJoined s)
    (queueStatus s) (autoSkipTimer s) v (isExpanded s) (hasStartedReading s)
    (selectedSubGroup s) (isMuted s) (audioInitialized s) (audioManager s) (pollingInterval
    s) (autoSkipTimeout s) (timerInterval s) (actionsPosted s) (pollingDeps s) (positionDeps
    s).
Definition set_isExpanded (v : bool) (s : Client) : Client :=
  mkClient (world s) (apiBase s) (userRole s) (name s) (sessionId s) (hasJoined s)
    (queueStatus s) (autoSkipTimer s) (wasPosition2 s) v (hasStartedReading s)
    (selectedSubGroup s) (isMuted s) (audioInitialized s) (audioManager s) (pollingInterval
    s) (autoSkipTimeout s) (timerInterval s) (actionsPosted s) (pollingDeps s) (positionDeps
    s).
Definition set_hasStartedReading (v : bool) (s : Client) : Client :=
  mkClient (world s) (apiBase s) (userRole s) (name s) (sessionId s) (hasJoined s)
    (queueStatus s) (autoSkipTimer s) (wasPosition2 s) (isExpanded s) v (selectedSubGroup s)
    (isMuted s) (audioInitialized s) (audioManager s) (pollingInterval s) (autoSkipTimeout
    s) (timerInterval s) (actionsPosted s) (pollingDeps s) (positionDeps s).
Definition set_isMuted (v : bool) (s : Client) : Client :=
  mkClient (world s) (apiBase s) (userRole s) (name s) (sessionId s) (hasJoined s)
    (queueStatus s) (autoSkipTimer s) (wasPosition2 s) (isExpanded s) (hasStartedReading s)
    (selectedSubGroup s) v (audioInitialized s) (audioManager s) (pollingInterval s)
    (autoSkipTimeout s) (timerInterval s) (actionsPosted s) (pollingDeps s) (positionDeps
    s).
Definition set_audioInitialized (v : bool) (s : Client) : Client :=
  mkClient (world s) (apiBase s) (userRole s) (name s) (sessionId s) (hasJoined s)
    (queueStatus s) (autoSkipTimer s) (wasPosition2 s) (isExpanded s) (hasStartedReading s)
    (selectedSubGroup s) (isMuted s) v (audioManager s) (pollingInterval s) (autoSkipTimeout
    s) (timerInterval s) (actionsPosted s) (pollingDeps s) (positionDeps s).
Definition set_audioManager (v : option AudioManager.t) (s : Client) : Client :=
  mkClient (world s) (apiBase s) (userRole s) (name s) (sessionId s) (hasJoined s)
    (queueStatus s) (autoSkipTimer s) (wasPosition2 s) (isExpanded s) (hasStartedReading s)
    (selectedSubGroup s) (isMuted s) (audioInitialized s) v (pollingInterval s)
    (autoSkipTimeout s) (timerInterval s) (actionsPosted s) (pollingDeps s) (positionDeps
    s).
Definition set_pollingInterval (v : option nat) (s : Client) : Client :=
  mkClient (world s) (apiBase s) (userRole s) (name s) (sessionId s) (hasJoined s)
    (queueStatus s) (autoSkipTimer s) (wasPosition2 s) (isExpanded s) (hasStartedReading s)
    (selectedSubGroup s) (isMuted s) (audioInitialized s) (audioManager s) v
    (autoSkipTimeout s) (timerInterval s) (actionsPosted s) (pollingDeps s) (positionDeps
    s).
Definition set_autoSkipTimeout (v : option nat) (s : Client) : Client :=
  mkClient (world s) (apiBase s) (userRole s) (name s) (sessionId s) (hasJoined s)
    (queueStatus s) (autoSkipTimer s) (wasPosition2 s) (isExpanded s) (hasStartedReading s)
    (selectedSubGroup s) (isMuted s) (audioInitialized s) (audioManager s) (pollingInterval
    s) v (timerInterval s) (actionsPosted s) (pollingDeps s) (positionDeps s).
Definition set_timerInterval (v : option nat) (s : Client) : Client :=
  mkClient (world s) (apiBase s) (userRole s) (name s) (sessionId s) (hasJoined s)
    (queueStatus s) (autoSkipTimer s) (wasPosition2 s) (isExpanded s) (hasStartedReading s)
    (selectedSubGroup s) (isMuted s) (audioInitialized s) (audioManager s) (pollingInterval
    s) (autoSkipTimeout s) v (actionsPosted s) (pollingDeps s) (positionDeps s).
Definition set_actionsPosted (v : list (SessionId * QueueAction)) (s : Client) : Client :=
  mkClient (world s) (apiBase s) (userRole s) (name s) (sessionId s) (hasJoined s)
    (queueStatus s) (autoSkipTimer s) (wasPosition2 s) (isExpanded s) (hasStartedReading s)
    (selectedSubGroup s) (isMuted s) (audioInitialized s) (audioManager s) (pollingInterval
    s) (autoSkipTimeout s) (timerInterval s) v (pollingDeps s) (positionDeps s).
Definition set_pollingDeps (v : option PollingDeps) (s : Client) : Client :=
  mkClient (world s) (apiBase s) (userRole s) (name s) (sessionId s) (hasJoined s)
    (queueStatus s) (autoSkipTimer s) (wasPosition2 s) (isExpanded s) (hasStartedReading s)
    (selectedSubGroup s) (isMuted s) (audioInitialized s) (audioManager s) (pollingInterval
    s) (autoSkipTimeout s) (timerInterval s) (actionsPosted s) v (positionDeps s).
Definition set_positionDeps (v : option PositionDeps) (s : Client) : Client :=
  mkClient (world s) (apiBase s) (userRole s) (name s) (sessionId s) (hasJoined s)
    (queueStatus s) (autoSkipTimer s) (wasPosition2 s) (isExpanded s) (hasStartedReading s)
    (selectedSubGroup s) (isMuted s) (audioInitialized s) (audioManager s) (pollingInterval
    s) (autoSkipTimeout s) (timerInterval s) (actionsPosted s) (pollingDeps s) v.

(** The component as first mounted, its effects having run once. *)
Definition mount (api : string) : Client :=
  mkClient empty_world api None "" None false None 10 false false false None true false
    None None None None [] (Some (None, false)) (Some (None, None, false, false, (None, false))).

(** [queueStatus?.isPosition1] and [queueStatus?.isPosition2], as conditions. *)
Definition atPosition1 (s : Client) : bool :=
  match queueStatus s with Some q => isPosition1 q | None => false end.
Definition atPosition2 (s : Client) : bool :=
  match queueStatus s with Some q => isPosition2 q | None => false end.

Definition polling_deps (s : Client) : PollingDeps := (sessionId s, hasJoined s).

Definition position_deps (s : Client) : PositionDeps :=
  (isPosition1 <$> queueStatus s, isPosition2 <$> queueStatus s, wasPosition2 s,
   hasStartedReading s, (sessionId s, hasStartedReading s)).

(** [if (ref.current) clearTimeout(ref.current)] *)
Definition clear_ref (ref : option nat) (w : World) : World :=
  match ref with
  | Some h => clearTimer h w
  | None => w
  end.

(** A method call on [audioManager.current]. *)
Definition call_audio {A} (m : M AudioManager.St A) (am : AudioManager.t) (s : Client)
  : Outcome A * Client :=
  let r := m (world s, am) in
  (r.1, set_audioManager (Some r.2.2) (set_world r.2.1 s)).

(** [if (!audioManager.current.getMuteState()) audioManager.current.toggleMute()] *)
Definition mute_audio (am : AudioManager.t) (s : Client) : Client :=
  if AudioManager.isMuted am then s else (call_audio AudioManager.toggleMute am s).2.

(** [if (audioManager.current.getMuteState()) audioManager.current.toggleMute()] *)
Definition unmute_audio (am : AudioManager.t) (s : Client) : Client :=
  if AudioManager.isMuted am then (call_audio AudioManager.toggleMute am s).2 else s.

Definition post_action (sid : SessionId) (a : QueueAction) (s : Client) : Client :=
  set_actionsPosted (actionsPosted s ++ [(sid, a)]) s.

(** *** Session end and status polling *)

Definition handleSessionEnd (s : Client) : Client :=
  let s := set_world (clear_ref (pollingInterval s) (world s)) s in
  let s := set_world (clear_ref (autoSkipTimeout s) (world s)) s in
  let s := set_world (clear_ref (timerInterval s) (world s)) s in
  let s :=
    match audioManager s with
    | Some am => set_audioManager None (call_audio AudioManager.cleanup am s).2
    | None => s
    end in
  let s := set_isMuted true (set_audioInitialized false s) in
  let s := set_queueStatus None (set_sessionId None (set_hasJoined false s)) in
  let s := set_userRole None (set_name "" s) in
  set_hasStartedReading false (set_isExpanded false s).

(** [fetchQueueStatus(sid)], from the answer to [GET /queue/status/<id>]. *)
Definition fetchQueueStatus (sid : option SessionId) (resp : Fetch Snapshot) (s : Client)
  : Client :=
  match (if sid is Some _ then sid else sessionId s) with
  | None => s
  | Some _ =>
      match resp with
      | Ok data => set_queueStatus (Some data) s
      | NotOk => handleSessionEnd s
      | NetworkError => s
      end
  end.

Definition startPolling (s : Client) : Client :=
  let w := clear_ref (pollingInterval s) (world s) in
  let '(h, w) := setTimer StatusPoll w in
  set_pollingInterval (Some h) (set_world w s).

(** *** The auto-skip timer *)

(** [startAutoSkipTimer]; [r] is the render whose [sessionId] and
    [hasStartedReading] the callback closed over. *)
Definition startAutoSkipTimer (r s : Client) : Client :=
  let w := clear_ref (timerInterval s) (clear_ref (autoSkipTimeout s) (world s)) in
  let s := set_autoSkipTimer 10 s in
  let '(hi, w) := setTimer (Countdown 10) w in
  let '(ht, w) := setTimer (AutoSkipTimeout 10 (hasStartedReading r) (sessionId r)) w in
  set_autoSkipTimeout (Some ht) (set_timerInterval (Some hi) (set_world w s)).

(** The callback of the timeout, with the values it closed over and the
    answer to its POST; what it does after a success ([fetchQueueStatus()])
    arrives as a status answer of its own. *)
Definition autoSkipExpired (started : bool) (sid : option SessionId) (resp : Fetch unit)
    (s : Client) : Client :=
  if started then s else
  match sid with
  | None => s
  | Some id =>
      let s := post_action id Skip s in
      match resp with
      | Ok _ => set_isExpanded false s
      | _ => s
      end
  end.

(** The callback of the display countdown. *)
Definition countdownTick (h : nat) (secondsLeft : Z) (s : Client) : Client :=
  let n := (secondsLeft - 1)%Z in
  let s := set_world (set_timers (<[h := Countdown n]>) (world s)) s in
  let s := set_autoSkipTimer n s in
  if (n <=? 0)%Z then set_world (clear_ref (timerInterval s) (world s)) s else s.

(** What timer [h] does when one more second has passed. *)
Definition fire (resp : Fetch unit) (s : Client) (h : nat) : Client :=
  match timers (world s) !! h with
  | Some (Countdown secondsLeft) => countdownTick h secondsLeft s
  | Some (AutoSkipTimeout (S (S k)) started sid) =>
      set_world (set_timers (<[h := AutoSkipTimeout (S k) started sid]>) (world s)) s
  | Some (AutoSkipTimeout _ started sid) =>
      autoSkipExpired started sid resp (set_world (clearTimer h (world s)) s)
  | _ => s
  end.

(** One second passes: the timers that are due run in the order in
    which they were created. *)
Definition second (resp : Fetch unit) (s : Client) : Client :=
  foldl (fire resp) s (seq 0 (nextTimer (world s))).

(** *** Actions *)

Definition is_mute_action (a : QueueAction) : bool :=
  match a with Skip | Finish => true | Start => false end.

(** [handleAction] from [setIsExpanded(false)] up to its [fetch]. *)
Definition handleAction_prepare (a : QueueAction) (s : Client) : Client :=
  let s := set_isExpanded false s in
  let s :=
    match autoSkipTimeout s with
    | Some h => set_autoSkipTimeout None (set_world (clearTimer h (world s)) s)
    | None => s
    end in
  let s :=
    match timerInterval s with
    | Some h => set_timerInterval None (set_world (clearTimer h (world s)) s)
    | None => s
    end in
  let s := set_autoSkipTimer 10 s in
  match audioManager s with
  | Some am => if is_mute_action a then set_isMuted true (mute_audio am s) else s
  | None => s
  end.

(** [handleAction] after the answer to its POST, up to the
    [await fetchQueueStatus()] that ends the success path. *)
Definition handleAction_answered (a : QueueAction) (resp : Fetch unit) (s : Client) : Client :=
  match resp with
  | Ok _ =>
      match a with
      | Start =>
          let s := set_hasStartedReading true s in
          match audioManager s with
          | Some am => set_isMuted false (unmute_audio am s)
          | None => s
          end
      | Skip | Finish => s
      end
  | NotOk | NetworkError => s
  end.

(** *** The mute button *)

Definition toggleMute (s : Client) : Client :=
  match audioManager s with
  | None => s
  | Some am =>
      match call_audio AudioManager.toggleMute am s with
      | (Returned newMutedState, s') => set_isMuted newMutedState s'
      | (Threw _, s') => s'
      end
  end.

(** *** Effects *)

(** [useEffect(…, [sessionId, hasJoined])] *)
Definition pollingEffect (r s : Client) : Client :=
  if bool_decide (sessionId r ≠ None) && hasJoined r then startPolling s else s.

(** [useEffect(…, [queueStatus?.isPosition1, queueStatus?.isPosition2,
    wasPosition2, hasStartedReading, startAutoSkipTimer])]; state is read
    from the render [r], refs and the world from [s]. *)
Definition positionEffect (r s : Client) : Client :=
  let s :=
    if atPosition1 r then
      let s := if negb (hasStartedReading r) then set_isExpanded true s else s in
      let s := if wasPosition2 r then set_wasPosition2 false s else s in
      if negb (hasStartedReading r) && bool_decide (autoSkipTimeout s = None)
      then startAutoSkipTimer r s
      else if hasStartedReading r then
        let s :=
          match autoSkipTimeout s with
          | Some h => set_autoSkipTimeout None (set_world (clearTimer h (world s)) s)
          | None => s
          end in
        match timerInterval s with
        | Some h => set_timerInterval None (set_world (clearTimer h (world s)) s)
        | None => s
        end
      else s
    else
      let s := set_world (clear_ref (autoSkipTimeout s) (world s)) s in
      let s := set_world (clear_ref (timerInterval s) (world s)) s in
      let s := set_hasStartedReading false (set_autoSkipTimer 10 s) in
      match audioManager s, queueStatus r with
      | Some am, Some _ => set_isMuted true (mute_audio am s)
      | _, _ => s
      end in
  if atPosition2 r then set_wasPosition2 true s else s.

Definition quiescent (s : Client) : Prop :=
  pollingDeps s = Some (polling_deps s) ∧ positionDeps s = Some (position_deps s).

Global Instance quiescent_dec s : Decision (quiescent s).
Proof. unfold quiescent. apply _. Defined.

(** One render: the effects whose dependencies changed run, in the
    order of their declaration. *)
Definition commit (r : Client) : Client :=
  let s := r in
  let s :=
    if decide (pollingDeps r = Some (polling_deps r)) then s
    else pollingEffect r (set_pollingDeps (Some (polling_deps r)) s) in
  if decide (positionDeps r = Some (position_deps r)) then s
  else positionEffect r (set_positionDeps (Some (position_deps r)) s).

Fixpoint settle (fuel : nat) (s : Client) : Client :=
  match fuel with
  | 0 => s
  | S n => if decide (quiescent s) then s else settle n (commit s)
  end.

(** Two renders always suffice (see [render_quiescent]). *)
Definition render (s : Client) : Client := settle 3 s.

(** *** Joining *)

Definition is_space (c : ascii) : bool :=
  bool_decide (c ∈ [" "; "009"; "010"; "011"; "012"; "013"]%char).

(** [!name.trim()] *)
Fixpoint is_blank (n : string) : bool :=
  match n with
  | EmptyString => true
  | String c n' => is_space c && is_blank n'
  end.

Definition initializeAudio (host : Host) (sid : SessionId) (subGroup : string)
    (startMuted : bool) (s : Client) : Client :=
  let am := AudioManager.constructor sid subGroup (apiBase s) in
  match call_audio (AudioManager.initialize host startMuted) am s with
  | (Returned true, s') => set_isMuted startMuted (set_audioInitialized true s')
  | (_, s') => s'
  end.

(** [joinQueue], from the answers to [POST /queue/join] and to the
    status request that follows it. *)
Definition joinQueue (host : Host) (joined : Fetch SessionId) (status : Fetch Snapshot)
    (s : Client) : Client :=
  if is_blank (name s) then s else
  match selectedSubGroup s, joined with
  | Some subGroup, Ok sid =>
      let s := render (set_hasJoined true (set_sessionId (Some sid) s)) in
      let s := render (fetchQueueStatus (Some sid) status s) in
      match status with
      | Ok statusData =>
          render (initializeAudio host sid subGroup (negb (isPosition1 statusData)) s)
      | _ => s
      end
  | _, _ => s
  end.

(** *** Events *)

Inductive Event :=
| StatusFetched (resp : Fetch Snapshot)       (* a poll tick, or a chained fetchQueueStatus() *)
| ActionTaken (a : QueueAction) (resp : Fetch unit)   (* a click on an action button and its answer *)
| MuteClicked
| SecondElapsed (resp : Fetch unit)           (* resp answers the auto-skip POST, if it is sent *)
| CardClicked.                                (* a click on the position card *)

(** [queueStatus?.isPosition1 && setIsExpanded(!isExpanded)] *)
Definition toggleExpanded (s : Client) : Client :=
  if atPosition1 s then set_isExpanded (negb (isExpanded s)) s else s.

(** [handleAction(action)], with the answer to its POST. *)
Definition handleAction (a : QueueAction) (resp : Fetch unit) (s : Client) : Client :=
  match sessionId s with
  | None => s
  | Some sid =>
      let s := render (post_action sid a (handleAction_prepare a s)) in
      handleAction_answered a resp s
  end.

Definition handle (e : Event) (s : Client) : Client :=
  match e with
  | StatusFetched resp => fetchQueueStatus None resp s
  | ActionTaken a resp => handleAction a resp s
  | MuteClicked => toggleMute s
  | SecondElapsed resp => second resp s
  | CardClicked => toggleExpanded s
  end.

Definition step (s : Client) (e : Event) : Client := render (handle e s).

Definition run (s : Client) (es : list Event) : Client := foldl step s es.

(** What the page offers to click: the action buttons are shown at
    position 1 in the expanded panel, start and skip before reading,
    finish while reading; the mute button once audio is initialised;
    the position card on the queue page. *)
Definition offered (s : Client) (e : Event) : bool :=
  match e with
  | ActionTaken Start _ | ActionTaken Skip _ =>
      hasJoined s && isExpanded s && atPosition1 s && negb (hasStartedReading s)
  | ActionTaken Finish _ =>
      hasJoined s && isExpanded s && atPosition1 s && hasStartedReading s
  | MuteClicked => hasJoined s && audioInitialized s
  | CardClicked => hasJoined s
  | StatusFetched _ | SecondElapsed _ => true
  end.

(** *** The turn coordinator's state, derived from the page's *)

Inductive TurnState :=
| NotInQueue
| Queued
| Position2
| Position1Idle
| Position1Reading.

Definition turnState (s : Client) : TurnState :=
  match queueStatus s with
  | None => NotInQueue
  | Some q =>
      if isPosition1 q then
        if hasStartedReading s then Position1Reading else Position1Idle
      else if isPosition2 q then Position2
      else Queued
  end.

(** The local mute flag: the manager's when there is one, else the
    page's own. *)
Definition localMuted (s : Client) : bool :=
  match audioManager s with
  | Some am => AudioManager.isMuted am
  | None => isMuted s
  end.

(** Every captured audio track is enabled exactly when the manager is
    not muted. *)
Definition tracks_follow (w : World) (am : AudioManager.t) : Prop :=
  ∀ sh ts tr,
    AudioManager.localStream am = Some sh → streams w !! sh = Some ts →
    tr ∈ ts → is_audio tr = true → enabled tr = negb (AudioManager.isMuted am).

Definition tracks_ok (s : Client) : Prop :=
  ∀ am, audioManager s = Some am → tracks_follow (world s) am.

(** The invariant of the data model: transmitting exactly while reading. *)
Definition coherent (s : Client) : Prop :=
  (atPosition1 s = false → hasStartedReading s = false)
  ∧ (localMuted s = false ↔ turnState s = Position1Reading).

(** The position effect is due to run. *)
Definition position_changed (s : Client) : bool :=
  bool_decide (positionDeps s ≠ Some (position_deps s)).

(** Between a handler and the render that follows it: either the state
    is coherent already, or the position effect is about to leave
    position 1 and will mute. *)
Definition mute_pending (s : Client) : Prop :=
  (audioManager s ≠ None ∧ queueStatus s ≠ None) ∨ localMuted s = true.

Definition renderable (s : Client) : Prop :=
  tracks_ok s
  ∧ (audioManager s = None → sessionId s = None)
  ∧ if position_changed s && negb (atPosition1 s) then mute_pending s else coherent s.

(** A state at rest: rendered, an audio manager for as long as there is
    a session, and coherent. *)
Definition settled (s : Client) : Prop :=
  quiescent s ∧ tracks_ok s ∧ (audioManager s = None → sessionId s = None) ∧ coherent s.

(** *** The scripted transitions of a turn

    What happens to a participant who does not touch the mute button: a
    status snapshot arrives, a poll fails, the session is ended, the
    participant starts, skips, or finishes — the finish accepted by the
    server and followed by the snapshot that takes the participant off
    position 1 — a second passes, or the participant opens or closes
    the panel. *)
Inductive Transition :=
| Snapshot_ (q : Snapshot)
| PollFailed
| SessionEnded
| StartReading (resp : Fetch unit)
| SkipTurn (resp : Fetch unit)
| FinishReading (q : Snapshot)
| Tick (resp : Fetch unit)
| TogglePanel.

Definition events_of (t : Transition) : list Event :=
  match t with
  | Snapshot_ q => [StatusFetched (Ok q)]
  | PollFailed => [StatusFetched NetworkError]
  | SessionEnded => [StatusFetched NotOk]
  | StartReading resp => [ActionTaken Start resp]
  | SkipTurn resp => [ActionTaken Skip resp]
  | FinishReading q => [ActionTaken Finish (Ok tt); StatusFetched (Ok q)]
  | Tick resp => [SecondElapsed resp]
  | TogglePanel => [CardClicked]
  end.

Definition allowed (s : Client) (t : Transition) : Prop :=
  match t with
  | StartReading resp => offered s (ActionTaken Start resp) = true
  | SkipTurn resp => offered s (ActionTaken Skip resp) = true
  | FinishReading q => offered s (ActionTaken Finish (Ok tt)) = true ∧ isPosition1 q = false
  | TogglePanel => offered s CardClicked = true
  | Snapshot_ _ | PollFailed | SessionEnded | Tick _ => True
  end.

Definition transition (s : Client) (t : Transition) : Client := run s (events_of t).

Fixpoint scripted (s : Client) (ts : list Transition) : Prop :=
  match ts with
  | [] => True
  | t :: ts' => allowed s t ∧ scripted (transition s t) ts'
  end.

Definition follow (s : Client) (ts : list Transition) : Client := foldl transition s ts.

(** *** The auto-skip deadline *)

Definition is_poll (t : Timer) : bool :=
  match t with
  | SignalPoll | StatusPoll => true
  | _ => false
  end.

(** No timer of the turn coordinator is pending: what is left running
    are the poll loops. *)
Definition no_turn_timers (w : World) : Prop :=
  ∀ h t, timers w !! h = Some t → is_poll t = true.

(** At position 1, not reading, with the auto-skip timeout and its
    countdown pending as [startAutoSkipTimer] created them and [k]
    seconds to go. *)
Definition armed (sid : SessionId) (k : nat) (s : Client) : Prop :=
  quiescent s ∧ sessionId s = Some sid
  ∧ atPosition1 s = true ∧ hasStartedReading s = false
  ∧ 1 ≤ k
  ∧ ∃ hi,
      timerInterval s = Some hi ∧ autoSkipTimeout s = Some (S hi)
      ∧ S hi < nextTimer (world s)
      ∧ timers (world s) !! hi = Some (Countdown (Z.of_nat k))
      ∧ timers (world s) !! S hi = Some (AutoSkipTimeout k false (Some sid))
      ∧ ∀ h t, timers (world s) !! h = Some t → h = hi ∨ h = S hi ∨ is_poll t = true.

(** At position 1, not reading, the deadline passed. *)
Definition expired (s : Client) : Prop :=
  quiescent s ∧ sessionId s ≠ None ∧ atPosition1 s = true ∧ hasStartedReading s = false
  ∧ autoSkipTimeout s ≠ None ∧ no_turn_timers (world s).

(** What can happen while the participant stays at position 1 and takes
    no action: status polls that still report position 1, polls that
    fail in transit, seconds that pass, the mute button, the panel opened
    or closed. *)
Definition idle (e : Event) : Prop :=
  match e with
  | StatusFetched (Ok q) => isPosition1 q = true
  | StatusFetched NetworkError => True
  | SecondElapsed _ | MuteClicked | CardClicked => True
  | StatusFetched NotOk | ActionTaken _ _ => False
  end.

Fixpoint seconds (es : list Event) : nat :=
  match es with
  | [] => 0
  | SecondElapsed _ :: es' => S (seconds es')
  | _ :: es' => seconds es'
  end.

(** *** After a session end *)

(** The state [e] that [handleSessionEnd] leaves, as a later state [s']
    still has it: no session, no queue, no audio manager, and nothing of
    the world brought back. *)
Definition ended (e s' : Client) : Prop :=
  sessionId s' = None ∧ hasJoined s' = false ∧ queueStatus s' = None ∧ userRole s' = None
  ∧ hasStartedReading s' = false ∧ isMuted s' = true ∧ audioInitialized s' = false
  ∧ audioManager s' = None
  ∧ pcs (world s') = pcs (world e) ∧ streams (world s') = streams (world e)
  ∧ (∀ h, timers (world e) !! h = None → timers (world s') !! h = None).

(** *** Parts of the state, to say what an operation leaves alone *)

Definition session_view (s : Client) :=
  (sessionId s, hasJoined s, queueStatus s).

Definition audio_view (s : Client) :=
  (audioManager s, streams (world s), isMuted s).

Definition timer_view (s : Client) :=
  (timers (world s), nextTimer (world s), autoSkipTimeout s, timerInterval s).

(** All that the turn logic reads: session, audio, the two flags and
    the dependencies of the last render. *)
Definition turn_view (s : Client) :=
  (session_view s, audio_view s, hasStartedReading s, wasPosition2 s,
   pollingDeps s, positionDeps s).

(** The state as the mute button, or a step that mutes, leaves it. *)
Definition muted_view (s : Client) :=
  match audioManager s with
  | Some am => audio_view (set_isMuted true (mute_audio am s))
  | None => audio_view s
  end.

(** *** Waiting

    While the participant waits at position 1 with the timeout handle
    set, a render changes neither the world nor the handles. *)
Definition waiting (s0 s : Client) : Prop :=
  pollingDeps s = Some (polling_deps s)
  ∧ atPosition1 s = true ∧ hasStartedReading s = false ∧ autoSkipTimeout s ≠ None
  ∧ session_view s = session_view s0 ∧ world s = world s0
  ∧ autoSkipTimeout s = autoSkipTimeout s0 ∧ timerInterval s = timerInterval s0
  ∧ actionsPosted s = actionsPosted s0.

End HomePage.

(** ** The queue page with the position-2 timer

    The revision of HomePage.js that gives the participant at position 2
    thirty seconds to get ready.  Modelled: the timer, the two position
    effects, and the success path of the status poll that drives them. *)

Module HomePageP2.
Import Js Browser.

Definition Snapshot := HomePage.Snapshot.
Definition isPosition1 := HomePage.isPosition1.
Definition isPosition2 := HomePage.isPosition2.

(** Timer duration for Position 2 (in seconds) *)
Definition POSITION_2_TIMER_DURATION : nat := 30.

(** [[queueStatus?.isPosition2, wasPosition2, startPosition2Timer]]; the
    callback is identified by the dependency of its [useCallback], [[sessionId]]. *)
Definition Position2Deps : Type := option bool * bool * option SessionId.

Record Client := mkClient {
  (* the host *)
  world : World;
  (* useState *)
  sessionId : option SessionId;
  queueStatus : option Snapshot;
  wasPosition2 : bool;
  hasStartedReading : bool;
  position2Timer : Z;
  isPosition2TimerActive : bool;
  isMuted : bool;
  (* useRef *)
  audioManager : option AudioManager.t;
  position2TimerInterval : option nat;
  position2TimeoutRef : option nat;
  (* POST /queue/action bodies, oldest first *)
  actionsPosted : list (SessionId * QueueAction);
  (* dependencies at the last render, per effect *)
  position2Deps : option Position2Deps;
  position1Deps : option (option bool)
}.

Definition set_world (v : World) (s : Client) : Client :=
  mkClient v (sessionId s) (queueStatus s) (wasPosition2 s) (hasStartedReading s)
    (position2Timer s) (isPosition2TimerActive s) (isMuted s) (audioManager s)
    (position2TimerInterval s) (position2TimeoutRef s) (actionsPosted s) (position2Deps s)
    (position1Deps s).
Definition set_queueStatus (v : option Snapshot) (s : Client) : Client :=
  mkClient (world s) (sessionId s) v (wasPosition2 s) (hasStartedReading s)
    (position2Timer s) (isPosition2TimerActive s) (isMuted s) (audioManager s)
    (position2TimerInterval s) (position2TimeoutRef s) (actionsPosted s) (position2Deps s)
    (position1Deps s).
Definition set_wasPosition2 (v : bool) (s : Client) : Client :=
  mkClient (world s) (sessionId s) (queueStatus s) v (hasStartedReading s) (position2Timer
    s) (isPosition2TimerActive s) (isMuted s) (audioManager s) (position2TimerInterval s)
    (position2TimeoutRef s) (actionsPosted s) (position2Deps s) (position1Deps s).
Definition set_hasStartedReading (v : bool) (s : Client) : Client :=
  mkClient (world s) (sessionId s) (queueStatus s) (wasPosition2 s) v (position2Timer s)
    (isPosition2TimerActive s) (isMuted s) (audioManager s) (position2TimerInterval s)
    (position2TimeoutRef s) (actionsPosted s) (position2Deps s) (position1Deps s).
Definition set_position2Timer (v : Z) (s : Client) : Client :=
  mkClient (world s) (sessionId s) (queueStatus s) (wasPosition2 s) (hasStartedReading s)
    v (isPosition2TimerActive s) (isMuted s) (audioManager s) (position2TimerInterval s)
    (position2TimeoutRef s) (actionsPosted s) (position2Deps s) (position1Deps s).
Definition set_isPosition2TimerActive (v : bool) (s : Client) : Client :=
  mkClient (world s) (sessionId s) (queueStatus s) (wasPosition2 s) (hasStartedReading s)
    (position2Timer s) v (isMuted s) (audioManager s) (position2TimerInterval s)
    (position2TimeoutRef s) (actionsPosted s) (position2Deps s) (position1Deps s).
Definition set_isMuted (v : bool) (s : Client) : Client :=
  mkClient (world s) (sessionId s) (queueStatus s) (wasPosition2 s) (hasStartedReading s)
    (position2Timer s) (isPosition2TimerActive s) v (audioManager s) (position2TimerInterval
    s) (position2TimeoutRef s) (actionsPosted s) (position2Deps s) (position1Deps s).
Definition set_audioManager (v : option AudioManager.t) (s : Client) : Client :=
  mkClient (world s) (sessionId s) (queueStatus s) (wasPosition2 s) (hasStartedReading s)
    (position2Timer s) (isPosition2TimerActive s) (isMuted s) v (position2TimerInterval s)
    (position2TimeoutRef s) (actionsPosted s) (position2Deps s) (position1Deps s).
Definition set_position2TimerInterval (v : option nat) (s : Client) : Client :=
  mkClient (world s) (sessionId s) (queueStatus s) (wasPosition2 s) (hasStartedReading s)
    (position2Timer s) (isPosition2TimerActive s) (isMuted s) (audioManager s) v
    (position2TimeoutRef s) (actionsPosted s) (position2Deps s) (position1Deps s).
Definition set_position2TimeoutRef (v : option nat) (s : Client) : Client :=
  mkClient (world s) (sessionId s) (queueStatus s) (wasPosition2 s) (hasStartedReading s)
    (position2Timer s) (isPosition2TimerActive s) (isMuted s) (audioManager s)
    (position2TimerInterval s) v (actionsPosted s) (position2Deps s) (position1Deps s).
Definition set_actionsPosted (v : list (SessionId * QueueAction)) (s : Client) : Client :=
  mkClient (world s) (sessionId s) (queueStatus s) (wasPosition2 s) (hasStartedReading s)
    (position2Timer s) (isPosition2TimerActive s) (isMuted s) (audioManager s)
    (position2TimerInterval s) (position2TimeoutRef s) v (position2Deps s) (position1Deps
    s).
Definition set_position2Deps (v : option Position2Deps) (s : Client) : Client :=
  mkClient (world s) (sessionId s) (queueStatus s) (wasPosition2 s) (hasStartedReading s)
    (position2Timer s) (isPosition2TimerActive s) (isMuted s) (audioManager s)
    (position2TimerInterval s) (position2TimeoutRef s) (actionsPosted s) v (position1Deps
    s).
Definition set_position1Deps (v : option (option bool)) (s : Client) : Client :=
  mkClient (world s) (sessionId s) (queueStatus s) (wasPosition2 s) (hasStartedReading s)
    (position2Timer s) (isPosition2TimerActive s) (isMuted s) (audioManager s)
    (position2TimerInterval s) (position2TimeoutRef s) (actionsPosted s) (position2Deps s)
    v.

Definition atPosition1 (s : Client) : bool :=
  match queueStatus s with Some q => isPosition1 q | None => false end.
Definition atPosition2 (s : Client) : bool :=
  match queueStatus s with Some q => isPosition2 q | None => false end.

Definition position2_deps (s : Client) : Position2Deps :=
  (isPosition2 <$> queueStatus s, wasPosition2 s, sessionId s).
Definition position1_deps (s : Client) : option bool :=
  isPosition1 <$> queueStatus s.

Definition post_action (sid : SessionId) (a : QueueAction) (s : Client) : Client :=
  set_actionsPosted (actionsPosted s ++ [(sid, a)]) s.

Definition clearPosition2Timer (s : Client) : Client :=
  let s :=
    match position2TimerInterval s with
    | Some h => set_position2TimerInterval None (set_world (clearTimer h (world s)) s)
    | None => s
    end in
  let s :=
    match position2TimeoutRef s with
    | Some h => set_position2TimeoutRef None (set_world (clearTimer h (world s)) s)
    | None => s
    end in
  set_isPosition2TimerActive false (set_position2Timer (Z.of_nat POSITION_2_TIMER_DURATION) s).

(** [startPosition2Timer]; [r] is the render whose [sessionId] the
    callback closed over. *)
Definition startPosition2Timer (r s : Client) : Client :=
  let s := clearPosition2Timer s in
  let s := set_position2Timer (Z.of_nat POSITION_2_TIMER_DURATION)
             (set_isPosition2TimerActive true s) in
  let '(hi, w) := setTimer Position2Countdown (world s) in
  let s := set_position2TimerInterval (Some hi) (set_world w s) in
  let '(ht, w) := setTimer (Position2Timeout POSITION_2_TIMER_DURATION (sessionId r)) (world s) in
  set_position2TimeoutRef (Some ht) (set_world w s).

(** The callback of the timeout, with the [sessionId] it closed over and
    the answer to its POST. *)
Definition position2Expired (sid : option SessionId) (resp : Fetch unit) (s : Client)
  : Client :=
  match sid with
  | None => s
  | Some id => clearPosition2Timer (post_action id Skip s)
  end.

(** [setPosition2Timer(prev => prev <= 1 ? 0 : prev - 1)] *)
Definition position2Tick (s : Client) : Client :=
  set_position2Timer (if (position2Timer s <=? 1)%Z then 0%Z else (position2Timer s - 1)%Z) s.

(** What timer [h] does when one more second has passed. *)
Definition fire (resp : Fetch unit) (s : Client) (h : nat) : Client :=
  match timers (world s) !! h with
  | Some Position2Countdown => position2Tick s
  | Some (Position2Timeout (S (S k)) sid) =>
      set_world (set_timers (<[h := Position2Timeout (S k) sid]>) (world s)) s
  | Some (Position2Timeout _ sid) =>
      position2Expired sid resp (set_world (clearTimer h (world s)) s)
  | _ => s
  end.

Definition second (resp : Fetch unit) (s : Client) : Client :=
  foldl (fire resp) s (seq 0 (nextTimer (world s))).

(** [if (!audioManager.current.getMuteState()) audioManager.current.toggleMute()] *)
Definition mute_audio (am : AudioManager.t) (s : Client) : Client :=
  if AudioManager.isMuted am then s
  else let r := AudioManager.toggleMute (world s, am) in
       set_audioManager (Some r.2.2) (set_world r.2.1 s).

(** [useEffect(…, [queueStatus?.isPosition2, wasPosition2, startPosition2Timer])] *)
Definition position2Effect (r s : Client) : Client :=
  if atPosition2 r && negb (wasPosition2 r) then
    set_wasPosition2 true (startPosition2Timer r s)
  else if negb (atPosition2 r) && wasPosition2 r then
    set_wasPosition2 false (clearPosition2Timer s)
  else s.

(** [useEffect(…, [queueStatus?.isPosition1])] *)
Definition position1Effect (r s : Client) : Client :=
  if atPosition1 r then
    set_wasPosition2 false (clearPosition2Timer s)
  else
    let s := set_hasStartedReading false s in
    match audioManager s, queueStatus r with
    | Some am, Some _ => set_isMuted true (mute_audio am s)
    | _, _ => s
    end.

Definition quiescent (s : Client) : Prop :=
  position2Deps s = Some (position2_deps s) ∧ position1Deps s = Some (position1_deps s).

Global Instance quiescent_dec s : Decision (quiescent s).
Proof. unfold quiescent. apply _. Defined.

(** One render: the effects whose dependencies changed run, in the
    order of their declaration. *)
Definition commit (r : Client) : Client :=
  let s := r in
  let s :=
    if decide (position2Deps r = Some (position2_deps r)) then s
    else position2Effect r (set_position2Deps (Some (position2_deps r)) s) in
  if decide (position1Deps r = Some (position1_deps r)) then s
  else position1Effect r (set_position1Deps (Some (position1_deps r)) s).

Fixpoint settle (fuel : nat) (s : Client) : Client :=
  match fuel with
  | 0 => s
  | S n => if decide (quiescent s) then s else settle n (commit s)
  end.

Definition render (s : Client) : Client := settle 4 s.

Inductive Event :=
| SnapshotFetched (data : Snapshot)      (* fetchQueueStatus: response.ok, setQueueStatus(data) *)
| SecondElapsed (resp : Fetch unit).     (* resp answers the auto-skip POST, if it is sent *)

Definition handle (e : Event) (s : Client) : Client :=
  match e with
  | SnapshotFetched data => set_queueStatus (Some data) s
  | SecondElapsed resp => second resp s
  end.

Definition step (s : Client) (e : Event) : Client := render (handle e s).

Definition run (s : Client) (es : list Event) : Client := foldl step s es.

Fixpoint seconds (es : list Event) : nat :=
  match es with
  | [] => 0
  | SecondElapsed _ :: es' => S (seconds es')
  | SnapshotFetched _ :: es' => seconds es'
  end.

(** *** Entering position 2 *)

(** A snapshot that puts the participant at position 2. *)
Definition atSecond (q : Snapshot) : Prop :=
  isPosition2 q = true ∧ isPosition1 q = false.

(** While at position 2: snapshots that all report it, and seconds. *)
Definition staying (e : Event) : Prop :=
  match e with
  | SnapshotFetched q => atSecond q
  | SecondElapsed _ => True
  end.

(** Not at position 2, and no get-ready timer around. *)
Definition ready (s : Client) : Prop :=
  quiescent s
  ∧ wasPosition2 s = false ∧ atPosition2 s = false
  ∧ position2TimerInterval s = None ∧ position2TimeoutRef s = None
  ∧ ∀ h t, timers (world s) !! h = Some t → HomePage.is_poll t = true.

(** At position 2 with the one get-ready timeout, created with handle
    [S hi] next to its countdown [hi], pending with [k] seconds to go. *)
Definition counting (hi k : nat) (s : Client) : Prop :=
  quiescent s
  ∧ wasPosition2 s = true ∧ atPosition2 s = true ∧ atPosition1 s = false
  ∧ 1 ≤ k
  ∧ position2TimerInterval s = Some hi ∧ position2TimeoutRef s = Some (S hi)
  ∧ nextTimer (world s) = S (S hi)
  ∧ timers (world s) !! hi = Some Position2Countdown
  ∧ timers (world s) !! S hi = Some (Position2Timeout k (sessionId s))
  ∧ ∀ h t, timers (world s) !! h = Some t → h = hi ∨ h = S hi ∨ HomePage.is_poll t = true.

(** At position 2 after the deadline: the timeout has run, and no other
    was created. *)
Definition lapsed (hi : nat) (s : Client) : Prop :=
  quiescent s
  ∧ wasPosition2 s = true ∧ atPosition2 s = true ∧ atPosition1 s = false
  ∧ nextTimer (world s) = S (S hi)
  ∧ ∀ h t, timers (world s) !! h = Some t →
           (h = hi ∧ t = Position2Countdown) ∨ HomePage.is_poll t = true.

End HomePageP2.

(** * More of the client

    The parts of the cited files that the statements of the first part
    leave out: the rest of the audio manager's signalling, joining and
    leaving the queue, the two document viewers' controls and the choice
    of the sub-group. *)

(** ** What handling a signal may change *)

Module AudioManagerProps.
Import Js Browser AudioManager.

(** What signalling may do to a connection that exists: negotiate and
    add candidates, but not re-target it, change its tracks, or close it. *)
Definition negotiated (pc pc' : PeerConn) : Prop :=
  remotePeer pc' = remotePeer pc ∧ iceServers pc' = iceServers pc
  ∧ senders pc' = senders pc
  ∧ (signalingState pc' = Closed ↔ signalingState pc = Closed).

(** What handling inbound signals may do to the manager and its world. *)
Definition signalled (s s' : St) : Prop :=
  s'.2 = set_peerConnections (peerConnections s'.2) s.2
  ∧ (∀ p h, peerConnections s.2 !! p = Some h → peerConnections s'.2 !! p = Some h)
  ∧ streams s'.1 = streams s.1 ∧ timers s'.1 = timers s.1
  ∧ nextTimer s'.1 = nextTimer s.1 ∧ audioElements s'.1 = audioElements s.1
  ∧ (∀ h pc, pcs s.1 !! h = Some pc → ∃ pc', pcs s'.1 !! h = Some pc' ∧ negotiated pc pc')
  ∧ ∃ sent, signalsSent s'.1 = signalsSent s.1 ++ sent
            ∧ Forall (λ e, fromSessionId e = sessionId s.2 ∧ e_type e = Answer) sent.

(** A computation that keeps within [signalled], however it ends. *)
Definition signalling {A} (c : M St A) : Prop := ∀ s, signalled s (c s).2.

End AudioManagerProps.

(** ** The queue page: holding position 1, joining, leaving *)

Module HomePageMore.
Import Js Browser HomePage.

(** The snapshot of the participant at the front of the queue. *)
Definition front (q : Snapshot) : Prop :=
  isPosition1 q = true ∧ isPosition2 q = false.

(** What can happen while the participant stays at the front and clicks
    no action button. *)
Definition holding (e : Event) : Prop :=
  match e with
  | StatusFetched (Ok q) => front q
  | StatusFetched NetworkError => True
  | SecondElapsed _ | MuteClicked | CardClicked => True
  | StatusFetched NotOk | ActionTaken _ _ => False
  end.

(** At the front with no deadline running. *)
Definition disarmed (s : Client) : Prop :=
  quiescent s ∧ sessionId s ≠ None
  ∧ atPosition1 s = true ∧ atPosition2 s = false
  ∧ no_turn_timers (world s).

(** *** Two invariants of the page *)

(** The mute indicator of the page shows the flag of the manager. *)
Definition mirrored (s : Client) : Prop :=
  ∀ am, audioManager s = Some am → isMuted s = AudioManager.isMuted am.

(** Every pending status poll is the one the page holds the handle of. *)
Definition polled (s : Client) : Prop :=
  ∀ h, timers (world s) !! h = Some StatusPoll → pollingInterval s = Some h.

(** No status poll was created, and the handle is the same. *)
Definition no_new_poll (s s' : Client) : Prop :=
  pollingInterval s' = pollingInterval s
  ∧ ∀ h, timers (world s') !! h = Some StatusPoll → timers (world s) !! h = Some StatusPoll.

(** *** Leaving the queue *)

Definition set_selectedSubGroup (v : option string) (s : Client) : Client :=
  mkClient (world s) (apiBase s) (userRole s) (name s) (sessionId s) (hasJoined s)
    (queueStatus s) (autoSkipTimer s) (wasPosition2 s) (isExpanded s) (hasStartedReading s)
    v (isMuted s) (audioInitialized s) (audioManager s) (pollingInterval s)
    (autoSkipTimeout s) (timerInterval s) (actionsPosted s) (pollingDeps s) (positionDeps s).

(** [leaveQueue], from the outcome of its [DELETE /queue/leave/<id>]:
    the status of the response is not looked at, only a rejected request
    ends the function early, in its [catch]. *)
Definition leaveQueue (resp : Fetch unit) (s : Client) : Client :=
  match sessionId s with
  | None => s
  | Some _ =>
      let s := set_world (clear_ref (pollingInterval s) (world s)) s in
      let s := set_world (clear_ref (autoSkipTimeout s) (world s)) s in
      let s := set_world (clear_ref (timerInterval s) (world s)) s in
      match resp with
      | NetworkError => s
      | Ok _ | NotOk =>
          let s :=
            match audioManager s with
            | Some am => set_audioManager None (call_audio AudioManager.cleanup am s).2
            | None => s
            end in
          let s := set_isMuted true (set_audioInitialized false s) in
          let s := set_queueStatus None (set_hasJoined false (set_sessionId None s)) in
          let s := set_userRole None (set_name "" s) in
          set_selectedSubGroup None s
      end
  end.

(** The page after the handler and the render that follows it. *)
Definition leave (resp : Fetch unit) (s : Client) : Client := render (leaveQueue resp s).

(** The page of a visitor who is in no queue. *)
Definition outside (s : Client) : Prop :=
  sessionId s = None ∧ hasJoined s = false ∧ queueStatus s = None ∧ userRole s = None
  ∧ name s = ""%string ∧ selectedSubGroup s = None
  ∧ audioManager s = None ∧ audioInitialized s = false ∧ isMuted s = true.

(** *** Joining *)

(** A visitor's page before the join: rendered, in no queue, no audio
    manager, no handle of a turn timer and no such timer pending. *)
Definition visiting (s : Client) : Prop :=
  quiescent s ∧ sessionId s = None ∧ hasJoined s = false ∧ queueStatus s = None
  ∧ audioManager s = None ∧ hasStartedReading s = false
  ∧ autoSkipTimeout s = None ∧ timerInterval s = None
  ∧ no_turn_timers (world s).

(** The status poll is running under the handle the page holds, and
    that handle is none of the turn timers'. *)
Definition polling (s : Client) : Prop :=
  ∃ h, pollingInterval s = Some h ∧ timers (world s) !! h = Some StatusPoll
       ∧ h < nextTimer (world s)
       ∧ autoSkipTimeout s ≠ Some h ∧ timerInterval s ≠ Some h
       ∧ (∀ h', autoSkipTimeout s = Some h' ∨ timerInterval s = Some h' →
                h' < nextTimer (world s)).

End HomePageMore.

(** ** The page with the position-2 timer: after the timeout *)

Module HomePageP2More.
Import Js Browser HomePageP2.

(** At position 2 after the get-ready timeout has sent its skip: both
    handles reset and no timer of the page pending. *)
Definition forfeited (s : Client) : Prop :=
  quiescent s
  ∧ wasPosition2 s = true ∧ atPosition2 s = true ∧ atPosition1 s = false
  ∧ position2TimerInterval s = None ∧ position2TimeoutRef s = None
  ∧ ∀ h t, timers (world s) !! h = Some t → HomePage.is_poll t = true.

(** At the front of the queue. *)
Definition leading (e : Event) : Prop :=
  match e with
  | SnapshotFetched q => isPosition1 q = true ∧ isPosition2 q = false
  | SecondElapsed _ => True
  end.

(** At position 1 with no get-ready timer left and [posted] the requests so far. *)
Definition calm (posted : list (SessionId * QueueAction)) (s : Client) : Prop :=
  atPosition1 s = true ∧ atPosition2 s = false
  ∧ position2TimerInterval s = None ∧ position2TimeoutRef s = None
  ∧ (∀ h t, timers (world s) !! h = Some t → HomePage.is_poll t = true)
  ∧ actionsPosted s = posted.

End HomePageP2More.

(** ** The paged document viewer (components/PDFViewer.js) *)

Module PDFViewer.
Import Browser PrimFloat.

(** [Math.min] and [Math.max] on two numbers: NaN if either is, and the
    negative zero counts as less than the positive one. *)
Definition math_min (a b : float) : float :=
  if (is_nan a || is_nan b)%bool then nan
  else if (a <? b)%float then a
  else if (b <? a)%float then b
  else if (is_zero a && get_sign a)%bool then a else b.

Definition math_max (a b : float) : float :=
  if (is_nan a || is_nan b)%bool then nan
  else if (b <? a)%float then a
  else if (a <? b)%float then b
  else if (is_zero a && negb (get_sign a))%bool then a else b.

(** The state of the paged viewer.  Of the image URL the model keeps
    the page it names; the time stamp in it only defeats caching. *)
Record Viewer := mkViewer {
  pageCount : Z;
  currentPage : Z;
  loading : bool;
  error : option string;
  scale : float;
  imageUrl : option Z;
  (* dependencies of the image effect at the last render: [currentPage, pageCount] *)
  imageDeps : option (Z * Z)
}.

(** The component as first mounted: the image effect has run once and,
    with no pages yet, has done nothing. *)
Definition mount : Viewer := mkViewer 0 0 true None 1%float None (Some (0, 0)%Z).

Definition set_pageCount (n : Z) (v : Viewer) : Viewer :=
  mkViewer n (currentPage v) (loading v) (error v) (scale v) (imageUrl v) (imageDeps v).
Definition set_currentPage (n : Z) (v : Viewer) : Viewer :=
  mkViewer (pageCount v) n (loading v) (error v) (scale v) (imageUrl v) (imageDeps v).
Definition set_loading (b : bool) (v : Viewer) : Viewer :=
  mkViewer (pageCount v) (currentPage v) b (error v) (scale v) (imageUrl v) (imageDeps v).
Definition set_error (e : option string) (v : Viewer) : Viewer :=
  mkViewer (pageCount v) (currentPage v) (loading v) e (scale v) (imageUrl v) (imageDeps v).
Definition set_scale (x : float) (v : Viewer) : Viewer :=
  mkViewer (pageCount v) (currentPage v) (loading v) (error v) x (imageUrl v) (imageDeps v).
Definition set_imageUrl (u : option Z) (v : Viewer) : Viewer :=
  mkViewer (pageCount v) (currentPage v) (loading v) (error v) (scale v) u (imageDeps v).
Definition set_imageDeps (d : option (Z * Z)) (v : Viewer) : Viewer :=
  mkViewer (pageCount v) (currentPage v) (loading v) (error v) (scale v) (imageUrl v) d.

(** [fetchPages], from the answer to [GET /document/pages]; the body is
    [data.pageCount]. *)
Definition fetchPages (resp : Fetch Z) (v : Viewer) : Viewer :=
  let v := set_loading true v in
  let v :=
    match resp with
    | Ok n => set_currentPage 0 (set_pageCount n v)
    | NotOk | NetworkError => set_error (Some "Failed to load document"%string) v
    end in
  set_loading false v.

Definition goToPrevPage (v : Viewer) : Viewer :=
  if (0 <? currentPage v)%Z then set_currentPage (currentPage v - 1) v else v.

Definition goToNextPage (v : Viewer) : Viewer :=
  if (currentPage v <? pageCount v - 1)%Z then set_currentPage (currentPage v + 1) v else v.

Definition zoomIn (v : Viewer) : Viewer := set_scale (math_min (scale v + 0.25) 3) v.
Definition zoomOut (v : Viewer) : Viewer := set_scale (math_max (scale v - 0.25) 0.5) v.
Definition resetZoom (v : Viewer) : Viewer := set_scale 1 v.

(** [handleKeyDown]; the listener is registered anew whenever the page
    or the page count changes, so it always sees the current values. *)
Definition handleKeyDown (key : string) (v : Viewer) : Viewer :=
  if String.eqb key "ArrowLeft" then goToPrevPage v
  else if String.eqb key "ArrowRight" then goToNextPage v
  else v.

(** [useEffect(…, [currentPage, pageCount, API])] *)
Definition imageEffect (r v : Viewer) : Viewer :=
  if (0 <? pageCount r)%Z then set_imageUrl (Some (currentPage r)) v else v.

Definition render (v : Viewer) : Viewer :=
  if decide (imageDeps v = Some (currentPage v, pageCount v)) then v
  else imageEffect v (set_imageDeps (Some (currentPage v, pageCount v)) v).

Inductive Event :=
| PagesFetched (resp : Fetch Z)
| PrevClicked
| NextClicked
| ThumbClicked (i : nat)        (* the thumbnail of page i + 1 *)
| KeyDown (key : string)
| ZoomInClicked
| ZoomOutClicked
| ResetClicked
| ImageLoaded
| ImageFailed.

(** The thumbnails are made by [Array.from({ length: pageCount })]: there
    is one for every index below the page count and no other. *)
Definition handle (e : Event) (v : Viewer) : Viewer :=
  match e with
  | PagesFetched resp => fetchPages resp v
  | PrevClicked => goToPrevPage v
  | NextClicked => goToNextPage v
  | ThumbClicked i => if (Z.of_nat i <? pageCount v)%Z then set_currentPage (Z.of_nat i) v else v
  | KeyDown key => handleKeyDown key v
  | ZoomInClicked => zoomIn v
  | ZoomOutClicked => zoomOut v
  | ResetClicked => resetZoom v
  | ImageLoaded => set_loading false v
  | ImageFailed => set_error (Some "Failed to load page"%string) v
  end.

Definition step (v : Viewer) (e : Event) : Viewer := render (handle e v).
Definition run (v : Viewer) (es : list Event) : Viewer := foldl step v es.

(** The zoom levels the buttons can reach from 1. *)
Definition zoom_levels : list float :=
  [0.5; 0.75; 1; 1.25; 1.5; 1.75; 2; 2.25; 2.5; 2.75; 3]%float.

(** The page shown is a page of the document, and the image is its image. *)
Definition in_range (v : Viewer) : Prop :=
  (0 ≤ currentPage v)%Z
  ∧ ((0 < pageCount v)%Z → (currentPage v < pageCount v)%Z)
  ∧ ((pageCount v ≤ 0)%Z → currentPage v = 0%Z)
  ∧ ((0 < pageCount v)%Z → imageUrl v = Some (currentPage v))
  ∧ imageDeps v = Some (currentPage v, pageCount v).

End PDFViewer.

(** ** The sub-group list of the queue page *)

Module SubGroups.
Import Browser.

(** An entry of [data.subgroups]; only its name is read. *)
Record SubGroup := mkSubGroup { g_name : string }.

(** The part of the page's state that [fetchSubGroups] reads and writes. *)
Record Selection := mkSelection {
  availableSubGroups : list SubGroup;
  selectedSubGroup : option string;
  loadingSubGroups : bool
}.

(** [!selectedSubGroup]: null and the empty string are falsy. *)
Definition unselected (o : option string) : bool :=
  match o with
  | None | Some EmptyString => true
  | Some _ => false
  end.

(** [fetchSubGroups], from the answer to [GET /subgroups/list]; the body
    is [data.subgroups], possibly missing. *)
Definition fetchSubGroups (resp : Fetch (option (list SubGroup))) (s : Selection)
  : Selection :=
  let s := mkSelection (availableSubGroups s) (selectedSubGroup s) true in
  let s :=
    match resp with
    | Ok subgroups =>
        let s := mkSelection (default [] subgroups) (selectedSubGroup s) (loadingSubGroups s) in
        match subgroups with
        | Some (first :: rest) =>
            if unselected (selectedSubGroup s) then
              match List.find (λ g, String.eqb (g_name g) "General") (first :: rest) with
              | Some _ => mkSelection (availableSubGroups s) (Some "General"%string)
                            (loadingSubGroups s)
              | None => mkSelection (availableSubGroups s) (Some (g_name first))
                          (loadingSubGroups s)
              end
            else s
        | _ => s
        end
    | NotOk | NetworkError => s
    end in
  mkSelection (availableSubGroups s) (selectedSubGroup s) false.

End SubGroups.

(** * Scenarios

    Concrete hosts, managers and pages on which the statements below are
    exercised. *)

Module Scenario.
Import Js Browser.

(** A browser with a microphone and WebRTC. *)
Definition host : Host := mkHost true true (Some [mkTrack AudioKind true false]) true.

(** The snapshot for the participant at place [p] of three. *)
Definition q (p : nat) : HomePage.Snapshot :=
  HomePage.mkSnapshot p 3 (bool_decide (p = 1)) (bool_decide (p = 2)).

(** *** An audio manager *)

Definition created : AudioManager.St :=
  (empty_world, AudioManager.constructor "me" "General" "/api").

Definition initialized : AudioManager.St :=
  (AudioManager.initialize host true created).2.

Definition connected : AudioManager.St :=
  (AudioManager.connectToPeers host (Ok (Some ["a"; "me"; "b"]%string)) initialized).2.

Definition answer_of (p : SessionId) (id : nat) : Signal :=
  mkSignal p Answer (Some (mkPayload (Some (mkDescription SdpAnswer id true)) None)).

Definition candidate_of (p : SessionId) : Signal :=
  mkSignal p IceCandidate (Some (mkPayload None (Some (mkCandidate 0 true)))).

(** *** The queue page *)

(** Mounted, role chosen, name typed, group selected, panel expanded. *)
Definition entered : HomePage.Client :=
  HomePage.mkClient empty_world "/api" (Some "participant"%string) "Ann" None false None 10
    false true false (Some "General"%string) true false
    None None None None [] (Some (None, false)) (Some (None, None, false, false, (None, false))).

Definition joined (p : nat) : HomePage.Client :=
  HomePage.joinQueue host (Ok "me"%string) (Ok (q p)) entered.

Definition second_in_line : HomePage.Client :=
  HomePage.step (joined 3) (HomePage.StatusFetched (Ok (q 2))).

Definition first_in_line : HomePage.Client :=
  HomePage.step second_in_line (HomePage.StatusFetched (Ok (q 1))).

(** A turn: up the queue, a second of waiting, reading, a poll lost on
    the way, the panel opened again, and the finish. *)
Definition one_turn : list HomePage.Transition :=
  [HomePage.Snapshot_ (q 2); HomePage.Snapshot_ (q 1); HomePage.Tick (Ok tt);
   HomePage.StartReading (Ok tt); HomePage.PollFailed; HomePage.TogglePanel;
   HomePage.FinishReading (q 3)].

(** Waiting at position 1 for [n] seconds, the polls going on. *)
Definition waiting_for (n : nat) : list HomePage.Event :=
  HomePage.StatusFetched (Ok (q 1)) :: HomePage.StatusFetched NetworkError
    :: HomePage.CardClicked :: HomePage.MuteClicked
    :: replicate n (HomePage.SecondElapsed (Ok tt)).

(** *** The queue page with the position-2 timer, in the queue at place 3 *)

Definition third_in_line : HomePageP2.Client :=
  HomePageP2.mkClient empty_world (Some "me"%string) (Some (q 3)) false false 30 false true
    None None None [] (Some (Some false, false, Some "me"%string)) (Some (Some false)).

(** At position 2 for [n] seconds, each followed by a poll. *)
Definition staying_for (n : nat) : list HomePageP2.Event :=
  mjoin (replicate n [HomePageP2.SecondElapsed (Ok tt); HomePageP2.SnapshotFetched (q 2)]).

End Scenario.

(** ** More scenarios *)

Module MoreScenarios.
Import Js Browser Scenario.

(** *** Envelopes *)

Definition offer_of (p : SessionId) (id : nat) : Signal :=
  mkSignal p Offer (Some (mkPayload (Some (mkDescription SdpOffer id true)) None)).

(** An offer envelope without data. *)
Definition empty_offer (p : SessionId) : Signal := mkSignal p Offer None.

(** The connection [connected] holds for [a]: our offer is pending. *)
Definition offered_to_a : PeerConn :=
  mkPeerConn "a" ["stun:stun.l.google.com:19302"; "stun:stun1.l.google.com:19302"]%string
    HaveLocalOffer (Some (mkDescription SdpOffer 0 true)) None [(0, 0)] [].

(** [connected], after the answer of [a] has arrived. *)
Definition answered : AudioManager.St :=
  (AudioManager.handleSignal host (answer_of "a" 5) connected).2.

Definition answered_by_a : PeerConn :=
  mkPeerConn "a" ["stun:stun.l.google.com:19302"; "stun:stun1.l.google.com:19302"]%string
    Stable (Some (mkDescription SdpOffer 0 true)) (Some (mkDescription SdpAnswer 5 true))
    [(0, 0)] [].

(** *** The queue page *)

(** Ten seconds without a click. *)
Definition ten_seconds : list HomePage.Event :=
  replicate 10 (HomePage.SecondElapsed (Ok tt)).

(** *** The paged viewer: a document of five pages, at its second page *)

Definition second_page : PDFViewer.Viewer :=
  PDFViewer.run PDFViewer.mount [PDFViewer.PagesFetched (Ok 5%Z); PDFViewer.NextClicked].

(** *** The page with the position-2 timer, three seconds into position 2 *)

Definition getting_ready : HomePageP2.Client :=
  HomePageP2.run third_in_line (HomePageP2.SnapshotFetched (q 2) :: staying_for 3).

(** At position 1 for [n] seconds, each followed by a poll. *)
Definition leading_for (n : nat) : list HomePageP2.Event :=
  mjoin (replicate n [HomePageP2.SecondElapsed (Ok tt); HomePageP2.SnapshotFetched (q 1)]).

End MoreScenarios.

(** * Verification *)

(** ** The peer mesh manager *)

Module AudioManagerFacts.
Import Js Browser AudioManager.

Lemma world_eta (w : World) :
  mkWorld (pcs w) (streams w) (timers w) (nextTimer w) (audioElements w) (signalsSent w) = w.
Proof. by destruct w. Qed.

Lemma this_eta (a : t) :
  mk (sessionId a) (subGroup a) (apiUrl a) (localStream a) (peerConnections a)
     (isMuted a) (isInitialized a) (pollingInterval a) = a.
Proof. by destruct a. Qed.

Lemma this_eta' (a : t) : set_peerConnections (peerConnections a) a = a.
Proof. by destruct a. Qed.

Lemma fresh_pc_None (w : World) : pcs w !! fresh (dom (pcs w)) = None.
Proof. apply not_elem_of_dom, is_fresh. Qed.

Lemma set_pcs_insert_insert h pc1 pc2 w :
  set_pcs (<[h := pc2]>) (set_pcs (<[h := pc1]>) w) = set_pcs (<[h := pc2]>) w.
Proof. unfold set_pcs; simpl. by rewrite insert_insert_eq. Qed.

Lemma set_pcs_insert_id h pc w : pcs w !! h = Some pc → set_pcs (<[h := pc]>) w = w.
Proof. intros H. unfold set_pcs. rewrite insert_id by done. apply world_eta. Qed.

Lemma bind_returned {S A B} (c : M S A) (k : A → M S B) s x s' :
  c s = (Returned x, s') → bind c k s = k x s'.
Proof. unfold bind. by intros ->. Qed.

Lemma bind_threw {S A B} (c : M S A) (k : A → M S B) s e s' :
  c s = (Threw e, s') → bind c k s = (Threw e, s').
Proof. unfold bind. by intros ->. Qed.

Lemma update_pc_ok h op w a pc pc' :
  pcs w !! h = Some pc → op pc = Returned pc' →
  update_pc h op (w, a) = (Returned tt, (set_pcs (<[h := pc']>) w, a)).
Proof. unfold update_pc. simpl. by intros -> ->. Qed.

Lemma update_pc_threw h op w a pc e :
  pcs w !! h = Some pc → op pc = Threw e →
  update_pc h op (w, a) = (Threw e, (w, a)).
Proof. unfold update_pc. simpl. by intros -> ->. Qed.

Lemma fresh_stream_None (w : World) : streams w !! fresh (dom (streams w)) = None.
Proof. apply not_elem_of_dom, is_fresh. Qed.

Lemma pc_addTrack_ok tr pc :
  signalingState pc ≠ Closed → tr ∉ senders pc →
  ∃ pc', pc_addTrack tr pc = Returned pc' ∧ same_negotiation pc pc'
         ∧ senders pc' = senders pc ++ [tr].
Proof.
  intros Hst Hin. unfold pc_addTrack. rewrite bool_decide_eq_false_2 by done.
  set (pc' := mkPeerConn (remotePeer pc) (iceServers pc) (signalingState pc)
                (localDescription pc) (remoteDescription pc) (senders pc ++ [tr])
                (remoteCandidates pc)).
  exists pc'. split; [|done].
  change (match signalingState pc with
          | Closed => Threw InvalidStateError
          | _ => Returned pc' end = Returned pc').
  by destruct (signalingState pc).
Qed.

Lemma addTrack_loop (sh h : nat) (a : t) (n : nat) :
  ∀ k w pc,
    pcs w !! h = Some pc → signalingState pc ≠ Closed →
    (∀ i, (sh, i) ∈ senders pc → i < k) →
    ∃ pc', for_of (seq k n) (λ i, update_pc h (pc_addTrack (sh, i))) (w, a)
           = (Returned tt, (set_pcs (<[h := pc']>) w, a))
           ∧ same_negotiation pc pc'.
Proof.
  induction n as [|n IH]; intros k w pc Hpc Hst Hsend; simpl.
  - exists pc. split; [|done]. unfold ret. by rewrite set_pcs_insert_id.
  - destruct (pc_addTrack_ok (sh, k) pc) as (pc1 & Hadd & Hsame1 & Hs1); [done| |].
    { intros Hin. apply Hsend in Hin. lia. }
    destruct (IH (S k) (set_pcs (<[h := pc1]>) w) pc1) as (pc' & Heq & Hsame).
    + apply lookup_insert_eq.
    + destruct Hsame1 as (_ & -> & _). done.
    + rewrite Hs1. intros i [Hin|Hin%list_elem_of_singleton]%elem_of_app.
      * apply Hsend in Hin. lia.
      * injection Hin as ->. lia.
    + exists pc'. erewrite bind_returned by (by eapply update_pc_ok).
      rewrite Heq, set_pcs_insert_insert. split; [done|].
      unfold same_negotiation in *. naive_solver congruence.
Qed.

Lemma addLocalTracks_ok (h : nat) (w : World) (a : t) (pc : PeerConn) :
  pcs w !! h = Some pc → signalingState pc ≠ Closed → senders pc = [] →
  ∃ pc', addLocalTracks h (w, a) = (Returned tt, (set_pcs (<[h := pc']>) w, a))
         ∧ same_negotiation pc pc'.
Proof.
  intros Hpc Hst Hs. unfold addLocalTracks, bind, get. simpl.
  destruct (localStream a) as [sh|].
  - apply addTrack_loop; [done..|]. rewrite Hs. intros i Hi. by apply elem_of_nil in Hi.
  - exists pc. unfold ret. by rewrite set_pcs_insert_id.
Qed.

(** An outbound connection to a peer: a new connection object under the
    peer's id, its offer committed locally and sent. *)
Lemma createPeerConnection_ok (host : Host) (p : SessionId) (w : World) (a : t) :
  hasRTCPeerConnection host = true →
  let h := fresh (dom (pcs w)) in
  ∃ pc, createPeerConnection host p (w, a)
        = (Returned tt,
           (set_signalsSent
              (λ l, l ++ [mkEnvelope (sessionId a) p Offer
                            (mkPayload (Some (mkDescription SdpOffer h true)) None)])
              (set_pcs (<[h := pc]>) w),
            set_peerConnections (<[p := h]> (peerConnections a)) a))
        ∧ remotePeer pc = p ∧ signalingState pc = HaveLocalOffer
        ∧ localDescription pc = Some (mkDescription SdpOffer h true)
        ∧ remoteDescription pc = None.
Proof.
  intros Hrtc h. unfold createPeerConnection, try_catch.
  set (pc0 := new_pc p ["stun:stun.l.google.com:19302"; "stun:stun1.l.google.com:19302"]%string).
  set (a1 := set_peerConnections (<[p := h]> (peerConnections a)) a).
  destruct (addLocalTracks_ok h (set_pcs (<[h := pc0]>) w) a1 pc0) as (pc1 & Heq & Hsame);
    [apply lookup_insert_eq|done|done|].
  rewrite set_pcs_insert_insert in Heq.
  destruct Hsame as (Hp & Hst & Hl & Hr). simpl in *.
  erewrite bind_returned; last first.
  { unfold construct_pc. rewrite Hrtc. simpl. reflexivity. }
  fold h pc0.
  erewrite bind_returned by reflexivity. simpl. fold a1.
  erewrite bind_returned by exact Heq.
  erewrite bind_returned; last first.
  { unfold ask_pc. simpl. rewrite lookup_insert_eq. unfold pc_createOffer. rewrite Hst.
    reflexivity. }
  erewrite bind_returned; last first.
  { eapply update_pc_ok; [apply lookup_insert_eq|].
    unfold pc_setLocalDescription. simpl. rewrite Hst. reflexivity. }
  rewrite set_pcs_insert_insert.
  eexists. split; [reflexivity|]. simpl. done.
Qed.

(** *** Initialisation *)

(** C8: [initialize(startMuted)] never throws; it returns false and
    changes nothing when the host has no capture capability or the
    capture request is rejected; when capture is granted it returns true
    with every audio track's [enabled] set to the negation of
    [startMuted], the mute flag set to [startMuted], the manager marked
    initialised and the signal poll running. *)
Theorem initialize_spec (host : Host) (startMuted : bool) (w : World) (a : t) :
  let r := initialize host startMuted (w, a) in
  returned r.1 ∧
  (hasMediaDevices host = false ∨ hasGetUserMedia host = false ∨ capture host = None →
     r = (Returned false, (w, a))) ∧
  (∀ ts, hasMediaDevices host = true → hasGetUserMedia host = true → capture host = Some ts →
     r.1 = Returned true ∧
     ∃ sh h,
       localStream r.2.2 = Some sh ∧
       streams w !! sh = None ∧
       streams r.2.1 !! sh = Some (map (enable_audio (negb startMuted)) ts) ∧
       (∀ ts' tr, streams r.2.1 !! sh = Some ts' → tr ∈ ts' → is_audio tr = true →
                  enabled tr = negb startMuted) ∧
       isMuted r.2.2 = startMuted ∧
       isInitialized r.2.2 = true ∧
       pollingInterval r.2.2 = Some h ∧
       timers r.2.1 !! h = Some SignalPoll).
Proof.
  unfold initialize, try_catch, getUserMedia.
  destruct (hasMediaDevices host) eqn:Hmd, (hasGetUserMedia host) eqn:Hgum; simpl.
  2-4: split; [done|]; split; [done|]; intros; congruence.
  destruct (capture host) as [ts|] eqn:Hcap; simpl.
  - split; [done|]. split; [naive_solver|].
    intros ts' _ _ [= <-]. split; [done|].
    exists (fresh (dom (streams w))), (nextTimer w).
    assert (Hs : alter (map (enable_audio (negb startMuted))) (fresh (dom (streams w)))
              (<[fresh (dom (streams w)) := ts]> (streams w)) !! fresh (dom (streams w))
            = Some (map (enable_audio (negb startMuted)) ts)).
    { by rewrite lookup_alter_eq, lookup_insert_eq. }
    repeat split; try done.
    + apply fresh_stream_None.
    + intros ts' tr Hts' Hin Haud. unfold enable_audio in *.
      rewrite Hs in Hts'. injection Hts' as <-.
      apply list_elem_of_fmap in Hin as (tr0 & -> & _).
      unfold enable_audio in *.
      destruct (is_audio tr0) eqn:E; [done|]. congruence.
    + apply lookup_insert_eq.
  - split; [done|]. split; [done|]. intros; congruence.
Qed.

(** *** Signals for unknown peers *)

(** C4: an [answer] or [ice-candidate] envelope whose sender has no
    connection leaves the world and the manager exactly as they were,
    and the call returns normally. *)
Theorem handleSignal_unknown_peer (host : Host) (sg : Signal) (s : St) :
  type sg = Answer ∨ type sg = IceCandidate →
  peerConnections s.2 !! from sg = None →
  handleSignal host sg s = (Returned tt, s).
Proof.
  intros Hty Hnone. unfold handleSignal, try_catch, bind, get, ret.
  destruct Hty as [-> | ->]; simpl; by rewrite Hnone.
Qed.
(** *** Answers *)

(** C7: with an offer pending for peer [P], the first well-formed answer
    from [P] commits the remote description and makes the connection
    stable; every later answer envelope from [P] is rejected by the
    connection, caught, and leaves the whole state unchanged. *)
Theorem answer_commits_once (host : Host) (w : World) (a : t) (P : SessionId) (h : nat)
    (pc : PeerConn) (answer : Signal) (d : Description) (dups : list Signal) :
  peerConnections a !! P = Some h →
  pcs w !! h = Some pc →
  signalingState pc = HaveLocalOffer →
  from answer = P → type answer = Answer → sdp <$> data answer = Some (Some d) →
  d_type d = SdpAnswer → d_parses d = true →
  Forall (λ sg, from sg = P ∧ type sg = Answer ∧
                ∀ p d', data sg = Some p → sdp p = Some d' → d_type d' = SdpAnswer) dups →
  let r := handleSignal host answer (w, a) in
  r.1 = Returned tt ∧
  r.2.2 = a ∧
  (∃ pc', pcs r.2.1 !! h = Some pc' ∧ signalingState pc' = Stable
          ∧ remoteDescription pc' = Some d ∧ localDescription pc' = localDescription pc) ∧
  for_of dups (handleSignal host) r.2 = (Returned tt, r.2).
Proof.
  intros Hconn Hpc Hst Hfrom Hty Hdata Hdt Hdp Hdups.
  set (pc1 := mkPeerConn (remotePeer pc) (iceServers pc) Stable
                (localDescription pc) (Some d) (senders pc) (remoteCandidates pc)).
  assert (Hfirst : handleSignal host answer (w, a)
                   = (Returned tt, (set_pcs (<[h := pc1]>) w, a))).
  { unfold handleSignal, try_catch. rewrite Hty, Hfrom.
    erewrite bind_returned by reflexivity. simpl. rewrite Hconn.
    destruct (data answer) as [p|]; [|done]. injection Hdata as Hsdp.
    erewrite bind_returned; last by (simpl; rewrite Hsdp).
    erewrite update_pc_ok; [done|done|].
    unfold pc_setRemoteDescription. by rewrite Hdp, Hdt, Hst. }
  rewrite Hfirst. simpl. split; [done|]. split; [done|]. split.
  { exists pc1. by rewrite lookup_insert_eq. }
  induction Hdups as [|sg dups (Hf & Ht & Hd) _ IH]; [done|]. simpl.
  erewrite bind_returned; [exact IH|].
  unfold handleSignal, try_catch. rewrite Ht, Hf.
  erewrite bind_returned by reflexivity. simpl. rewrite Hconn.
  destruct (data sg) as [p|]; [|done]. simpl.
  destruct (sdp p) as [d'|] eqn:Hsdp; [|done].
  erewrite bind_returned by reflexivity.
  erewrite update_pc_threw with (e := if d_parses d' then InvalidStateError else OperationError);
    [by destruct (d_parses d')|simpl; apply lookup_insert_eq|].
  unfold pc_setRemoteDescription. rewrite (Hd p d') by done. simpl.
  by destruct (d_parses d').
Qed.

(** The loop of [connectToPeers] over the roster. *)
Lemma discover_loop (host : Host) (peers : list SessionId) :
  hasRTCPeerConnection host = true →
  ∀ (w : World) (a : t),
  ∃ (w' : World) (conns' : gmap SessionId nat) (targets : list SessionId),
    for_of peers
      (λ peer,
         let* s := get in
         when (bool_decide (peer ≠ sessionId s.2)
               && bool_decide (peerConnections s.2 !! peer = None))
           (createPeerConnection host peer)) (w, a)
    = (Returned tt, (w', set_peerConnections conns' a))
    ∧ dom conns' = dom (peerConnections a) ∪ (list_to_set peers ∖ {[sessionId a]})
    ∧ (∀ p h, peerConnections a !! p = Some h → conns' !! p = Some h)
    ∧ (∀ h pc, pcs w !! h = Some pc → pcs w' !! h = Some pc)
    ∧ NoDup targets
    ∧ (∀ p, p ∈ targets ↔ p ∈ peers ∧ p ≠ sessionId a ∧ peerConnections a !! p = None)
    ∧ (∃ offers, signalsSent w' = signalsSent w ++ offers
                 ∧ Forall2 (λ p e, fromSessionId e = sessionId a ∧ toSessionId e = p
                                   ∧ e_type e = Offer) targets offers)
    ∧ (∀ p, p ∈ targets →
            ∃ h pc, conns' !! p = Some h ∧ pcs w !! h = None ∧ pcs w' !! h = Some pc
                    ∧ signalingState pc = HaveLocalOffer ∧ remoteDescription pc = None)
    ∧ size (pcs w') = size (pcs w) + length targets.
Proof.
  intros Hrtc. induction peers as [|p peers IH]; intros w a.
  - exists w, (peerConnections a), []. simpl. unfold ret. rewrite this_eta'.
    split; [done|]. split; [set_solver|]. split; [done|]. split; [done|].
    split; [constructor|]. split; [set_solver|].
    split; [exists []; by rewrite app_nil_r|]. split; [set_solver|]. lia.
  - cbn [for_of].
    destruct (decide (p ≠ sessionId a ∧ peerConnections a !! p = None)) as [[Hself Hnew]|Hskip].
    + destruct (createPeerConnection_ok host p w a Hrtc) as (pc & Hcreate & Hpeer & Hst & _ & Hrd).
      set (h := fresh (dom (pcs w))) in *.
      erewrite bind_returned; last first.
      { unfold bind, get. simpl. rewrite !bool_decide_eq_true_2 by done. exact Hcreate. }
      match type of Hcreate with _ = (_, (?x, ?y)) => set (w1 := x) in *; set (a1 := y) in * end.
      destruct (IH w1 a1) as (w' & conns' & targets & Hrun & Hdom & Hkeep & Hpcs & Hnd & Hin
                                 & (offers & Hsent & Hoff) & Hnew' & Hsize).
      assert (Hfresh : pcs w !! h = None) by apply fresh_pc_None.
      exists w', conns', (p :: targets). rewrite Hrun. simpl in *.
      split; [done|]. split; [rewrite Hdom, dom_insert_L; set_solver|].
      split. { intros q hq Hq. apply Hkeep. rewrite lookup_insert_ne; [done|congruence]. }
      split. { intros h' pc' Hh'. apply Hpcs. rewrite lookup_insert_ne; [done|congruence]. }
      split. { constructor; [|done]. rewrite Hin. rewrite lookup_insert_eq. naive_solver. }
      split. { intros q. rewrite elem_of_cons, Hin, elem_of_cons.
               destruct (decide (q = p)) as [->|Hne].
               - rewrite lookup_insert_eq. naive_solver.
               - rewrite lookup_insert_ne by done. naive_solver. }
      split. { eexists. rewrite Hsent, <- app_assoc. split; [done|].
               constructor; [done|done]. }
      split. { intros q [->|Hq]%elem_of_cons.
               - exists h, pc. split; [apply Hkeep, lookup_insert_eq|].
                 split; [done|]. split; [apply Hpcs, lookup_insert_eq|done].
               - destruct (Hnew' q Hq) as (h' & pc' & ? & Hn & ? & ? & ?).
                 exists h', pc'. apply lookup_insert_None in Hn as [? ?]. done. }
      rewrite Hsize, map_size_insert_None by done. lia.
    + assert (Hb : bool_decide (p ≠ sessionId a) && bool_decide (peerConnections a !! p = None)
                   = false).
      { apply andb_false_iff. rewrite !bool_decide_eq_false. 
        destruct (decide (p ≠ sessionId a)); [right|left]; naive_solver. }
      erewrite bind_returned; last first.
      { unfold bind, get. simpl. rewrite Hb. reflexivity. }
      destruct (IH w a) as (w' & conns' & targets & Hrun & Hdom & Hkeep & Hpcs & Hnd & Hin
                               & Hoff & Hnew' & Hsize).
      exists w', conns', targets. rewrite Hrun.
      split; [done|]. split.
      { assert (Hp : p = sessionId a ∨ p ∈ dom (peerConnections a)).
        { destruct (decide (p = sessionId a)); [by left|right].
          apply elem_of_dom. destruct (peerConnections a !! p) eqn:E; [done|naive_solver]. }
        rewrite Hdom. clear -Hp. set_solver. }
      split; [done|]. split; [done|]. split; [done|].
      split. { intros q. rewrite Hin, elem_of_cons. naive_solver. }
      done.
Qed.

(** *** Teardown *)

Lemma pc_close_idemp pc : pc_close (pc_close pc) = pc_close pc.
Proof. done. Qed.

(** The loop of [cleanup], field by field. *)
Lemma close_all_pcs (l : list (SessionId * nat)) (w : World) :
  pcs (foldl (λ w e, close_peer e w) w l)
  = foldl (λ m e, alter pc_close e.2 m) (pcs w) l.
Proof. revert w. induction l as [|e l IH]; intros w; [done|]. simpl. by rewrite IH. Qed.

Lemma close_all_audio (l : list (SessionId * nat)) (w : World) :
  audioElements (foldl (λ w e, close_peer e w) w l)
  = foldl (λ au e, remove_first e.1 au) (audioElements w) l.
Proof. revert w. induction l as [|e l IH]; intros w; [done|]. simpl. by rewrite IH. Qed.

Lemma close_all_rest (l : list (SessionId * nat)) (w : World) :
  let w' := foldl (λ w e, close_peer e w) w l in
  streams w' = streams w ∧ timers w' = timers w ∧ nextTimer w' = nextTimer w
  ∧ signalsSent w' = signalsSent w.
Proof.
  revert w. induction l as [|e l IH]; intros w; [done|]. simpl.
  destruct (IH (close_peer e w)) as (-> & -> & -> & ->). done.
Qed.

Lemma closed_lookup (l : list (SessionId * nat)) (m : gmap nat PeerConn) (h : nat) :
  foldl (λ m e, alter pc_close e.2 m) m l !! h
  = if decide (h ∈ l.*2) then pc_close <$> m !! h else m !! h.
Proof.
  revert m. induction l as [|[p h'] l IH]; intros m; simpl; [done|].
  rewrite IH.
  destruct (decide (h' = h)) as [->|Hne].
  - rewrite lookup_alter_eq.
    repeat case_decide; try (by destruct (m !! h)); exfalso; set_solver.
  - rewrite lookup_alter_ne by done.
    repeat case_decide; try done; exfalso; set_solver.
Qed.

Lemma remove_first_elem_of p x l : x ∈ remove_first p l → x ∈ l.
Proof.
  induction l as [|y l IH]; simpl; [done|]. case_decide; set_solver.
Qed.

Lemma remove_first_NoDup p l : NoDup l → NoDup (remove_first p l) ∧ p ∉ remove_first p l.
Proof.
  induction 1 as [|y l Hy Hl IH]; simpl; [split; [constructor|set_solver]|].
  case_decide as E; [subst; done|].
  destruct IH as [IH1 IH2]. split; [|set_solver].
  constructor; [|done]. intros Hin. by apply remove_first_elem_of in Hin.
Qed.

Lemma detach_all (l : list (SessionId * nat)) (au : list SessionId) :
  NoDup au → (∀ p, p ∈ au → p ∈ l.*1) →
  foldl (λ au e, remove_first e.1 au) au l = [].
Proof.
  revert au. induction l as [|[p h] l IH]; intros au Hnd Hsub; simpl.
  - destruct au as [|x au]; [done|]. specialize (Hsub x). set_solver.
  - destruct (remove_first_NoDup p au Hnd) as [Hnd' Hp].
    apply IH; [done|]. intros x Hx.
    assert (x ≠ p) by (intros ->; done).
    apply remove_first_elem_of in Hx. specialize (Hsub x Hx). set_solver.
Qed.

(** What [cleanup] does, in full. *)
Lemma cleanup_effect (w : World) (a : t) :
  let r := cleanup (w, a) in
  let w' := r.2.1 in
  let a' := r.2.2 in
  r.1 = Returned tt ∧
  cleanup (w', a') = (Returned tt, (w', a')) ∧
  pollingInterval a' = None ∧
  (∀ h, pollingInterval a = Some h → timers w' !! h = None) ∧
  peerConnections a' = ∅ ∧
  (∀ p h pc, peerConnections a !! p = Some h → pcs w !! h = Some pc →
             pcs w' !! h = Some (pc_close pc)) ∧
  (NoDup (audioElements w) → (∀ p, p ∈ audioElements w → p ∈ dom (peerConnections a)) →
     audioElements w' = []) ∧
  localStream a' = None ∧
  (∀ sh ts, localStream a = Some sh → streams w !! sh = Some ts →
            streams w' !! sh = Some (map stop_track ts)) ∧
  isInitialized a' = false ∧
  isMuted a' = isMuted a ∧
  timers w' = (if pollingInterval a is Some h then delete h (timers w) else timers w) ∧
  nextTimer w' = nextTimer w.
Proof.
  destruct a as [sid sg api ls conns muted init poll].
  unfold cleanup, bind, get, on_world, on_this, modify, ret. simpl.
  set (l := map_to_list conns).
  assert (Hl : ∀ p h, conns !! p = Some h → h ∈ l.*2).
  { intros p h Hp. apply list_elem_of_fmap. exists (p, h). split; [done|].
    by apply elem_of_map_to_list. }
  assert (Hk : ∀ p, p ∈ dom conns → p ∈ l.*1).
  { intros p [h Hp]%elem_of_dom. apply list_elem_of_fmap. exists (p, h). split; [done|].
    by apply elem_of_map_to_list. }
  destruct poll as [hp|], ls as [sh|]; simpl;
    rewrite ?map_to_list_empty; simpl;
    repeat match goal with |- _ ∧ _ => split end; try done.
  all: try (intros; simplify_eq).
  all: rewrite ?close_all_pcs, ?close_all_audio; simpl.
  all: try match goal with
    | |- timers (foldl _ ?w0 ?l0) !! _ = None =>
        destruct (close_all_rest l0 w0) as (_ & -> & _); apply lookup_delete_eq
    | |- timers (foldl _ ?w0 ?l0) = _ =>
        by destruct (close_all_rest l0 w0) as (_ & -> & _)
    | |- nextTimer (foldl _ ?w0 ?l0) = _ =>
        by destruct (close_all_rest l0 w0) as (_ & _ & -> & _)
    | |- alter _ _ (streams (foldl _ ?w0 ?l0)) !! _ = _ =>
        destruct (close_all_rest l0 w0) as (-> & _); rewrite lookup_alter_eq; simpl;
        by match goal with H : streams _ !! _ = Some _ |- _ => rewrite H end
    | |- foldl _ (audioElements _) _ = [] => by apply detach_all; auto
    | Hc : _ !! _ = Some ?h, Hpc : pcs _ !! ?h = Some _ |- foldl _ (pcs _) _ !! ?h = _ =>
        rewrite closed_lookup, decide_True by eauto; by rewrite Hpc
    end.
Qed.

End AudioManagerFacts.

(** ** The queue page *)

Module HomePageFacts.
Import Js Browser HomePage.

Ltac break_match :=
  repeat match goal with
    | |- context [match ?x with _ => _ end] =>
        match type of x with
        | bool => destruct x eqn:?
        | option _ => destruct x eqn:?
        | sumbool _ _ => destruct x
        | Timer => destruct x eqn:?
        | nat => destruct x eqn:?
        | Fetch _ => destruct x eqn:?
        | QueueAction => destruct x eqn:?
        end; simpl in *
    end.

(** *** What muting touches *)

Lemma toggle_frame am s :
  let s' := (call_audio AudioManager.toggleMute am s).2 in
  session_view s' = session_view s ∧ timer_view s' = timer_view s
  ∧ hasStartedReading s' = hasStartedReading s ∧ wasPosition2 s' = wasPosition2 s
  ∧ actionsPosted s' = actionsPosted s ∧ pollingDeps s' = pollingDeps s
  ∧ positionDeps s' = positionDeps s ∧ pollingInterval s' = pollingInterval s
  ∧ isMuted s' = isMuted s
  ∧ ∃ am', audioManager s' = Some am'
           ∧ AudioManager.isMuted am' = negb (AudioManager.isMuted am)
           ∧ AudioManager.localStream am' = AudioManager.localStream am
           ∧ tracks_follow (world s') am'.
Proof.
  unfold call_audio, AudioManager.toggleMute.
  unfold bind, AudioManager.on_this, AudioManager.on_world, modify, get, ret. simpl.
  destruct (AudioManager.localStream am) as [sh|] eqn:Hls; simpl.
  - repeat split; try done. eexists. split; [done|]. split; [done|]. split; [done|].
    intros sh' ts tr Hsh Hts Hin Haud. simpl in *. rewrite Hls in Hsh. injection Hsh as <-.
    rewrite lookup_alter_eq in Hts.
    destruct (streams (world s) !! sh) as [ts0|]; simplify_eq/=.
    apply list_elem_of_fmap in Hin as (tr0 & -> & _).
    unfold enable_audio in *. destruct (is_audio tr0) eqn:E; [done|congruence].
  - repeat split; try done. eexists. split; [done|]. split; [done|]. split; [done|].
    intros sh' ts tr Hsh. simpl in Hsh. congruence.
Qed.

Lemma mute_frame am s :
  let s' := set_isMuted true (mute_audio am s) in
  session_view s' = session_view s ∧ timer_view s' = timer_view s
  ∧ hasStartedReading s' = hasStartedReading s ∧ wasPosition2 s' = wasPosition2 s
  ∧ actionsPosted s' = actionsPosted s ∧ pollingDeps s' = pollingDeps s
  ∧ positionDeps s' = positionDeps s ∧ pollingInterval s' = pollingInterval s.
Proof.
  unfold mute_audio. destruct (AudioManager.isMuted am); [done|].
  destruct (toggle_frame am s) as (? & ? & ? & ? & ? & ? & ? & ? & _). done.
Qed.

Lemma mute_audio_muted am s :
  audioManager s = Some am → tracks_ok s →
  let s' := set_isMuted true (mute_audio am s) in
  localMuted s' = true ∧ tracks_ok s' ∧ audioManager s' ≠ None.
Proof.
  intros Ham Hok. unfold mute_audio. destruct (AudioManager.isMuted am) eqn:Hm.
  - simpl. unfold localMuted, tracks_ok. simpl. rewrite Ham. split; [done|]. split; [|done].
    intros am' [= <-]. by apply Hok.
  - destruct (toggle_frame am s) as (_ & _ & _ & _ & _ & _ & _ & _ & _ & am' & Ha & Hmu & _ & Htr).
    remember (call_audio AudioManager.toggleMute am s).2 as s'.
    unfold localMuted, tracks_ok. simpl. rewrite Ha. rewrite Hmu, Hm.
    split; [done|]. split; [|done]. intros am'' [= <-]. done.
Qed.

(** *** The position effect *)

Ltac unfold_audio :=
  unfold mute_audio, unmute_audio, call_audio, AudioManager.toggleMute,
    bind, AudioManager.on_this, AudioManager.on_world, modify, get, ret,
    clear_ref, clearTimer, setTimer in *.

Ltac crush_effect :=
  unfold_audio; simpl in *; break_match; simplify_eq/=;
  repeat split; try done; try congruence.

Lemma positionEffect_frame r s :
  session_view (positionEffect r s) = session_view s
  ∧ pollingDeps (positionEffect r s) = pollingDeps s
  ∧ positionDeps (positionEffect r s) = positionDeps s
  ∧ pollingInterval (positionEffect r s) = pollingInterval s
  ∧ actionsPosted (positionEffect r s) = actionsPosted s.
Proof. unfold positionEffect, startAutoSkipTimer. crush_effect. Qed.

Lemma positionEffect_started r s :
  hasStartedReading (positionEffect r s)
  = if atPosition1 r then hasStartedReading s else false.
Proof. unfold positionEffect, startAutoSkipTimer. crush_effect. Qed.

Lemma positionEffect_wasPosition2 r s :
  wasPosition2 (positionEffect r s)
  = if atPosition2 r then true
    else if atPosition1 r && wasPosition2 r then false else wasPosition2 s.
Proof. unfold positionEffect, startAutoSkipTimer. crush_effect. Qed.

Lemma positionEffect_audio r s :
  audio_view (positionEffect r s)
  = if atPosition1 r then audio_view s
    else match queueStatus r with Some _ => muted_view s | None => audio_view s end.
Proof.
  unfold positionEffect, startAutoSkipTimer, muted_view, audio_view. crush_effect.
Qed.

Lemma muted_view_ext s1 s2 : audio_view s1 = audio_view s2 → muted_view s1 = muted_view s2.
Proof.
  unfold muted_view, audio_view. intros [= Ha Hs Hm]. rewrite Ha.
  destruct (audioManager s2) as [am|] eqn:Ha2; [|congruence].
  unfold_audio. unfold AudioManager.set_audio_enabled, set_streams. simpl.
  destruct (AudioManager.isMuted am); simpl; [congruence|].
  destruct (AudioManager.localStream am); simpl; by rewrite Hs.
Qed.

Lemma pollingEffect_frame r s :
  let s' := pollingEffect r s in
  session_view s' = session_view s ∧ audio_view s' = audio_view s
  ∧ hasStartedReading s' = hasStartedReading s ∧ wasPosition2 s' = wasPosition2 s
  ∧ actionsPosted s' = actionsPosted s ∧ pollingDeps s' = pollingDeps s
  ∧ positionDeps s' = positionDeps s ∧ autoSkipTimeout s' = autoSkipTimeout s
  ∧ timerInterval s' = timerInterval s.
Proof. unfold pollingEffect, startPolling, audio_view. crush_effect. Qed.

(** *** One render *)

Lemma commit_session s : session_view (commit s) = session_view s.
Proof.
  unfold commit.
  destruct (pollingEffect_frame s (set_pollingDeps (Some (polling_deps s)) s)) as (Hs & _).
  repeat case_decide; rewrite ?(proj1 (positionEffect_frame _ _)); simpl; rewrite ?Hs; done.
Qed.

Lemma commit_deps s :
  pollingDeps (commit s) = Some (polling_deps s)
  ∧ positionDeps (commit s) = Some (position_deps s).
Proof.
  unfold commit.
  destruct (positionEffect_frame s
              (set_positionDeps (Some (position_deps s))
                 (if decide (pollingDeps s = Some (polling_deps s)) then s
                  else pollingEffect s (set_pollingDeps (Some (polling_deps s)) s))))
    as (_ & Hp & Hq & _).
  destruct (pollingEffect_frame s (set_pollingDeps (Some (polling_deps s)) s))
    as (_ & _ & _ & _ & _ & Hp' & Hq' & _).
  repeat case_decide; rewrite ?Hp, ?Hq; simpl; rewrite ?Hp', ?Hq'; done.
Qed.

Lemma commit_started s :
  hasStartedReading (commit s)
  = if position_changed s && negb (atPosition1 s) then false else hasStartedReading s.
Proof.
  unfold commit, position_changed.
  destruct (pollingEffect_frame s (set_pollingDeps (Some (polling_deps s)) s))
    as (_ & _ & Hs & _).
  repeat case_decide; rewrite ?positionEffect_started; simpl; rewrite ?Hs;
    rewrite ?bool_decide_eq_true_2, ?bool_decide_eq_false_2 by (try done; naive_solver);
    simpl; by destruct (atPosition1 s).
Qed.

Lemma commit_wasPosition2 s :
  wasPosition2 (commit s)
  = if position_changed s then
      if atPosition2 s then true
      else if atPosition1 s && wasPosition2 s then false else wasPosition2 s
    else wasPosition2 s.
Proof.
  unfold commit, position_changed.
  destruct (pollingEffect_frame s (set_pollingDeps (Some (polling_deps s)) s))
    as (_ & _ & _ & Hs & _).
  repeat case_decide; rewrite ?positionEffect_wasPosition2; simpl; rewrite ?Hs;
    rewrite ?bool_decide_eq_true_2, ?bool_decide_eq_false_2 by (try done; naive_solver);
    simpl; done.
Qed.

Lemma commit_audio s :
  audio_view (commit s)
  = if position_changed s && negb (atPosition1 s) then
      match queueStatus s with Some _ => muted_view s | None => audio_view s end
    else audio_view s.
Proof.
  unfold commit, position_changed.
  destruct (pollingEffect_frame s (set_pollingDeps (Some (polling_deps s)) s))
    as (_ & Hs & _).
  repeat case_decide; rewrite ?positionEffect_audio; simpl;
    rewrite ?bool_decide_eq_true_2, ?bool_decide_eq_false_2 by (try done; naive_solver);
    simpl; destruct (atPosition1 s); simpl; try done.
  all: destruct (queueStatus s); [apply muted_view_ext|]; simpl; try done;
    unfold audio_view in *; simpl in *; congruence.
Qed.

Lemma commit_queueStatus s : queueStatus (commit s) = queueStatus s.
Proof. pose proof (commit_session s) as H. unfold session_view in H. congruence. Qed.

Lemma commit_sessionId s : sessionId (commit s) = sessionId s.
Proof. pose proof (commit_session s) as H. unfold session_view in H. congruence. Qed.

Lemma commit_atPosition1 s : atPosition1 (commit s) = atPosition1 s.
Proof. unfold atPosition1. by rewrite commit_queueStatus. Qed.

Lemma commit_atPosition2 s : atPosition2 (commit s) = atPosition2 s.
Proof. unfold atPosition2. by rewrite commit_queueStatus. Qed.

Lemma position_changed_false s :
  position_changed s = false ↔ positionDeps s = Some (position_deps s).
Proof.
  unfold position_changed. rewrite bool_decide_eq_false.
  split; [apply dec_stable|]. by intros ? ?.
Qed.

(** After one render the state changes no more: a second render leaves
    the dependencies as the first left them. *)
Lemma commit_commit_quiescent s : quiescent (commit (commit s)).
Proof.
  destruct (commit_deps (commit s)) as [Hp Hq].
  destruct (commit_deps s) as [_ Hq0].
  pose proof (commit_session (commit s)) as Hs. unfold session_view in Hs.
  injection Hs as Hs1 Hs2 Hs3.
  split.
  - rewrite Hp. unfold polling_deps. by rewrite Hs1, Hs2.
  - rewrite Hq. f_equal. unfold position_deps. rewrite Hs1, Hs3.
    assert (Hgoal : wasPosition2 (commit (commit s)) = wasPosition2 (commit s)
                    ∧ hasStartedReading (commit (commit s)) = hasStartedReading (commit s));
      [|by destruct Hgoal as [-> ->]].
    rewrite (commit_wasPosition2 (commit s)), (commit_started (commit s)).
    rewrite commit_atPosition1, commit_atPosition2.
    destruct (position_changed (commit s)) eqn:Hc1; [|done]. simpl.
    destruct (position_changed s) eqn:Hc0.
    + rewrite commit_wasPosition2, commit_started, Hc0. simpl.
      destruct (atPosition1 s), (atPosition2 s), (wasPosition2 s); done.
    + exfalso. apply position_changed_false in Hc0.
      assert (position_changed (commit s) = false); [|congruence].
      apply position_changed_false. rewrite Hq0. f_equal. unfold position_deps.
      pose proof (commit_session s) as Hs0. unfold session_view in Hs0.
      injection Hs0 as -> _ ->.
      rewrite commit_wasPosition2, commit_started.
      assert (position_changed s = false) as -> by (by apply position_changed_false).
      done.
Qed.

Lemma render_unfold s :
  render s = if decide (quiescent s) then s
             else if decide (quiescent (commit s)) then commit s
                  else commit (commit s).
Proof.
  unfold render. simpl. repeat case_decide; try done.
  exfalso. eauto using commit_commit_quiescent.
Qed.

Lemma render_quiescent s : quiescent (render s).
Proof. rewrite render_unfold. repeat case_decide; auto using commit_commit_quiescent. Qed.

Lemma render_id s : quiescent s → render s = s.
Proof. intros. rewrite render_unfold. by rewrite decide_True. Qed.

(** What every render preserves, rendering preserves. *)
Lemma render_preserves (I : Client → Prop) :
  (∀ s, I s → I (commit s)) → ∀ s, I s → I (render s).
Proof. intros HI s Hs. rewrite render_unfold. repeat case_decide; auto. Qed.

(** *** Coherence is kept by rendering *)

Lemma turnState_reading s :
  turnState s = Position1Reading ↔ atPosition1 s = true ∧ hasStartedReading s = true.
Proof.
  unfold turnState, atPosition1. destruct (queueStatus s) as [q|]; [|naive_solver].
  destruct (isPosition1 q), (hasStartedReading s), (isPosition2 q); naive_solver.
Qed.

Lemma audio_view_same s s' :
  audio_view s' = audio_view s →
  localMuted s' = localMuted s ∧ audioManager s' = audioManager s
  ∧ (tracks_ok s → tracks_ok s').
Proof.
  unfold audio_view, localMuted, tracks_ok, tracks_follow. intros [= -> Hs ->].
  rewrite Hs. done.
Qed.

Lemma muted_view_spec s s' :
  audio_view s' = muted_view s → tracks_ok s →
  tracks_ok s'
  ∧ (audioManager s' = None ↔ audioManager s = None)
  ∧ (audioManager s ≠ None → localMuted s' = true)
  ∧ (audioManager s = None → localMuted s' = localMuted s).
Proof.
  unfold muted_view. intros Hv Hok. destruct (audioManager s) as [am|] eqn:Ham.
  - destruct (mute_audio_muted am s Ham Hok) as (Hm & Ht & Hn).
    destruct (audio_view_same _ _ Hv) as (-> & -> & Hok').
    split; [auto|]. split; [naive_solver|]. split; [done|]. done.
  - destruct (audio_view_same _ _ Hv) as (-> & -> & Hok').
    rewrite Ham. split; [auto|]. done.
Qed.

Lemma coherent_same s s' :
  queueStatus s' = queueStatus s → hasStartedReading s' = hasStartedReading s →
  localMuted s' = localMuted s → coherent s → coherent s'.
Proof.
  unfold coherent. rewrite !turnState_reading. unfold atPosition1.
  intros -> -> ->. done.
Qed.

Lemma commit_renderable s : renderable s → renderable (commit s).
Proof.
  intros (Hok & Hsid & Hthird). unfold renderable.
  rewrite commit_atPosition1, commit_sessionId.
  pose proof (commit_audio s) as Hau. pose proof (commit_started s) as Hst.
  pose proof (commit_queueStatus s) as Hqs.
  destruct (position_changed s && negb (atPosition1 s)) eqn:Hc.
  - (* the effect leaves position 1 *)
    apply andb_true_iff in Hc as [Hc Hp1]. apply negb_true_iff in Hp1.
    assert (Hmuted : tracks_ok (commit s)
                     ∧ (audioManager (commit s) = None ↔ audioManager s = None)
                     ∧ localMuted (commit s) = true).
    { destruct (queueStatus s) as [q|] eqn:Hq.
      - destruct (muted_view_spec _ _ Hau Hok) as (? & ? & Hm & Hn).
        split; [done|]. split; [done|].
        destruct Hthird as [[Ha _]|Hl]; [by apply Hm|].
        destruct (audioManager s) eqn:E; [by apply Hm|]. by rewrite Hn.
      - destruct (audio_view_same _ _ Hau) as (Hl & Ha & Ht).
        split; [auto|]. rewrite Ha. split; [done|].
        rewrite Hl. by destruct Hthird as [[_ ?]|?]. }
    destruct Hmuted as (Hok' & Hnone & Hm).
    split; [done|]. split; [naive_solver|].
    rewrite Hp1, andb_true_r. destruct (position_changed (commit s)); [by right|].
    split; [done|]. rewrite Hm, turnState_reading, commit_atPosition1, Hp1. naive_solver.
  - destruct (audio_view_same _ _ Hau) as (Hl & Ha & Ht).
    split; [auto|]. rewrite Ha. split; [done|].
    assert (Hco : coherent (commit s)) by (by apply (coherent_same s)).
    destruct (position_changed (commit s) && negb (atPosition1 s)) eqn:Hc'; [|done].
    apply andb_true_iff in Hc' as [Hc' Hp1]. rewrite Hp1, andb_true_r in Hc.
    (* nothing changed in the first render, so nothing is due in the second *)
    exfalso. apply position_changed_false in Hc.
    assert (position_changed (commit s) = false); [|congruence].
    apply position_changed_false. destruct (commit_deps s) as [_ ->]. f_equal.
    unfold position_deps.
    pose proof (commit_session s) as Hs0. unfold session_view in Hs0.
    injection Hs0 as -> _ ->. rewrite commit_wasPosition2, Hst.
    assert (position_changed s = false) as -> by (by apply position_changed_false).
    done.
Qed.

Lemma render_settled s : renderable s → settled (render s).
Proof.
  intros Hr. pose proof (render_quiescent s) as Hq.
  apply (render_preserves renderable) in Hr; [|apply commit_renderable].
  destruct Hr as (Hok & Hsid & Hthird). split; [done|]. split; [done|]. split; [done|].
  destruct Hq as [_ Hq]. apply position_changed_false in Hq. by rewrite Hq in Hthird.
Qed.

Lemma settled_renderable s : settled s → renderable s.
Proof.
  intros ([_ Hq] & Hok & Hsid & Hco). split; [done|]. split; [done|].
  apply position_changed_false in Hq. by rewrite Hq.
Qed.

(** *** What the turn logic does not see *)

Lemma turn_view_same s s' :
  turn_view s' = turn_view s →
  (quiescent s → quiescent s') ∧ (renderable s → renderable s')
  ∧ (settled s → settled s').
Proof.
  unfold turn_view, session_view. intros [= Hsid Hj Hq Ham Hstr Hmu Hst Hw Hpd Hqd].
  assert (Hau : audio_view s' = audio_view s) by (unfold audio_view; congruence).
  destruct (audio_view_same s s' Hau) as (Hl & Ha & Ht).
  assert (Hpos : position_deps s' = position_deps s).
  { unfold position_deps. by rewrite Hsid, Hq, Hst, Hw. }
  assert (Hpol : polling_deps s' = polling_deps s).
  { unfold polling_deps. by rewrite Hsid, Hj. }
  assert (Hquiet : quiescent s → quiescent s').
  { unfold quiescent. rewrite Hpd, Hqd, Hpos, Hpol. done. }
  assert (Hco : coherent s → coherent s') by (by apply coherent_same).
  split; [done|]. split.
  - unfold renderable, position_changed, mute_pending, atPosition1.
    rewrite Hqd, Hpos, Hq, Ha, Hsid, Hl. intros (? & ? & ?). split; [auto|]. split; [done|].
    destruct (_ && _); auto.
  - unfold settled. rewrite Ha, Hsid. naive_solver.
Qed.

Lemma turn_view_fields s s' :
  turn_view s' = turn_view s →
  audioManager s' = audioManager s ∧ queueStatus s' = queueStatus s
  ∧ sessionId s' = sessionId s ∧ hasStartedReading s' = hasStartedReading s
  ∧ localMuted s' = localMuted s ∧ (tracks_ok s → tracks_ok s').
Proof.
  unfold turn_view, session_view. intros [= Hsid Hj Hq Ham Hstr Hmu Hst Hw Hpd Hqd].
  assert (Hau : audio_view s' = audio_view s) by (unfold audio_view; congruence).
  destruct (audio_view_same s s' Hau) as (Hl & Ha & Ht). done.
Qed.

Lemma fire_turn_view resp s h : turn_view (fire resp s h) = turn_view s.
Proof.
  unfold fire, countdownTick, autoSkipExpired, post_action, turn_view, audio_view.
  crush_effect.
Qed.

Lemma second_turn_view resp s : turn_view (second resp s) = turn_view s.
Proof.
  unfold second. generalize (seq 0 (nextTimer (world s))). intros l. revert s.
  induction l as [|h l IH]; intros s; [done|]. simpl. by rewrite IH, fire_turn_view.
Qed.

Lemma prepare_turn_view a s :
  is_mute_action a = false →
  turn_view (handleAction_prepare a s) = turn_view s.
Proof.
  intros Ha. unfold handleAction_prepare, turn_view, audio_view. rewrite Ha. crush_effect.
Qed.

Lemma post_action_turn_view sid a s : turn_view (post_action sid a s) = turn_view s.
Proof. done. Qed.

Lemma unmute_audio_unmuted am s :
  audioManager s = Some am → tracks_ok s →
  let s' := set_isMuted false (unmute_audio am s) in
  localMuted s' = false ∧ tracks_ok s' ∧ audioManager s' ≠ None
  ∧ session_view s' = session_view s ∧ hasStartedReading s' = hasStartedReading s.
Proof.
  intros Ham Hok. unfold unmute_audio. destruct (AudioManager.isMuted am) eqn:Hm.
  - destruct (toggle_frame am s) as (Hs & _ & Hst & _ & _ & _ & _ & _ & _ & am' & Ha & Hmu & _ & Htr).
    remember (call_audio AudioManager.toggleMute am s).2 as s'.
    unfold localMuted, tracks_ok. simpl. rewrite Ha. rewrite Hmu, Hm.
    split; [done|]. split; [|done]. intros am'' [= <-]. done.
  - simpl. unfold localMuted, tracks_ok. simpl. rewrite Ham. split; [done|]. split; [|done].
    intros am' [= <-]. by apply Hok.
Qed.

Lemma prepare_mutes a s :
  is_mute_action a = true →
  let s' := handleAction_prepare a s in
  audio_view s' = muted_view s ∧ session_view s' = session_view s
  ∧ hasStartedReading s' = hasStartedReading s ∧ wasPosition2 s' = wasPosition2 s
  ∧ pollingDeps s' = pollingDeps s ∧ positionDeps s' = positionDeps s.
Proof.
  intros Ha. unfold handleAction_prepare, muted_view, audio_view. rewrite Ha. crush_effect.
Qed.

Lemma quiescent_same s s' :
  session_view s' = session_view s → hasStartedReading s' = hasStartedReading s →
  wasPosition2 s' = wasPosition2 s → pollingDeps s' = pollingDeps s →
  positionDeps s' = positionDeps s → quiescent s → quiescent s'.
Proof.
  unfold session_view, quiescent, polling_deps, position_deps.
  intros [= -> -> ->] -> -> -> ->. done.
Qed.

Lemma handleSessionEnd_fields s :
  audioManager (handleSessionEnd s) = None ∧ sessionId (handleSessionEnd s) = None
  ∧ hasJoined (handleSessionEnd s) = false ∧ queueStatus (handleSessionEnd s) = None
  ∧ userRole (handleSessionEnd s) = None ∧ isMuted (handleSessionEnd s) = true
  ∧ hasStartedReading (handleSessionEnd s) = false
  ∧ audioInitialized (handleSessionEnd s) = false.
Proof. unfold handleSessionEnd. destruct (audioManager s) eqn:E; simpl; rewrite ?E; done. Qed.

Lemma handleSessionEnd_renderable s : renderable (handleSessionEnd s).
Proof.
  destruct (handleSessionEnd_fields s) as (Ha & Hsid & _ & Hq & _ & Hm & Hst & _).
  unfold renderable, tracks_ok. rewrite Ha.
  split; [done|]. split; [done|].
  assert (Hl : localMuted (handleSessionEnd s) = true) by (unfold localMuted; by rewrite Ha).
  destruct (position_changed _ && _); [by right|].
  split; [done|]. rewrite Hl, turnState_reading, Hst. naive_solver.
Qed.

Lemma status_renderable resp s :
  settled s → renderable (fetchQueueStatus None resp s).
Proof.
  intros Hs. pose proof (settled_renderable s Hs) as Hr.
  destruct Hs as ([_ Hq] & Hok & Hsid & Hco).
  unfold fetchQueueStatus. destruct (sessionId s) as [sid|] eqn:Hsess; [|done].
  destruct resp as [q| |]; [|apply handleSessionEnd_renderable|done].
  assert (Ham : audioManager s ≠ None) by (intros E; by apply Hsid in E).
  set (s1 := set_queueStatus (Some q) s).
  split; [done|]. split; [done|].
  destruct (position_changed s1 && negb (atPosition1 s1)) eqn:Hc.
  { left. done. }
  destruct Hco as [Hidle Hiff]. rewrite turnState_reading in Hiff.
  unfold coherent. rewrite turnState_reading.
  change (atPosition1 s1) with (isPosition1 q) in *.
  change (hasStartedReading s1) with (hasStartedReading s).
  change (localMuted s1) with (localMuted s).
  destruct (isPosition1 q) eqn:Hp1.
  - split; [done|]. rewrite Hiff.
    destruct (atPosition1 s), (hasStartedReading s); naive_solver.
  - rewrite andb_true_r in Hc. apply position_changed_false in Hc.
    change (positionDeps s1) with (positionDeps s) in Hc. rewrite Hq in Hc.
    injection Hc as Hc _. unfold atPosition1 in *.
    destruct (queueStatus s) as [q0|]; [|done]. injection Hc as Hc.
    rewrite Hc in *. rewrite Hp1 in *. naive_solver.
Qed.

Lemma action_renderable a resp s :
  settled s → offered s (ActionTaken a resp) = true → (a = Finish → False) →
  renderable (handleAction a resp s).
Proof.
  intros Hs Hoff Hfin. pose proof (settled_renderable s Hs) as Hr.
  destruct Hs as (Hq & Hok & Hsid & Hco).
  unfold handleAction. destruct (sessionId s) as [sid|] eqn:Hsess; [|done].
  assert (Ham : audioManager s ≠ None) by (intros E; by apply Hsid in E).
  destruct (audioManager s) as [am|] eqn:Hsome; [clear Ham|done].
  destruct a; [| |done].
  - (* start *)
    assert (Hoff' : atPosition1 s = true ∧ hasStartedReading s = false).
    { simpl in Hoff. destruct (atPosition1 s), (hasStartedReading s);
        rewrite ?andb_false_r in Hoff; done. }
    destruct Hoff' as [Hp1 Hns].
    set (sp := post_action sid Start (handleAction_prepare Start s)).
    assert (Hv : turn_view sp = turn_view s) by (by apply prepare_turn_view).
    destruct (turn_view_same _ _ Hv) as (Hq' & Hr' & _).
    rewrite render_id by auto.
    destruct resp as [[]| |]; simpl; [|by apply Hr'..].
    assert (Hsp : audioManager sp = Some am ∧ tracks_ok sp ∧ queueStatus sp = queueStatus s).
    { destruct (turn_view_fields _ _ Hv) as (-> & -> & _ & _ & _ & Ht). auto. }
    destruct Hsp as (Hasp & Hoksp & Hqsp).
    change (audioManager (handleAction_prepare Start s)) with (audioManager sp).
    rewrite Hasp.
    destruct (unmute_audio_unmuted am (set_hasStartedReading true sp))
      as (Hl & Ht & Hn & Hsv & Hst); [done|done|].
    set (s1 := set_isMuted false _) in *.
    unfold session_view in Hsv. injection Hsv as Hsid1 _ Hqs1.
    change (queueStatus s1 = queueStatus sp) in Hqs1.
    change (hasStartedReading s1 = true) in Hst.
    assert (Hp1' : atPosition1 s1 = true) by (unfold atPosition1 in *; by rewrite Hqs1, Hqsp).
    split; [done|]. split; [done|]. rewrite Hp1', andb_false_r.
    split; [by rewrite Hp1'|]. rewrite Hl, turnState_reading, Hp1', Hst. done.
  - (* skip *)
    assert (Hoff' : atPosition1 s = true ∧ hasStartedReading s = false).
    { simpl in Hoff. destruct (atPosition1 s), (hasStartedReading s);
        rewrite ?andb_false_r in Hoff; done. }
    destruct Hoff' as [Hp1 Hns].
    destruct (prepare_mutes Skip s eq_refl) as (Hau & Hsv & Hst & Hw & Hpd & Hqd).
    set (sp := post_action sid Skip (handleAction_prepare Skip s)).
    assert (Hq' : quiescent sp) by (by apply (quiescent_same s)).
    rewrite render_id by done.
    assert (Hsame : handleAction_answered Skip resp sp = sp) by (by destruct resp).
    rewrite Hsame.
    destruct (muted_view_spec s sp Hau Hok) as (Ht & Hn & Hm & _).
    split; [done|]. split; [rewrite Hn; congruence|].
    destruct Hq' as [_ Hq']. apply position_changed_false in Hq'. rewrite Hq'. simpl.
    unfold session_view in Hsv. injection Hsv as _ _ Hqs.
    assert (Hp1' : atPosition1 sp = true).
    { unfold atPosition1 in *.
      change (queueStatus sp) with (queueStatus (handleAction_prepare Skip s)).
      by rewrite Hqs. }
    split; [by rewrite Hp1'|]. rewrite Hm by congruence. rewrite turnState_reading.
    change (hasStartedReading sp) with (hasStartedReading (handleAction_prepare Skip s)).
    rewrite Hst, Hns. naive_solver.
Qed.

Lemma finish_settled q s :
  settled s → offered s (ActionTaken Finish (Ok tt)) = true → isPosition1 q = false →
  settled (transition s (FinishReading q)).
Proof.
  intros Hs Hoff Hq1. destruct Hs as (Hq & Hok & Hsid & Hco).
  assert (Hoff' : atPosition1 s = true).
  { simpl in Hoff. destruct (atPosition1 s); rewrite ?andb_false_r in Hoff; done. }
  unfold transition, run, events_of, step. simpl. unfold handleAction.
  destruct (sessionId s) as [sid|] eqn:Hsess.
  2:{ (* no session: the click and the snapshot are both ignored *)
      rewrite (render_id s) by done. unfold fetchQueueStatus. rewrite Hsess.
      rewrite render_id by done. done. }
  assert (Ham : audioManager s ≠ None) by (intros E; by apply Hsid in E).
  destruct (prepare_mutes Finish s eq_refl) as (Hau & Hsv & Hst & Hw & Hpd & Hqd).
  set (sp := post_action sid Finish (handleAction_prepare Finish s)).
  assert (Hq' : quiescent sp) by (by apply (quiescent_same s)).
  rewrite (render_id sp) by done. simpl. rewrite (render_id sp) by done.
  destruct (muted_view_spec s sp Hau Hok) as (Ht & Hn & Hm & _).
  unfold session_view in Hsv. injection Hsv as Hsid' _ Hqs.
  change (sessionId sp = sessionId s) in Hsid'. change (queueStatus sp = queueStatus s) in Hqs.
  unfold fetchQueueStatus. rewrite Hsid', Hsess.
  apply render_settled.
  set (s1 := set_queueStatus (Some q) sp).
  assert (Hn1 : audioManager s1 ≠ None).
  { change (audioManager s1) with (audioManager sp). rewrite Hn. done. }
  split; [done|]. split; [done|].
  assert (Hch : position_changed s1 = true).
  { apply bool_decide_eq_true. change (positionDeps s1) with (positionDeps sp).
    destruct Hq' as [_ ->]. intros [= E _].
    assert (Hqs' : queueStatus (handleAction_prepare Finish s) = queueStatus s) by exact Hqs.
    rewrite ?Hqs, ?Hqs' in E.
    unfold atPosition1 in Hoff'. destruct (queueStatus s) as [q0|]; [|done].
    simpl in E. congruence. }
  rewrite Hch. change (atPosition1 s1) with (isPosition1 q). rewrite Hq1. simpl.
  by left.
Qed.

Lemma toggleExpanded_turn_view s : turn_view (toggleExpanded s) = turn_view s.
Proof. unfold toggleExpanded. by destruct (atPosition1 s). Qed.

Lemma transition_settled s t : settled s → allowed s t → settled (transition s t).
Proof.
  intros Hs Hal. destruct t as [q| | |resp|resp|q|resp|]; simpl in Hal.
  - apply render_settled, status_renderable, Hs.
  - apply render_settled, status_renderable, Hs.
  - apply render_settled, status_renderable, Hs.
  - apply render_settled, action_renderable; done.
  - apply render_settled, action_renderable; done.
  - destruct Hal. by apply finish_settled.
  - apply render_settled. simpl.
    destruct (turn_view_same _ _ (second_turn_view resp s)) as (_ & Hr & _).
    by apply Hr, settled_renderable.
  - apply render_settled. simpl.
    destruct (turn_view_same _ _ (toggleExpanded_turn_view s)) as (_ & Hr & _).
    by apply Hr, settled_renderable.
Qed.

Lemma follow_settled ts : ∀ s, settled s → scripted s ts → settled (follow s ts).
Proof.
  induction ts as [|t ts IH]; intros s Hs Hsc; [done|].
  destruct Hsc as [Hal Hsc]. simpl. apply IH; [|done]. by apply transition_settled.
Qed.


(** *** A failed skip or finish *)

Lemma prepare_cancels a s :
  let s' := handleAction_prepare a s in
  autoSkipTimeout s' = None ∧ timerInterval s' = None
  ∧ (∀ h, autoSkipTimeout s = Some h → timers (world s') !! h = None)
  ∧ (∀ h, timerInterval s = Some h → timers (world s') !! h = None)
  ∧ nextTimer (world s') = nextTimer (world s)
  ∧ (∀ h t, timers (world s') !! h = Some t → timers (world s) !! h = Some t).
Proof.
  unfold handleAction_prepare. crush_effect.
  all: intros; rewrite ?lookup_delete in *; repeat case_decide; by simplify_eq.
Qed.

(** C10: for skip and finish, [handleAction] mutes and cancels the
    auto-skip timers and only then posts the request; when the request
    fails (a response that is not ok, or a network error) the state is
    exactly the prepared one with the request recorded: still muted, the
    tracks disabled, the timer handles null, their timers gone and none
    created, the has-started flag as it was. *)
Theorem failed_action_keeps_side_effects (s : Client) (sid : SessionId) (a : QueueAction)
    (resp : Fetch unit) :
  sessionId s = Some sid → quiescent s → tracks_ok s →
  is_mute_action a = true → resp ≠ Ok tt →
  let prepared := handleAction_prepare a s in
  let after := step s (ActionTaken a resp) in
  after = post_action sid a prepared
  ∧ actionsPosted after = actionsPosted s ++ [(sid, a)]
  ∧ (∀ am, audioManager s = Some am →
       isMuted after = true
       ∧ ∃ am', audioManager after = Some am' ∧ AudioManager.isMuted am' = true
                ∧ tracks_follow (world after) am')
  ∧ autoSkipTimeout after = None ∧ timerInterval after = None
  ∧ (∀ h, autoSkipTimeout s = Some h ∨ timerInterval s = Some h →
          timers (world after) !! h = None)
  ∧ nextTimer (world after) = nextTimer (world s)
  ∧ hasStartedReading after = hasStartedReading s.
Proof.
  intros Hsess Hq Hok Ha Hresp. simpl.
  destruct (prepare_mutes a s Ha) as (Hau & Hsv & Hst & Hw & Hpd & Hqd).
  destruct (prepare_cancels a s) as (Hto & Hti & Hcl1 & Hcl2 & Hnt & _).
  set (sp := post_action sid a (handleAction_prepare a s)).
  assert (Hq' : quiescent sp) by (by apply (quiescent_same s)).
  assert (Hstep : step s (ActionTaken a resp) = sp).
  { unfold step. simpl. unfold handleAction. rewrite Hsess. fold sp.
    rewrite (render_id sp) by done.
    assert (handleAction_answered a resp sp = sp) as ->.
    { destruct resp as [[]| |]; [done|done..]. }
    by apply render_id. }
  rewrite Hstep. split; [done|].
  split.
  { unfold sp, post_action. simpl. f_equal. revert Ha. unfold handleAction_prepare.
    clear. intros Ha. rewrite Ha. crush_effect. }
  split.
  { intros am Ham. destruct (muted_view_spec s sp Hau Hok) as (Ht & Hn & Hm & _).
    assert (Hmu : isMuted sp = true).
    { revert Ham Ha. clear. unfold sp, handleAction_prepare. intros Ham ->. crush_effect. }
    split; [done|].
    destruct (audioManager sp) as [am'|] eqn:Hsp; [|exfalso; naive_solver].
    exists am'. split; [done|]. split; [|by apply Ht].
    specialize (Hm ltac:(congruence)). unfold localMuted in Hm. by rewrite Hsp in Hm. }
  split; [done|]. split; [done|].
  split; [intros h [Hh|Hh]; [by apply Hcl1|by apply Hcl2]|].
  split; [done|]. done.
Qed.

(** *** Session end *)

Lemma clear_ref_world ref w :
  pcs (clear_ref ref w) = pcs w ∧ streams (clear_ref ref w) = streams w
  ∧ nextTimer (clear_ref ref w) = nextTimer w
  ∧ (∀ h, ref = Some h → timers (clear_ref ref w) !! h = None)
  ∧ (∀ h, timers w !! h = None → timers (clear_ref ref w) !! h = None).
Proof.
  destruct ref as [h0|]; simpl; repeat split; try done.
  - intros h [= <-]. apply lookup_delete_eq.
  - intros h Hh. rewrite lookup_delete. by case_decide.
Qed.

Lemma handleSessionEnd_world s :
  (∀ h, pollingInterval s = Some h ∨ autoSkipTimeout s = Some h ∨ timerInterval s = Some h →
        timers (world (handleSessionEnd s)) !! h = None)
  ∧ (∀ am, audioManager s = Some am →
       (∀ h, AudioManager.pollingInterval am = Some h →
             timers (world (handleSessionEnd s)) !! h = None)
       ∧ (∀ p h pc, AudioManager.peerConnections am !! p = Some h →
                    pcs (world s) !! h = Some pc →
                    pcs (world (handleSessionEnd s)) !! h = Some (pc_close pc))
       ∧ (∀ sh ts, AudioManager.localStream am = Some sh →
                   streams (world s) !! sh = Some ts →
                   streams (world (handleSessionEnd s)) !! sh = Some (map stop_track ts))).
Proof.
  set (w1 := clear_ref (timerInterval s)
               (clear_ref (autoSkipTimeout s) (clear_ref (pollingInterval s) (world s)))).
  assert (Hw1 : pcs w1 = pcs (world s) ∧ streams w1 = streams (world s)
                ∧ ∀ h, pollingInterval s = Some h ∨ autoSkipTimeout s = Some h
                       ∨ timerInterval s = Some h → timers w1 !! h = None).
  { unfold w1.
    destruct (clear_ref_world (pollingInterval s) (world s)) as (Hp1 & Hs1 & _ & H1 & _).
    destruct (clear_ref_world (autoSkipTimeout s) (clear_ref (pollingInterval s) (world s)))
      as (Hp2 & Hs2 & _ & H2 & H2').
    destruct (clear_ref_world (timerInterval s)
                (clear_ref (autoSkipTimeout s) (clear_ref (pollingInterval s) (world s))))
      as (Hp3 & Hs3 & _ & H3 & H3').
    split; [by rewrite Hp3, Hp2, Hp1|]. split; [by rewrite Hs3, Hs2, Hs1|].
    intros h [Hh|[Hh|Hh]]; auto. }
  destruct Hw1 as (Hpcs & Hstr & Htim).
  unfold handleSessionEnd. destruct (audioManager s) as [am|] eqn:Ham; simpl; rewrite Ham.
  - destruct (AudioManagerFacts.cleanup_effect w1 am)
      as (_ & _ & _ & Hpoll & _ & Hclosed & _ & _ & Hstop & _ & _ & Ht & _).
    simpl. fold w1. split.
    + intros h Hh. rewrite Ht. apply Htim in Hh.
      destruct (AudioManager.pollingInterval am); [|done].
      rewrite lookup_delete. by case_decide.
    + intros am' [= <-]. split; [done|]. split.
      * intros p h pc Hp Hpc. apply (Hclosed p); [done|]. by rewrite Hpcs.
      * intros sh ts Hsh Hts. apply Hstop; [done|]. by rewrite Hstr.
  - fold w1. split; [done|]. intros am [=].
Qed.

Lemma commit_ended e s' : ended e s' → ended e (commit s').
Proof.
  intros (Hsid & Hj & Hq & Hr & Hst & Hm & Hai & Ham & Hpcs & Hstr & Htim).
  unfold ended, commit, pollingEffect, positionEffect, atPosition1, atPosition2.
  rewrite Hsid, Hj, Hq. simpl.
  repeat case_decide; simpl; rewrite ?Ham; simpl;
    rewrite ?Hsid, ?Hj, ?Hq, ?Hr, ?Hm, ?Hai, ?Ham; simpl.
  all: repeat split; try done.
  all: try (destruct (autoSkipTimeout s'), (timerInterval s'); simpl; done).
  all: intros h Hh; apply Htim in Hh;
    destruct (autoSkipTimeout s'), (timerInterval s'); simpl;
    rewrite ?lookup_delete; repeat case_decide; done.
Qed.

(** C5, as amended: the first status response that is not ok ends the
    session, with no count of failures: session id, joined flag, role and
    queue status are reset, the turn flags and timers are cleared, and
    the audio manager is cleaned up (its poll stopped, its connections
    closed, its tracks stopped) and dropped.  Polls that fail in transit
    change nothing, however many follow one another. *)
Theorem invalidation_on_first_bad_status (s : Client) (sid : SessionId) :
  sessionId s = Some sid →
  let s' := step s (StatusFetched NotOk) in
  (sessionId s' = None ∧ hasJoined s' = false ∧ userRole s' = None
   ∧ queueStatus s' = None ∧ turnState s' = NotInQueue)
  ∧ (hasStartedReading s' = false ∧ isMuted s' = true
     ∧ ∀ h, pollingInterval s = Some h ∨ autoSkipTimeout s = Some h
            ∨ timerInterval s = Some h → timers (world s') !! h = None)
  ∧ (audioManager s' = None ∧ audioInitialized s' = false
     ∧ ∀ am, audioManager s = Some am →
         (∀ h, AudioManager.pollingInterval am = Some h → timers (world s') !! h = None)
         ∧ (∀ p h pc, AudioManager.peerConnections am !! p = Some h →
                      pcs (world s) !! h = Some pc →
                      pcs (world s') !! h = Some (pc_close pc))
         ∧ (∀ sh ts, AudioManager.localStream am = Some sh →
                     streams (world s) !! sh = Some ts →
                     streams (world s') !! sh = Some (map stop_track ts)))
  ∧ (quiescent s → ∀ n, run s (replicate n (StatusFetched NetworkError)) = s).
Proof.
  intros Hsess. simpl.
  assert (Hstep : step s (StatusFetched NotOk) = render (handleSessionEnd s)).
  { unfold step. simpl. unfold fetchQueueStatus. by rewrite Hsess. }
  rewrite Hstep.
  destruct (handleSessionEnd_fields s) as (Ha & Hsid & Hj & Hq & Hr & Hm & Hst & Hai).
  destruct (handleSessionEnd_world s) as (Htim & Hmesh).
  assert (He : ended (handleSessionEnd s) (render (handleSessionEnd s))).
  { apply (render_preserves (ended (handleSessionEnd s))); [apply commit_ended|].
    unfold ended. rewrite Ha, Hsid, Hj, Hq, Hr, Hm, Hst, Hai. done. }
  destruct He as (Hsid' & Hj' & Hq' & Hr' & Hst' & Hm' & Hai' & Ham' & Hpcs & Hstr & Htim').
  split.
  { unfold turnState. rewrite Hsid', Hj', Hq', Hr'. done. }
  split.
  { rewrite Hst', Hm'. split; [done|]. split; [done|]. intros h Hh. by apply Htim', Htim. }
  split.
  { split; [done|]. split; [done|]. intros am Ham.
    destruct (Hmesh am Ham) as (H1 & H2 & H3).
    split; [intros h Hh; by apply Htim', H1|]. rewrite Hpcs, Hstr. done. }
  intros Hquiet n. induction n as [|n IH]; [done|]. simpl.
  assert (step s (StatusFetched NetworkError) = s) as ->; [|done].
  unfold step. simpl. unfold fetchQueueStatus. rewrite Hsess. by apply render_id.
Qed.

(** *** Waiting at position 1 *)

Lemma commit_waiting s0 s : waiting s0 s → waiting s0 (commit s).
Proof.
  intros (Hpd & Hp1 & Hst & Hto & Hsv & Hw & Hto' & Hti & Hpo).
  unfold waiting. rewrite commit_atPosition1, commit_started, Hp1, andb_false_r.
  unfold commit. destruct (decide (pollingDeps s = Some (polling_deps s))); [|done].
  case_decide; [done|].
  unfold polling_deps, positionEffect. rewrite Hp1, Hst. simpl.
  destruct (autoSkipTimeout s) as [h|] eqn:E; [|done].
  destruct (wasPosition2 s) eqn:Ew; simpl; rewrite E; simpl;
    destruct (atPosition2 s); simpl; rewrite ?E; done.
Qed.

Lemma render_waiting s :
  pollingDeps s = Some (polling_deps s) →
  atPosition1 s = true → hasStartedReading s = false → autoSkipTimeout s ≠ None →
  waiting s (render s) ∧ quiescent (render s).
Proof.
  intros. split; [|apply render_quiescent].
  apply (render_preserves (waiting s)); [apply commit_waiting|]. done.
Qed.

(** *** A second at position 1 *)

Lemma fire_inert resp s h :
  (∀ t, timers (world s) !! h = Some t → is_poll t = true) → fire resp s h = s.
Proof.
  intros Hp. unfold fire. destruct (timers (world s) !! h) as [t|]; [|done].
  specialize (Hp t eq_refl). by destruct t.
Qed.

Lemma foldl_fire_inert resp l s :
  (∀ h t, h ∈ l → timers (world s) !! h = Some t → is_poll t = true) →
  foldl (fire resp) s l = s.
Proof.
  induction l as [|h l IH]; intros Hl; [done|]. simpl.
  rewrite fire_inert; [|intros t; apply Hl; left].
  apply IH. intros h' t Hin. apply Hl. by right.
Qed.

(** With only the pair [hi], [S hi] and polls pending, a second is the
    countdown's tick followed by the timeout's. *)
Lemma second_pair resp s hi :
  S hi < nextTimer (world s) →
  (∀ h t, timers (world s) !! h = Some t → h = hi ∨ h = S hi ∨ is_poll t = true) →
  (∀ h, h ≠ hi → h ≠ S hi →
        timers (world (fire resp (fire resp s hi) (S hi))) !! h = timers (world s) !! h) →
  second resp s = fire resp (fire resp s hi) (S hi).
Proof.
  intros Hlt Hothers Hkeep. unfold second.
  replace (nextTimer (world s)) with (hi + (2 + (nextTimer (world s) - hi - 2))) by lia.
  rewrite seq_app, foldl_app.
  assert (H0 : foldl (fire resp) s (seq 0 hi) = s).
  { apply foldl_fire_inert. intros h t Hin Ht. apply elem_of_seq in Hin.
    destruct (Hothers h t Ht) as [?|[?|?]]; [lia|lia|done]. }
  rewrite H0. simpl. replace (hi + 2) with (S (S hi)) by lia.
  apply foldl_fire_inert. intros h t Hin. apply elem_of_seq in Hin.
  rewrite Hkeep by lia. intros Ht. destruct (Hothers h t Ht) as [?|[?|?]]; [lia|lia|done].
Qed.

Lemma second_quiescent resp s : quiescent s → quiescent (second resp s).
Proof. apply turn_view_same, second_turn_view. Qed.

Lemma second_turn resp s :
  sessionId (second resp s) = sessionId s ∧ queueStatus (second resp s) = queueStatus s
  ∧ hasStartedReading (second resp s) = hasStartedReading s.
Proof.
  destruct (turn_view_fields _ _ (second_turn_view resp s)) as (_ & ? & ? & ? & _). done.
Qed.

(** Before the deadline: both timers count down by one. *)
Lemma armed_second_wait sid k resp s :
  armed sid (S (S k)) s →
  armed sid (S k) (step s (SecondElapsed resp))
  ∧ actionsPosted (step s (SecondElapsed resp)) = actionsPosted s.
Proof.
  intros (Hq & Hsid & Hp1 & Hst & Hk & hi & Hti & Hto & Hlt & Hci & Hct & Hothers).
  set (n := Z.of_nat (S k)).
  set (s1 := set_autoSkipTimer n (set_world (set_timers (<[hi := Countdown n]>) (world s)) s)).
  set (s2 := set_world (set_timers (<[S hi := AutoSkipTimeout (S k) false (Some sid)]>)
                          (world s1)) s1).
  assert (H1 : fire resp s hi = s1).
  { unfold fire. rewrite Hci. unfold countdownTick.
    replace (Z.of_nat (S (S k)) - 1)%Z with n by (unfold n; lia).
    assert ((n <=? 0)%Z = false) as -> by (apply Z.leb_gt; unfold n; lia). done. }
  assert (H2 : fire resp s1 (S hi) = s2).
  { unfold fire. simpl. rewrite lookup_insert_ne by lia. rewrite Hct. done. }
  assert (Hsec : second resp s = s2).
  { rewrite (second_pair resp s hi); [by rewrite H1, H2|done|done|].
    intros h Hh1 Hh2. rewrite H1, H2. simpl. by rewrite !lookup_insert_ne. }
  assert (Hstep : step s (SecondElapsed resp) = s2).
  { unfold step. simpl. rewrite render_id; [done|]. by apply second_quiescent. }
  rewrite Hstep. split; [|done].
  destruct (second_turn resp s) as (Hs1 & Hs2 & Hs3). rewrite Hsec in *.
  split; [rewrite <- Hsec; by apply second_quiescent|].
  split; [congruence|]. split; [unfold atPosition1 in *; by rewrite Hs2|].
  split; [congruence|]. split; [lia|].
  exists hi. simpl. split; [done|]. split; [done|]. split; [done|].
  split; [rewrite lookup_insert_ne by lia; by rewrite lookup_insert_eq|].
  split; [by rewrite lookup_insert_eq|].
  intros h t. rewrite !lookup_insert. repeat case_decide; auto.
Qed.

(** At the deadline: the countdown clears itself, the timeout sends one
    skip, and nothing of the two is left. *)
Lemma armed_second_due sid resp s :
  armed sid 1 s →
  expired (step s (SecondElapsed resp))
  ∧ actionsPosted (step s (SecondElapsed resp)) = actionsPosted s ++ [(sid, Skip)].
Proof.
  intros (Hq & Hsid & Hp1 & Hst & Hk & hi & Hti & Hto & Hlt & Hci & Hct & Hothers).
  set (s1 := set_world (clearTimer hi (set_timers (<[hi := Countdown 0]>) (world s)))
               (set_autoSkipTimer 0 s)).
  set (s2 := autoSkipExpired false (Some sid) resp
               (set_world (clearTimer (S hi) (world s1)) s1)).
  assert (H1 : fire resp s hi = s1).
  { unfold fire. rewrite Hci. unfold countdownTick. simpl. by rewrite Hti. }
  assert (Hl : timers (world s1) !! S hi = Some (AutoSkipTimeout 1 false (Some sid))).
  { simpl. rewrite lookup_delete_ne, lookup_insert_ne by lia. done. }
  assert (H2 : fire resp s1 (S hi) = s2).
  { unfold fire. rewrite Hl. done. }
  assert (Htimers : ∀ h, timers (world s2) !! h
                         = if decide (h = hi ∨ h = S hi) then None else timers (world s) !! h).
  { intros h. unfold s2, autoSkipExpired, post_action. destruct resp; simpl;
      rewrite !lookup_delete, ?lookup_insert; repeat case_decide; try done; naive_solver. }
  assert (Hsec : second resp s = s2).
  { rewrite (second_pair resp s hi); [by rewrite H1, H2|done|done|].
    intros h Hh1 Hh2. rewrite H1, H2, Htimers. case_decide; [naive_solver|done]. }
  assert (Hstep : step s (SecondElapsed resp) = s2).
  { unfold step. simpl. rewrite render_id; [done|]. by apply second_quiescent. }
  rewrite Hstep. split.
  - destruct (second_turn resp s) as (Hs1 & Hs2 & Hs3). rewrite Hsec in *.
    split; [rewrite <- Hsec; by apply second_quiescent|].
    split; [congruence|]. split; [unfold atPosition1 in *; by rewrite Hs2|].
    split; [congruence|]. split.
    + unfold s2, autoSkipExpired, post_action. destruct resp; simpl; by rewrite Hto.
    + intros h t. rewrite Htimers. case_decide; [done|].
      intros Ht. destruct (Hothers h t Ht) as [?|[?|?]]; naive_solver.
  - unfold s2, autoSkipExpired, post_action. by destruct resp.
Qed.

(** *** Polls at position 1 *)

Lemma status_waiting q s :
  quiescent s → sessionId s ≠ None → hasStartedReading s = false →
  autoSkipTimeout s ≠ None → isPosition1 q = true →
  let s' := step s (StatusFetched (Ok q)) in
  quiescent s' ∧ sessionId s' = sessionId s ∧ atPosition1 s' = true
  ∧ hasStartedReading s' = false ∧ world s' = world s
  ∧ autoSkipTimeout s' = autoSkipTimeout s ∧ timerInterval s' = timerInterval s
  ∧ actionsPosted s' = actionsPosted s.
Proof.
  intros [Hpd _] Hsid Hst Hto Hq1. simpl.
  unfold step. simpl. unfold fetchQueueStatus.
  destruct (sessionId s) as [sid|] eqn:Hsess; [|done].
  destruct (render_waiting (set_queueStatus (Some q) s))
    as ((_ & Hp1 & Hst' & _ & Hsv & Hw & Hto' & Hti & Hpo) & Hquiet); try done.
  unfold session_view in Hsv. injection Hsv as Hs1 _ _.
  split; [done|]. split; [by rewrite Hs1|]. done.
Qed.

Lemma armed_status sid k q s :
  armed sid k s → isPosition1 q = true →
  armed sid k (step s (StatusFetched (Ok q)))
  ∧ actionsPosted (step s (StatusFetched (Ok q))) = actionsPosted s.
Proof.
  intros (Hq & Hsid & Hp1 & Hst & Hk & hi & Hti & Hto & Hrest) Hq1.
  destruct (status_waiting q s) as (Hq' & Hsid' & Hp1' & Hst' & Hw & Hto' & Hti' & Hpo);
    [done|congruence|done|congruence|done|].
  split; [|done]. split; [done|]. split; [congruence|]. split; [done|]. split; [done|].
  split; [done|]. exists hi. rewrite Hw, Hto', Hti'. done.
Qed.

Lemma toggleMute_frame s :
  let s' := toggleMute s in
  session_view s' = session_view s ∧ timer_view s' = timer_view s
  ∧ hasStartedReading s' = hasStartedReading s ∧ wasPosition2 s' = wasPosition2 s
  ∧ actionsPosted s' = actionsPosted s ∧ pollingDeps s' = pollingDeps s
  ∧ positionDeps s' = positionDeps s.
Proof.
  unfold toggleMute. destruct (audioManager s) as [am|]; [|done].
  destruct (toggle_frame am s) as (H1 & H2 & H3 & H4 & H5 & H6 & H7 & _).
  destruct (call_audio AudioManager.toggleMute am s) as [[b|e] s']; simpl in *; done.
Qed.

Lemma mute_click s :
  quiescent s →
  let s' := step s MuteClicked in
  session_view s' = session_view s ∧ timer_view s' = timer_view s
  ∧ hasStartedReading s' = hasStartedReading s ∧ actionsPosted s' = actionsPosted s
  ∧ quiescent s'.
Proof.
  intros Hq. destruct (toggleMute_frame s) as (H1 & H2 & H3 & H4 & H5 & H6 & H7).
  assert (Hq' : quiescent (toggleMute s)) by (by apply (quiescent_same s)).
  simpl. unfold step. simpl. rewrite render_id by done. done.
Qed.

Lemma armed_mute_click sid k s :
  armed sid k s →
  armed sid k (step s MuteClicked) ∧ actionsPosted (step s MuteClicked) = actionsPosted s.
Proof.
  intros (Hq & Hsid & Hp1 & Hst & Hk & hi & Hti & Hto & Hlt & Hci & Hct & Hothers).
  destruct (mute_click s Hq) as (Hsv & Htv & Hst' & Hpo & Hq').
  unfold session_view in Hsv. unfold timer_view in Htv.
  injection Hsv as Es _ Eq. injection Htv as Et En Eto Eti.
  split; [|done]. split; [done|]. split; [congruence|].
  split; [unfold atPosition1 in *; by rewrite Eq|]. split; [congruence|]. split; [done|].
  exists hi. rewrite Et, En, Eto, Eti. done.
Qed.

Lemma expired_mute_click s :
  expired s →
  expired (step s MuteClicked) ∧ actionsPosted (step s MuteClicked) = actionsPosted s.
Proof.
  intros (Hq & Hsid & Hp1 & Hst & Hto & Hnone).
  destruct (mute_click s Hq) as (Hsv & Htv & Hst' & Hpo & Hq').
  unfold session_view in Hsv. unfold timer_view in Htv.
  injection Hsv as Es _ Eq. injection Htv as Et En Eto Eti.
  split; [|done]. split; [done|]. split; [congruence|].
  split; [unfold atPosition1 in *; by rewrite Eq|]. split; [congruence|].
  split; [congruence|]. unfold no_turn_timers. by rewrite Et.
Qed.

Lemma card_click s :
  quiescent s → atPosition1 s = true →
  step s CardClicked = set_isExpanded (negb (isExpanded s)) s.
Proof.
  intros Hq Hp1. unfold step. simpl. unfold toggleExpanded. rewrite Hp1.
  apply render_id. by apply (quiescent_same s).
Qed.

Lemma expired_idle e s :
  expired s → idle e →
  expired (step s e) ∧ actionsPosted (step s e) = actionsPosted s.
Proof.
  intros (Hq & Hsid & Hp1 & Hst & Hto & Hnone) Hidle.
  destruct e as [[q| |]|a resp| |resp|]; try done.
  - destruct (status_waiting q s) as (Hq' & Hsid' & Hp1' & Hst' & Hw & Hto' & Hti' & Hpo);
      try done.
    split; [|done]. split; [done|]. rewrite Hsid', Hto', Hw. done.
  - assert (step s (StatusFetched NetworkError) = s) as ->; [|done].
    unfold step. simpl. unfold fetchQueueStatus.
    destruct (sessionId s); by apply render_id.
  - by apply expired_mute_click.
  - assert (step s (SecondElapsed resp) = s) as ->; [|done].
    unfold step. simpl. assert (second resp s = s) as ->; [|by apply render_id].
    apply foldl_fire_inert. intros h t _. apply Hnone.
  - rewrite card_click by done. done.
Qed.

Lemma armed_idle sid k e s :
  armed sid k s → idle e →
  match e with
  | SecondElapsed _ =>
      (if decide (k = 1) then expired (step s e) else armed sid (k - 1) (step s e))
      ∧ actionsPosted (step s e)
        = actionsPosted s ++ (if decide (k = 1) then [(sid, Skip)] else [])
  | _ => armed sid k (step s e) ∧ actionsPosted (step s e) = actionsPosted s
  end.
Proof.
  intros Harm Hidle. destruct e as [[q| |]|a resp| |resp|]; try done.
  - by apply armed_status.
  - assert (step s (StatusFetched NetworkError) = s) as ->; [|done].
    destruct Harm as (Hq & _). unfold step. simpl. unfold fetchQueueStatus.
    destruct (sessionId s); by apply render_id.
  - by apply armed_mute_click.
  - destruct k as [|[|k]].
    + destruct Harm as (_ & _ & _ & _ & Hk & _). lia.
    + rewrite decide_True by done. by apply armed_second_due.
    + rewrite decide_False by lia. simpl. rewrite app_nil_r.
      replace (k - 0) with k by lia. by apply armed_second_wait.
  - destruct Harm as (Hq & Hsid & Hp1 & Hrest). rewrite card_click by done. done.
Qed.

Lemma expired_run es :
  ∀ s, expired s → Forall idle es →
       expired (run s es) ∧ actionsPosted (run s es) = actionsPosted s.
Proof.
  induction es as [|e es IH]; intros s Hs Hes; [done|].
  apply Forall_cons in Hes as [He Hes]. simpl.
  destruct (expired_idle e s Hs He) as [Hs' Hp].
  destruct (IH _ Hs' Hes) as [? ->]. done.
Qed.

Lemma armed_run sid es :
  ∀ k s, armed sid k s → Forall idle es →
    (seconds es < k →
       armed sid (k - seconds es) (run s es) ∧ actionsPosted (run s es) = actionsPosted s)
    ∧ (k ≤ seconds es →
       expired (run s es) ∧ actionsPosted (run s es) = actionsPosted s ++ [(sid, Skip)]).
Proof.
  induction es as [|e es IH]; intros k s Hs Hes.
  - simpl. split; [intros _; by replace (k - 0) with k by lia|].
    destruct Hs as (_ & _ & _ & _ & Hk & _). lia.
  - apply Forall_cons in Hes as [He Hes].
    pose proof (armed_idle sid k e s Hs He) as Hstep.
    change (run s (e :: es)) with (run (step s e) es).
    destruct e as [[q| |]|a resp| |resp|]; try done.
    + destruct Hstep as [Hs' Hp]. simpl. rewrite <- Hp. by apply IH.
    + destruct Hstep as [Hs' Hp]. simpl. rewrite <- Hp. by apply IH.
    + destruct Hstep as [Hs' Hp]. simpl. rewrite <- Hp. by apply IH.
    + destruct Hstep as [Hs' Hp]. simpl. case_decide as Hk1.
      * subst k. split; [lia|]. intros _.
        destruct (expired_run es _ Hs' Hes) as [? ->]. by rewrite Hp.
      * rewrite app_nil_r in Hp. rewrite <- Hp.
        destruct (IH (k - 1) _ Hs' Hes) as [IH1 IH2].
        split; intros Hlt.
        -- replace (k - S (seconds es)) with (k - 1 - seconds es) by lia. apply IH1. lia.
        -- apply IH2. lia.
    + destruct Hstep as [Hs' Hp]. simpl. rewrite <- Hp. by apply IH.
Qed.

(** C2: from a state at position 1 with the auto-skip timer armed and
    [k] seconds to go, and with nothing happening but polls that still
    report position 1, clicks on the mute button and on the position
    card, and seconds passing: before the deadline no action is posted;
    from the deadline on exactly one has been, a skip, and no timer of
    the coordinator is pending any more. *)
Theorem auto_skip_exactly_once (sid : SessionId) (k : nat) (s : Client) (es : list Event) :
  armed sid k s → Forall idle es →
  let s' := run s es in
  (seconds es < k → actionsPosted s' = actionsPosted s)
  ∧ (k ≤ seconds es →
       actionsPosted s' = actionsPosted s ++ [(sid, Skip)]
       ∧ no_turn_timers (world s')).
Proof.
  intros Hs Hes. destruct (armed_run sid es k s Hs Hes) as [H1 H2]. split.
  - intros Hlt. by destruct (H1 Hlt).
  - intros Hle. destruct (H2 Hle) as [(_ & _ & _ & _ & _ & Hnone) Hp]. done.
Qed.

(** Reaching position 1 with no handle left over arms the timer for ten
    seconds. *)
Lemma arrival_arms sid q s :
  quiescent s → sessionId s = Some sid → atPosition1 s = false →
  hasStartedReading s = false → autoSkipTimeout s = None →
  no_turn_timers (world s) →
  isPosition1 q = true →
  armed sid 10 (step s (StatusFetched (Ok q))).
Proof.
  intros [Hpd Hqd] Hsid Hp1 Hst Hto Hnone Hq1.
  unfold step. simpl. unfold fetchQueueStatus. rewrite Hsid.
  set (s1 := set_queueStatus (Some q) s).
  assert (Hnq : ¬ quiescent s1).
  { intros [_ E]. change (positionDeps s1) with (positionDeps s) in E. rewrite Hqd in E.
    injection E as E _. unfold atPosition1 in Hp1.
    destruct (queueStatus s) as [q0|]; simpl in E; [|done]. congruence. }
  rewrite render_unfold. rewrite decide_False by done.
  set (s2 := commit s1).
  assert (Hq2 : True) by done.
  assert (Hs2 : waiting s2 s2 ∧ sessionId s2 = Some sid
                ∧ ∃ hi, timerInterval s2 = Some hi ∧ autoSkipTimeout s2 = Some (S hi)
                  ∧ S hi < nextTimer (world s2)
                  ∧ timers (world s2) !! hi = Some (Countdown 10)
                  ∧ timers (world s2) !! S hi = Some (AutoSkipTimeout 10 false (Some sid))
                  ∧ ∀ h t, timers (world s2) !! h = Some t →
                           h = hi ∨ h = S hi ∨ is_poll t = true).
  { unfold s2, commit.
    destruct (decide (pollingDeps s1 = Some (polling_deps s1))) as [_|Hn];
      [|exfalso; apply Hn; exact Hpd].
    destruct (decide (positionDeps s1 = Some (position_deps s1))) as [E|_];
      [exfalso; apply Hnq; split; [exact Hpd|exact E]|].
    clear Hnq Hqd Hq2 Hp1. subst s1.
    unfold positionEffect, waiting, atPosition1, atPosition2, startAutoSkipTimer,
      no_turn_timers, polling_deps in *.
    destruct s as [w api role nm sid0 joined qs ast wasP2 exp started sg muted ainit am
                     pi ato ti posted pd posd]; simpl in *. subst.
    rewrite Hq1. simpl.
    destruct wasP2, (isPosition2 q), ti as [ti|]; simpl.
    all: split; [repeat split; done|]; split; [done|].
    all: exists (nextTimer w); split; [done|]; split; [done|]; split; [lia|].
    all: split; [rewrite lookup_insert_ne by lia; by rewrite lookup_insert_eq|].
    all: split; [by rewrite lookup_insert_eq|].
    all: intros h t; rewrite !lookup_insert, ?lookup_delete; repeat case_decide; auto;
      intros Ht; right; right; by apply (Hnone h). }
  destruct Hs2 as (Hw & Hsid2 & hi & Hrest).
  clear Hq2.
  assert (Hq2 : quiescent s2 → armed sid 10 s2).
  { intros Hq2. destruct Hw as (_ & ? & ? & _). split; [done|]. split; [done|].
    split; [done|]. split; [done|]. split; [lia|]. by exists hi. }
  case_decide as Hq2'; [by apply Hq2|].
  (* a second render changes the flag of position 2 only *)
  destruct (commit_waiting s2 s2 Hw) as (_ & Hp1' & Hst' & _ & Hsv & Hw' & Hto' & Hti' & _).
  split; [apply commit_commit_quiescent|].
  unfold session_view in Hsv. injection Hsv as Hs1 _ _.
  split; [congruence|]. split; [done|]. split; [done|]. split; [lia|].
  exists hi. rewrite Hw', Hto', Hti'. done.
Qed.
End HomePageFacts.

(** ** The queue page with the position-2 timer *)

Module HomePageP2Facts.
Import Js Browser HomePageP2.

Lemma p2_render_id s : quiescent s → render s = s.
Proof. intros. unfold render. simpl. by rewrite decide_True. Qed.

(** *** Seconds at position 2 *)

Lemma p2_fire_inert resp s h :
  (∀ t, timers (world s) !! h = Some t → HomePage.is_poll t = true) → fire resp s h = s.
Proof.
  intros Hp. unfold fire. destruct (timers (world s) !! h) as [t|]; [|done].
  specialize (Hp t eq_refl). by destruct t.
Qed.

Lemma p2_foldl_fire_inert resp l s :
  (∀ h t, h ∈ l → timers (world s) !! h = Some t → HomePage.is_poll t = true) →
  foldl (fire resp) s l = s.
Proof.
  induction l as [|h l IH]; intros Hl; [done|]. simpl.
  rewrite p2_fire_inert; [|intros t; apply Hl; left].
  apply IH. intros h' t Hin. apply Hl. by right.
Qed.

Lemma p2_second_pair resp s hi :
  nextTimer (world s) = S (S hi) →
  (∀ h t, timers (world s) !! h = Some t → h = hi ∨ h = S hi ∨ HomePage.is_poll t = true) →
  second resp s = fire resp (fire resp s hi) (S hi).
Proof.
  intros Hn Hothers. unfold second. rewrite Hn.
  replace (S (S hi)) with (hi + 2) by lia.
  rewrite seq_app, foldl_app.
  assert (H0 : foldl (fire resp) s (seq 0 hi) = s).
  { apply p2_foldl_fire_inert. intros h t Hin Ht. apply elem_of_seq in Hin.
    destruct (Hothers h t Ht) as [?|[?|?]]; [lia|lia|done]. }
  rewrite H0. simpl. by replace (hi + 1) with (S hi) by lia.
Qed.

Lemma fire_deps resp s h :
  let s' := fire resp s h in
  sessionId s' = sessionId s ∧ queueStatus s' = queueStatus s
  ∧ wasPosition2 s' = wasPosition2 s
  ∧ position2Deps s' = position2Deps s ∧ position1Deps s' = position1Deps s
  ∧ nextTimer (world s') = nextTimer (world s).
Proof.
  unfold fire, position2Tick, position2Expired, clearPosition2Timer, post_action, clearTimer.
  simpl.
  repeat match goal with
    | |- context [match ?x with _ => _ end] =>
        match type of x with
        | option _ => destruct x eqn:?
        | Timer => destruct x eqn:?
        | nat => destruct x eqn:?
        | bool => destruct x eqn:?
        end; simpl
    end; done.
Qed.

Lemma p2_quiescent_same s s' :
  sessionId s' = sessionId s → queueStatus s' = queueStatus s →
  wasPosition2 s' = wasPosition2 s → position2Deps s' = position2Deps s →
  position1Deps s' = position1Deps s → quiescent s → quiescent s'.
Proof.
  unfold quiescent, position2_deps, position1_deps. intros -> -> -> -> ->. done.
Qed.

Lemma fire_quiescent resp s h : quiescent s → quiescent (fire resp s h).
Proof.
  destruct (fire_deps resp s h) as (? & ? & ? & ? & ? & _). by apply p2_quiescent_same.
Qed.

(** A snapshot that reports position 2 again changes no dependency:
    no effect runs. *)
Lemma snapshot_same q s :
  quiescent s → atPosition2 s = true → atPosition1 s = false → atSecond q →
  quiescent (set_queueStatus (Some q) s)
  ∧ step s (SnapshotFetched q) = set_queueStatus (Some q) s.
Proof.
  intros [H2 H1] Hp2 Hp1 [Hq2 Hq1].
  assert (Hquiet : quiescent (set_queueStatus (Some q) s)).
  { unfold atPosition1, atPosition2 in *.
    destruct (queueStatus s) as [q0|] eqn:Hq0; [|done].
    split; simpl.
    - rewrite H2. unfold position2_deps. simpl. rewrite Hq0. simpl.
      change HomePage.isPosition2 with isPosition2. by rewrite Hp2, Hq2.
    - rewrite H1. unfold position1_deps. simpl. rewrite Hq0. simpl.
      change HomePage.isPosition1 with isPosition1. by rewrite Hp1, Hq1. }
  split; [done|]. unfold step. simpl. by apply p2_render_id.
Qed.

Lemma counting_snapshot hi k q s :
  counting hi k s → atSecond q → counting hi k (step s (SnapshotFetched q)).
Proof.
  intros (Hq & Hw & Hp2 & Hp1 & Hk & Hti & Hto & Hn & Hci & Hct & Hothers) Hat.
  destruct (snapshot_same q s) as [Hquiet ->]; try done. destruct Hat as [Hq2 Hq1].
  split; [done|]. unfold atPosition1, atPosition2. simpl. done.
Qed.

Lemma lapsed_snapshot hi q s :
  lapsed hi s → atSecond q → lapsed hi (step s (SnapshotFetched q)).
Proof.
  intros (Hq & Hw & Hp2 & Hp1 & Hn & Hothers) Hat.
  destruct (snapshot_same q s) as [Hquiet ->]; try done. destruct Hat as [Hq2 Hq1].
  split; [done|]. unfold atPosition1, atPosition2. simpl. done.
Qed.

Lemma second_fields resp s hi :
  nextTimer (world s) = S (S hi) →
  (∀ h t, timers (world s) !! h = Some t → h = hi ∨ h = S hi ∨ HomePage.is_poll t = true) →
  let s' := second resp s in
  (quiescent s → quiescent s')
  ∧ sessionId s' = sessionId s ∧ queueStatus s' = queueStatus s
  ∧ wasPosition2 s' = wasPosition2 s ∧ nextTimer (world s') = nextTimer (world s).
Proof.
  intros Hn Hothers. simpl. rewrite (p2_second_pair resp s hi) by done.
  destruct (fire_deps resp s hi) as (E1 & E2 & E3 & _ & _ & E6).
  destruct (fire_deps resp (fire resp s hi) (S hi)) as (F1 & F2 & F3 & _ & _ & F6).
  split; [intros; by do 2 apply fire_quiescent|]. repeat split; congruence.
Qed.

Lemma counting_second_wait hi k resp s :
  counting hi (S (S k)) s → counting hi (S k) (step s (SecondElapsed resp)).
Proof.
  intros (Hq & Hw & Hp2 & Hp1 & Hk & Hti & Hto & Hn & Hci & Hct & Hothers).
  destruct (second_fields resp s hi Hn Hothers) as (Hquiet & Hsid & Hqs & Hw' & Hn').
  assert (Hquiet' := Hquiet Hq).
  unfold step. simpl. rewrite p2_render_id by done.
  split; [done|]. split; [congruence|].
  unfold atPosition1, atPosition2 in *. rewrite Hqs, Hsid.
  split; [done|]. split; [done|]. split; [lia|].
  rewrite (p2_second_pair resp s hi) by done.
  assert (H1 : fire resp s hi = position2Tick s).
  { unfold fire. by rewrite Hci. }
  rewrite H1.
  assert (H2 : fire resp (position2Tick s) (S hi)
               = set_world (set_timers (<[S hi := Position2Timeout (S k) (sessionId s)]>)
                              (world s)) (position2Tick s)).
  { unfold fire. simpl. by rewrite Hct. }
  rewrite H2. simpl. split; [done|]. split; [done|]. split; [done|].
  split; [rewrite lookup_insert_ne by lia; done|]. split; [by rewrite lookup_insert_eq|].
  intros h t. rewrite lookup_insert. case_decide; auto.
Qed.

Lemma counting_second_due hi resp s :
  counting hi 1 s → lapsed hi (step s (SecondElapsed resp)).
Proof.
  intros (Hq & Hw & Hp2 & Hp1 & Hk & Hti & Hto & Hn & Hci & Hct & Hothers).
  destruct (second_fields resp s hi Hn Hothers) as (Hquiet & Hsid & Hqs & Hw' & Hn').
  assert (Hquiet' := Hquiet Hq).
  unfold step. simpl. rewrite p2_render_id by done.
  split; [done|]. split; [congruence|].
  unfold atPosition1, atPosition2 in *. rewrite Hqs.
  split; [done|]. split; [done|]. split; [congruence|].
  rewrite (p2_second_pair resp s hi) by done.
  assert (H1 : fire resp s hi = position2Tick s).
  { unfold fire. by rewrite Hci. }
  rewrite H1.
  assert (H2 : fire resp (position2Tick s) (S hi)
               = position2Expired (sessionId s) resp
                   (set_world (clearTimer (S hi) (world s)) (position2Tick s))).
  { unfold fire. simpl. by rewrite Hct. }
  rewrite H2. intros h t. clear H1 H2 Hquiet Hquiet' Hsid Hqs Hw' Hn' Hp1 Hp2 Hq.
  unfold position2Expired, clearPosition2Timer, post_action, position2Tick.
  destruct s as [w sid qs wasP2 started p2t active muted am ti to posted d2 d1].
  simpl in *. subst.
  destruct sid; simpl; rewrite ?lookup_delete; repeat case_decide; try done;
    intros Ht; destruct (Hothers h t Ht) as [?|[?|?]]; auto; try lia.
  left. split; [done|]. subst. congruence.
Qed.

(** After the deadline a second changes no timer. *)
Lemma lapsed_second hi resp s :
  lapsed hi s → lapsed hi (step s (SecondElapsed resp)).
Proof.
  intros (Hq & Hw & Hp2 & Hp1 & Hn & Hothers).
  assert (Hothers' : ∀ h t, timers (world s) !! h = Some t →
                            h = hi ∨ h = S hi ∨ HomePage.is_poll t = true) by naive_solver.
  destruct (second_fields resp s hi Hn Hothers') as (Hquiet & Hsid & Hqs & Hw' & Hn').
  assert (Hquiet' := Hquiet Hq).
  unfold step. simpl. rewrite p2_render_id by done.
  split; [done|]. split; [congruence|].
  unfold atPosition1, atPosition2 in *. rewrite Hqs.
  split; [done|]. split; [done|]. split; [congruence|].
  rewrite (p2_second_pair resp s hi) by done.
  assert (H1 : timers (world (fire resp s hi)) = timers (world s)).
  { unfold fire. destruct (timers (world s) !! hi) as [t|] eqn:Hhi; [|done].
    destruct (Hothers _ _ Hhi) as [[_ ->]|Hpoll]; [done|]. by destruct t. }
  rewrite p2_fire_inert; [by rewrite H1|].
  rewrite H1. intros t Ht. destruct (Hothers _ _ Ht) as [[? _]|?]; [lia|done].
Qed.

Lemma lapsed_staying hi e s : lapsed hi s → staying e → lapsed hi (step s e).
Proof.
  intros Hs He. destruct e as [q|resp]; [by apply lapsed_snapshot|by apply lapsed_second].
Qed.

Lemma lapsed_run hi es : ∀ s, lapsed hi s → Forall staying es → lapsed hi (run s es).
Proof.
  induction es as [|e es IH]; intros s Hs Hes; [done|].
  apply Forall_cons in Hes as [He Hes]. simpl. apply IH; [|done]. by apply lapsed_staying.
Qed.

Lemma counting_run hi es :
  ∀ k s, counting hi k s → Forall staying es →
    (seconds es < k → counting hi (k - seconds es) (run s es))
    ∧ (k ≤ seconds es → lapsed hi (run s es)).
Proof.
  induction es as [|e es IH]; intros k s Hs Hes.
  - simpl. split; [intros _; by replace (k - 0) with k by lia|].
    destruct Hs as (_ & _ & _ & _ & Hk & _). lia.
  - apply Forall_cons in Hes as [He Hes].
    change (run s (e :: es)) with (run (step s e) es).
    destruct e as [q|resp]; simpl.
    + apply IH; [|done]. by apply counting_snapshot.
    + destruct k as [|[|k]].
      * destruct Hs as (_ & _ & _ & _ & Hk & _). lia.
      * split; [lia|]. intros _. apply lapsed_run; [|done]. by apply counting_second_due.
      * destruct (IH (S k) (step s (SecondElapsed resp))) as [IH1 IH2];
          [by apply counting_second_wait|done|].
        split; intros Hlt; [apply IH1; lia|apply IH2; lia].
Qed.

Lemma mute_audio_timers am s :
  let s' := mute_audio am s in
  timers (world s') = timers (world s) ∧ nextTimer (world s') = nextTimer (world s)
  ∧ sessionId s' = sessionId s ∧ queueStatus s' = queueStatus s
  ∧ wasPosition2 s' = wasPosition2 s
  ∧ position2TimerInterval s' = position2TimerInterval s
  ∧ position2TimeoutRef s' = position2TimeoutRef s
  ∧ position2Deps s' = position2Deps s ∧ position1Deps s' = position1Deps s.
Proof.
  unfold mute_audio, AudioManager.toggleMute, bind, AudioManager.on_this,
    AudioManager.on_world, modify, get, ret. simpl.
  destruct (AudioManager.isMuted am); [done|]. simpl.
  destruct (AudioManager.localStream am); done.
Qed.

(** The first snapshot at position 2 starts the timer: thirty seconds,
    one countdown and one timeout. *)
Lemma ready_snapshot q s :
  ready s → atSecond q →
  counting (nextTimer (world s)) 30 (step s (SnapshotFetched q)).
Proof.
  intros ([H2 H1] & Hw & Hp2 & Hti & Hto & Hpolls) [Hq2 Hq1].
  unfold step, render. simpl handle.
  set (s1 := set_queueStatus (Some q) s).
  assert (Hd2 : position2Deps s1 ≠ Some (position2_deps s1)).
  { change (position2Deps s1) with (position2Deps s). rewrite H2. intros [= E].
    unfold atPosition2 in Hp2. destruct (queueStatus s) as [q0|]; simpl in E; [|done].
    change HomePage.isPosition2 with isPosition2 in *. congruence. }
  (* the first render: the position-2 effect starts the timer *)
  remember (startPosition2Timer s1 (set_position2Deps (Some (position2_deps s1)) s1))
    as t1 eqn:Et1.
  assert (Ht1 : position2TimerInterval t1 = Some (nextTimer (world s))
                ∧ position2TimeoutRef t1 = Some (S (nextTimer (world s)))
                ∧ nextTimer (world t1) = S (S (nextTimer (world s)))
                ∧ timers (world t1)
                  = <[S (nextTimer (world s)) := Position2Timeout 30 (sessionId s)]>
                      (<[nextTimer (world s) := Position2Countdown]> (timers (world s)))
                ∧ sessionId t1 = sessionId s ∧ queueStatus t1 = Some q
                ∧ position2Deps t1 = Some (position2_deps s1)
                ∧ position1Deps t1 = position1Deps s).
  { rewrite Et1. subst s1. clear -Hti Hto. unfold startPosition2Timer, clearPosition2Timer.
    destruct s; simpl in *; subst. done. }
  destruct Ht1 as (T1 & T2 & T3 & T4 & T5 & T6 & T7 & T8).
  remember (commit s1) as s2 eqn:Es2.
  assert (Hs2 : position2TimerInterval s2 = Some (nextTimer (world s))
                ∧ position2TimeoutRef s2 = Some (S (nextTimer (world s)))
                ∧ nextTimer (world s2) = S (S (nextTimer (world s)))
                ∧ timers (world s2)
                  = <[S (nextTimer (world s)) := Position2Timeout 30 (sessionId s)]>
                      (<[nextTimer (world s) := Position2Countdown]> (timers (world s)))
                ∧ sessionId s2 = sessionId s ∧ queueStatus s2 = Some q
                ∧ wasPosition2 s2 = true
                ∧ position2Deps s2 = Some (position2_deps s1)
                ∧ position1Deps s2 = Some (position1_deps s1)).
  { rewrite Es2. unfold commit.
    destruct (decide (position2Deps s1 = Some (position2_deps s1))) as [E|_];
      [by destruct Hd2|].
    unfold position2Effect. change (atPosition2 s1) with (isPosition2 q).
    change (wasPosition2 s1) with (wasPosition2 s). rewrite Hq2, Hw. simpl. rewrite <- Et1.
    case_decide as Hd1.
    - simpl. rewrite T1, T2, T3, T4, T5, T6, T7, T8. done.
    - unfold position1Effect. change (atPosition1 s1) with (isPosition1 q). rewrite Hq1.
      simpl. destruct (audioManager t1) as [am|]; simpl.
      + match goal with |- context [mute_audio am ?x] =>
          destruct (mute_audio_timers am x) as (M1 & M2 & M3 & M4 & M5 & M6 & M7 & M8 & M9)
        end.
        rewrite M1, M2, M3, M4, M5, M6, M7, M8, M9. simpl.
        rewrite T1, T2, T3, T4, T5, T6, T7. done.
      + rewrite T1, T2, T3, T4, T5, T6, T7. done. }
  destruct Hs2 as (S1 & S2 & S3 & S4 & S5 & S6 & S7 & S8 & S9).
  assert (Hp2d : position2_deps s2 ≠ position2_deps s1).
  { unfold position2_deps. rewrite S7. change (wasPosition2 s1) with (wasPosition2 s).
    rewrite Hw. congruence. }
  assert (Hp1d : position1_deps s2 = position1_deps s1).
  { unfold position1_deps. by rewrite S6. }
  (* the second render runs the position-2 effect again, to no effect *)
  remember (commit s2) as s3 eqn:Es3.
  assert (Hs3 : s3 = set_position2Deps (Some (position2_deps s2)) s2).
  { rewrite Es3. unfold commit.
    destruct (decide (position2Deps s2 = Some (position2_deps s2))) as [E|_];
      [rewrite S8 in E; congruence|].
    destruct (decide (position1Deps s2 = Some (position1_deps s2))) as [_|E];
      [|destruct E; by rewrite S9, Hp1d].
    unfold position2Effect, atPosition2. rewrite S6, S7, Hq2. done. }
  assert (Hq3 : quiescent s3).
  { rewrite Hs3. split; [reflexivity|].
    change (position1Deps s2 = Some (position1_deps s2)). by rewrite S9, Hp1d. }
  assert (Hrender : settle 4 s1 = s3).
  { simpl. destruct (decide (quiescent s1)) as [[E _]|_]; [done|].
    rewrite <- Es2. destruct (decide (quiescent s2)) as [[E _]|_];
      [rewrite S8 in E; congruence|].
    rewrite <- Es3. by rewrite decide_True. }
  rewrite Hrender. split; [done|]. rewrite Hs3. unfold atPosition1, atPosition2. simpl.
  rewrite S1, S2, S3, S4, S5, S6, S7, Hq1, Hq2.
  split; [done|]. split; [done|]. split; [done|]. split; [lia|].
  split; [done|]. split; [done|]. split; [done|].
  split; [rewrite lookup_insert_ne by lia; by rewrite lookup_insert_eq|].
  split; [by rewrite lookup_insert_eq|].
  intros h t. rewrite !lookup_insert. repeat case_decide; auto.
  intros Ht. right; right. by apply (Hpolls h).
Qed.

(** C3: from a state that is not at position 2 and has no get-ready
    timer, a first snapshot at position 2 followed by any number of
    further snapshots at position 2, with seconds passing in between,
    creates exactly one countdown and one timeout; before the thirty
    seconds are over that timeout is still the only one pending and has
    counted down by the seconds passed, so it was never restarted; after
    them none is pending and none was created. *)
Theorem one_get_ready_timer (s : Client) (q : Snapshot) (es : list Event) :
  ready s → atSecond q → Forall staying es →
  let hi := nextTimer (world s) in
  let s' := run s (SnapshotFetched q :: es) in
  nextTimer (world s') = S (S hi)
  ∧ (seconds es < 30 → counting hi (30 - seconds es) s')
  ∧ (30 ≤ seconds es → lapsed hi s').
Proof.
  intros Hs Hq Hes. simpl.
  pose proof (ready_snapshot q s Hs Hq) as Hc.
  destruct (counting_run _ es 30 _ Hc Hes) as [H1 H2].
  split; [|done].
  destruct (decide (seconds es < 30)) as [Hlt|Hge].
  - by destruct (H1 Hlt) as (_ & _ & _ & _ & _ & _ & _ & ? & _).
  - by destruct (H2 ltac:(lia)) as (_ & _ & _ & _ & ? & _).
Qed.
End HomePageP2Facts.

(** ** The statements on the scenarios *)

Module ScenarioFacts.
Import Js Browser Scenario.

Ltac by_evaluation := refine (bool_decide_unpack _ _); vm_compute; exact I.

(** *** The audio manager *)

(** With a microphone the manager starts muted and initialised; with the
    capture request rejected nothing changes. *)
Lemma initialize_spec_witness :
  (AudioManager.initialize host true created).1 = Returned true
  ∧ AudioManager.isMuted initialized.2 = true
  ∧ AudioManager.isInitialized initialized.2 = true
  ∧ AudioManager.initialize (mkHost true true None true) true created = (Returned false, created).
Proof.
  destruct (AudioManagerFacts.initialize_spec host true created.1 created.2) as (_ & _ & Hyes).
  destruct (Hyes _ eq_refl eq_refl eq_refl) as (Hr & sh & h & _ & _ & _ & _ & Hm & Hi & _).
  destruct (AudioManagerFacts.initialize_spec (mkHost true true None true) true created.1 created.2)
    as (_ & Hno & _).
  exact (conj Hr (conj Hm (conj Hi (Hno (or_intror (or_intror eq_refl)))))).
Defined.

(** Connected to [a] and [b], an answer and a candidate from [z]. *)
Lemma handleSignal_unknown_peer_witness :
  AudioManager.handleSignal host (answer_of "z" 7) connected = (Returned tt, connected)
  ∧ AudioManager.handleSignal host (candidate_of "z") connected = (Returned tt, connected).
Proof.
  split; apply AudioManagerFacts.handleSignal_unknown_peer.
  - left. reflexivity.
  - vm_compute. reflexivity.
  - right. reflexivity.
  - vm_compute. reflexivity.
Defined.

(** The answer of [a] to the pending offer, then the same answer again
    and another one. *)
Lemma answer_commits_once_witness :
  let r := AudioManager.handleSignal host (answer_of "a" 5) connected in
  r.1 = Returned tt
  ∧ r.2.2 = connected.2
  ∧ for_of [answer_of "a" 5; answer_of "a" 6] (AudioManager.handleSignal host) r.2
    = (Returned tt, r.2).
Proof.
  destruct (AudioManagerFacts.answer_commits_once host connected.1 connected.2 "a" 0
              (mkPeerConn "a" ["stun:stun.l.google.com:19302"; "stun:stun1.l.google.com:19302"]%string
                 HaveLocalOffer (Some (mkDescription SdpOffer 0 true)) None [(0, 0)] [])
              (answer_of "a" 5) (mkDescription SdpAnswer 5 true)
              [answer_of "a" 5; answer_of "a" 6]) as (H1 & H2 & _ & H3).
  - vm_compute. reflexivity.
  - vm_compute. reflexivity.
  - reflexivity.
  - reflexivity.
  - reflexivity.
  - reflexivity.
  - reflexivity.
  - reflexivity.
  - repeat (apply List.Forall_cons;
      [split; [reflexivity|split; [reflexivity|]];
       intros p d' Hp Hd; simpl in Hp, Hd; simplify_eq/=; reflexivity|]).
    apply List.Forall_nil.
  - exact (conj H1 (conj H2 H3)).
Defined.




(** *** The queue page *)

Ltac tracks_by_evaluation :=
  let am := fresh "am" in
  let Ham := fresh "Ham" in
  intros am Ham; vm_compute in Ham; injection Ham as <-;
  let Hsh := fresh "Hsh" in
  let Hts := fresh "Hts" in
  let Hin := fresh "Hin" in
  intros ? ? ? Hsh Hts Hin _; vm_compute in Hsh; injection Hsh as <-;
  vm_compute in Hts; injection Hts as <-;
  apply list_elem_of_singleton in Hin as ->; reflexivity.

Ltac all_by_evaluation :=
  repeat (apply List.Forall_cons; [vm_compute; first [exact I | reflexivity | done]|]);
  apply List.Forall_nil.


(** Nine seconds at position 1 post nothing; twelve post the one skip. *)
Lemma auto_skip_exactly_once_witness :
  HomePage.actionsPosted (HomePage.run first_in_line (waiting_for 9))
    = HomePage.actionsPosted first_in_line
  ∧ HomePage.actionsPosted (HomePage.run first_in_line (waiting_for 12))
    = HomePage.actionsPosted first_in_line ++ [("me"%string, Skip)]
  ∧ HomePage.no_turn_timers (HomePage.world (HomePage.run first_in_line (waiting_for 12))).
Proof.
  assert (Harmed : HomePage.armed "me" 10 first_in_line).
  { split; [by_evaluation|]. split; [reflexivity|]. split; [reflexivity|].
    split; [reflexivity|]. split; [lia|]. exists 3.
    split; [reflexivity|]. split; [reflexivity|]. split; [vm_compute; lia|].
    split; [reflexivity|]. split; [reflexivity|].
    change (map_Forall (λ h t, h = 3 ∨ h = 4 ∨ HomePage.is_poll t = true)
              (timers (HomePage.world first_in_line))).
    by_evaluation. }
  assert (Hidle : ∀ n, Forall HomePage.idle (waiting_for n)).
  { intros n. apply List.Forall_cons; [reflexivity|]. apply List.Forall_cons; [exact I|].
    apply List.Forall_cons; [exact I|]. apply List.Forall_cons; [exact I|].
    induction n; [apply List.Forall_nil|apply List.Forall_cons; [exact I|assumption]]. }
  destruct (HomePageFacts.auto_skip_exactly_once "me" 10 first_in_line (waiting_for 9)
              Harmed (Hidle 9)) as [Hbefore _].
  destruct (HomePageFacts.auto_skip_exactly_once "me" 10 first_in_line (waiting_for 12)
              Harmed (Hidle 12)) as [_ Hafter].
  split; [apply Hbefore; vm_compute; lia|apply Hafter; vm_compute; lia].
Defined.

(** A skip at position 1 that the server refuses. *)
Lemma failed_action_keeps_side_effects_witness :
  let after := HomePage.step first_in_line (HomePage.ActionTaken Skip NotOk) in
  HomePage.actionsPosted after = HomePage.actionsPosted first_in_line ++ [("me"%string, Skip)]
  ∧ HomePage.autoSkipTimeout after = None ∧ HomePage.timerInterval after = None
  ∧ HomePage.hasStartedReading after = HomePage.hasStartedReading first_in_line.
Proof.
  destruct (HomePageFacts.failed_action_keeps_side_effects first_in_line "me" Skip NotOk)
    as (_ & Hposted & _ & Hto & Hti & _ & _ & Hstarted).
  - reflexivity.
  - by_evaluation.
  - tracks_by_evaluation.
  - reflexivity.
  - discriminate.
  - exact (conj Hposted (conj Hto (conj Hti Hstarted))).
Defined.

(** A status response that is not ok, in the queue at place 3. *)
Lemma invalidation_on_first_bad_status_witness :
  let s' := HomePage.step (joined 3) (HomePage.StatusFetched NotOk) in
  HomePage.sessionId s' = None ∧ HomePage.hasJoined s' = false
  ∧ HomePage.audioManager s' = None.
Proof.
  destruct (HomePageFacts.invalidation_on_first_bad_status (joined 3) "me" eq_refl)
    as ((Hsid & Hjoined & _) & _ & (Ham & _) & _).
  exact (conj Hsid (conj Hjoined Ham)).
Defined.


(** One status response that is not ok, after none that failed, ends the
    session; three polls in a row that fail in transit do not. *)
Lemma session_ends_on_first_failure :
  HomePage.sessionId (joined 3) = Some "me"%string
  ∧ HomePage.sessionId (HomePage.step (joined 3) (HomePage.StatusFetched NotOk)) = None
  ∧ HomePage.sessionId
      (HomePage.run (joined 3) (replicate 3 (HomePage.StatusFetched NetworkError)))
    = Some "me"%string.
Proof.
  split; [reflexivity|]. split; [reflexivity|]. vm_compute. reflexivity.
Qed.

(** *** The queue page with the position-2 timer *)

(** Three seconds at position 2, a snapshot after each: 27 to go on the
    one timeout.  After 31 seconds it has run and no other was created. *)
Lemma one_get_ready_timer_witness :
  HomePageP2.counting 1 27
    (HomePageP2.run third_in_line (HomePageP2.SnapshotFetched (q 2) :: staying_for 3))
  ∧ HomePageP2.lapsed 1
      (HomePageP2.run third_in_line (HomePageP2.SnapshotFetched (q 2) :: staying_for 31)).
Proof.
  assert (Hready : HomePageP2.ready third_in_line).
  { split; [by_evaluation|]. split; [reflexivity|]. split; [reflexivity|].
    split; [reflexivity|]. split; [reflexivity|].
    intros h t H. vm_compute in H. discriminate. }
  assert (Hq : HomePageP2.atSecond (q 2)) by (split; reflexivity).
  assert (Hstay : ∀ n, Forall HomePageP2.staying (staying_for n)).
  { intros n. induction n; [apply List.Forall_nil|].
    apply List.Forall_cons; [exact I|]. apply List.Forall_cons; [exact Hq|]. exact IHn. }
  destruct (HomePageP2Facts.one_get_ready_timer third_in_line (q 2) (staying_for 3)
              Hready Hq (Hstay 3)) as (_ & Hcount & _).
  destruct (HomePageP2Facts.one_get_ready_timer third_in_line (q 2) (staying_for 31)
              Hready Hq (Hstay 31)) as (_ & _ & Hlapsed).
  split; [apply Hcount; vm_compute; lia|apply Hlapsed; vm_compute; lia].
Defined.

End ScenarioFacts.

(** * More of the client, verified *)

(** ** The audio manager *)

Module AudioManagerMore.
Import Js Browser AudioManager AudioManagerFacts AudioManagerProps.

Lemma enable_audio_twice b b' tr : enable_audio b' (enable_audio b tr) = enable_audio b' tr.
Proof. by destruct tr as [[] ? ?]. Qed.

Lemma enable_audio_same b tr :
  (is_audio tr = true → enabled tr = b) → enable_audio b tr = tr.
Proof.
  destruct tr as [[] e n]; [|done]. intros H. rewrite <- (H eq_refl). done.
Qed.

(** X1: [toggleMute] returns the new flag, which is what [getMuteState]
    reports afterwards; every audio track of the captured stream ends
    enabled exactly when the manager is not muted, whatever it was
    before; the other tracks, the other streams and the rest of the
    state are left alone.  A second call restores the flag, and the
    whole state when the tracks agreed with the flag to begin with. *)
Theorem toggleMute_spec (w : World) (a : t) :
  let r := toggleMute (w, a) in
  r.1 = Returned (negb (isMuted a))
  ∧ getMuteState r.2 = (Returned (negb (isMuted a)), r.2)
  ∧ r.2.2 = set_isMuted (negb (isMuted a)) a
  ∧ r.2.1 = match localStream a with
            | Some sh => set_streams (alter (map (enable_audio (isMuted a))) sh) w
            | None => w
            end
  ∧ (∀ sh ts tr, localStream a = Some sh → streams r.2.1 !! sh = Some ts → tr ∈ ts →
                 is_audio tr = true → enabled tr = negb (isMuted r.2.2))
  ∧ (toggleMute r.2).2.2 = a
  ∧ ((∀ sh ts tr, localStream a = Some sh → streams w !! sh = Some ts → tr ∈ ts →
                  is_audio tr = true → enabled tr = negb (isMuted a)) →
     (toggleMute r.2).2 = (w, a)).
Proof.
  unfold toggleMute, getMuteState, bind, on_this, on_world, modify, get, ret. simpl.
  assert (Hflag : set_isMuted (negb (negb (isMuted a))) (set_isMuted (negb (isMuted a)) a) = a).
  { rewrite negb_involutive. by destruct a. }
  destruct (localStream a) as [sh|] eqn:Hls; simpl; unfold set_audio_enabled.
  - split; [done|]. split; [done|]. split; [done|].
    split; [by rewrite negb_involutive|]. split.
    { intros sh' ts tr [= <-] Hts Hin Haud. simpl in Hts. rewrite lookup_alter_eq in Hts.
      destruct (streams w !! sh) as [ts0|]; simplify_eq/=.
      apply list_elem_of_fmap in Hin as (tr0 & -> & _).
      unfold enable_audio in *. destruct (is_audio tr0) eqn:E; [|congruence].
      simpl. by rewrite !negb_involutive. }
    rewrite Hls. simpl. split; [done|].
    intros Hfollow. rewrite Hflag. f_equal.
    destruct w as [p st ti n au sg]. unfold set_audio_enabled, set_streams. simpl in *.
    f_equal. apply map_eq. intros i. destruct (decide (i = sh)) as [->|Hne].
    + rewrite !lookup_alter_eq. destruct (st !! sh) as [ts|] eqn:Hts; [|done]. simpl.
      f_equal. rewrite <- list_fmap_compose. rewrite <- (list_fmap_id ts) at 2.
      apply list_fmap_ext. intros j tr Hj. simpl. rewrite enable_audio_twice.
      apply enable_audio_same. intros Haud. rewrite negb_involutive.
      apply (Hfollow sh ts tr); [done|done| |done]. by eapply list_elem_of_lookup_2.
    + by rewrite !lookup_alter_ne.
  - rewrite Hls. simpl. rewrite Hflag. done.
Qed.


(** *** Tracks given to a new connection *)

Lemma pc_addTrack_full tr pc :
  signalingState pc ≠ Closed → tr ∉ senders pc →
  ∃ pc', pc_addTrack tr pc = Returned pc' ∧ same_negotiation pc pc'
         ∧ iceServers pc' = iceServers pc ∧ remoteCandidates pc' = remoteCandidates pc
         ∧ senders pc' = senders pc ++ [tr].
Proof.
  intros Hst Hin. unfold pc_addTrack. rewrite bool_decide_eq_false_2 by done.
  destruct (signalingState pc) eqn:E; try done; eexists; (split; [reflexivity|]);
    unfold same_negotiation; simpl; rewrite ?E; done.
Qed.

Lemma addTrack_loop_full (sh h : nat) (a : t) (n : nat) :
  ∀ k w pc,
    pcs w !! h = Some pc → signalingState pc ≠ Closed →
    (∀ i, (sh, i) ∈ senders pc → i < k) →
    ∃ pc', for_of (seq k n) (λ i, update_pc h (pc_addTrack (sh, i))) (w, a)
           = (Returned tt, (set_pcs (<[h := pc']>) w, a))
           ∧ same_negotiation pc pc'
           ∧ iceServers pc' = iceServers pc ∧ remoteCandidates pc' = remoteCandidates pc
           ∧ senders pc' = senders pc ++ ((λ i, (sh, i)) <$> seq k n).
Proof.
  induction n as [|n IH]; intros k w pc Hpc Hst Hsend; simpl.
  - exists pc. rewrite app_nil_r. split; [|done]. unfold ret. by rewrite set_pcs_insert_id.
  - destruct (pc_addTrack_full (sh, k) pc) as (pc1 & Hadd & Hsame1 & Hi1 & Hc1 & Hs1); [done| |].
    { intros Hin. apply Hsend in Hin. lia. }
    destruct (IH (S k) (set_pcs (<[h := pc1]>) w) pc1) as (pc' & Heq & Hsame & Hi & Hc & Hs).
    + apply lookup_insert_eq.
    + destruct Hsame1 as (_ & -> & _). done.
    + rewrite Hs1. intros i [Hin|Hin%list_elem_of_singleton]%elem_of_app.
      * apply Hsend in Hin. lia.
      * injection Hin as ->. lia.
    + exists pc'. erewrite bind_returned by (by eapply update_pc_ok).
      rewrite Heq, set_pcs_insert_insert. split; [done|].
      split; [unfold same_negotiation in *; naive_solver congruence|].
      split; [congruence|]. split; [congruence|].
      rewrite Hs, Hs1, <- app_assoc. done.
Qed.

Lemma addLocalTracks_full (h : nat) (w : World) (a : t) (pc : PeerConn) :
  pcs w !! h = Some pc → signalingState pc ≠ Closed → senders pc = [] →
  ∃ pc', addLocalTracks h (w, a) = (Returned tt, (set_pcs (<[h := pc']>) w, a))
         ∧ same_negotiation pc pc'
         ∧ iceServers pc' = iceServers pc ∧ remoteCandidates pc' = remoteCandidates pc
         ∧ senders pc'
           = match localStream a with
             | Some sh => (λ i, (sh, i)) <$> seq 0 (length (default [] (streams w !! sh)))
             | None => []
             end.
Proof.
  intros Hpc Hst Hs. unfold addLocalTracks, bind, get. simpl.
  destruct (localStream a) as [sh|].
  - destruct (addTrack_loop_full sh h a (length (default [] (streams w !! sh))) 0 w pc)
      as (pc' & Heq & Hsame & Hi & Hc & Hs'); [done|done| |].
    { rewrite Hs. intros i Hi. by apply elem_of_nil in Hi. }
    exists pc'. rewrite Hs in Hs'. done.
  - exists pc. unfold ret. by rewrite set_pcs_insert_id.
Qed.

(** *** Inbound offers *)





(** *** Remote candidates *)

(** X5: a candidate from a known peer is added to its connection once the
    remote description is set; before that it is rejected by the
    connection and dropped — the whole state stays as it was, and nothing
    is kept for later. *)
Theorem candidate_needs_remote_description (host : Host) (w : World) (a : t) (sg : Signal)
    (p : Payload) (c : Candidate) (h : nat) (pc : PeerConn) :
  type sg = IceCandidate → data sg = Some p → candidate p = Some c → c_parses c = true →
  peerConnections a !! from sg = Some h → pcs w !! h = Some pc →
  signalingState pc ≠ Closed →
  let r := handleSignal host sg (w, a) in
  r.1 = Returned tt
  ∧ (remoteDescription pc = None → r.2 = (w, a))
  ∧ (remoteDescription pc ≠ None →
       r.2 = (set_pcs (<[h := mkPeerConn (remotePeer pc) (iceServers pc) (signalingState pc)
                                 (localDescription pc) (remoteDescription pc) (senders pc)
                                 (remoteCandidates pc ++ [c])]>) w, a)).
Proof.
  intros Hty Hd Hc Hparses Hconn Hpc Hopen.
  unfold handleSignal, try_catch. rewrite Hty, Hd, Hc.
  erewrite bind_returned by reflexivity. simpl. rewrite Hconn.
  unfold update_pc. simpl. rewrite Hpc. unfold pc_addIceCandidate. rewrite Hparses. simpl.
  destruct (signalingState pc) eqn:Hst; [| | |done];
    destruct (remoteDescription pc) eqn:Hrd; simpl; done.
Qed.

(** *** Discovery that fails *)

(** X6: [connectToPeers] changes nothing and returns normally when the
    roster request fails, is answered with an error status, or carries no
    peer list; on a host without [RTCPeerConnection] it changes nothing
    either, whatever the roster, and neither does an offer from a new
    peer. *)
Theorem discovery_failures (host : Host) (s : St) :
  connectToPeers host NetworkError s = (Returned tt, s)
  ∧ connectToPeers host NotOk s = (Returned tt, s)
  ∧ connectToPeers host (Ok None) s = (Returned tt, s)
  ∧ (hasRTCPeerConnection host = false →
       (∀ peers, connectToPeers host (Ok (Some peers)) s = (Returned tt, s))
       ∧ (∀ sg, type sg = Offer → peerConnections s.2 !! from sg = None →
                handleSignal host sg s = (Returned tt, s))).
Proof.
  split; [done|]. split; [done|]. split; [done|]. intros Hrtc. split.
  - intros peers. unfold connectToPeers, try_catch. simpl.
    assert (Hloop : for_of peers
              (λ peer, let* s0 := get in
                 when (bool_decide (peer ≠ sessionId s0.2)
                       && bool_decide (peerConnections s0.2 !! peer = None))
                   (createPeerConnection host peer)) s = (Returned tt, s)).
    { induction peers as [|p peers IH]; [done|]. simpl.
      erewrite bind_returned; [exact IH|].
      unfold bind, get. simpl. destruct (_ && _); [|done].
      unfold when, createPeerConnection, try_catch, bind, construct_pc. by rewrite Hrtc. }
    by rewrite Hloop.
  - intros sg Hty Hnew. unfold handleSignal, try_catch. rewrite Hty.
    unfold bind at 1. unfold get. simpl. rewrite Hnew.
    unfold bind, construct_pc. by rewrite Hrtc.
Qed.

(** *** Initialising and cleaning up *)

(** X7: [cleanup] after a successful [initialize] undoes it as far as it
    can: the poll it started is gone and no other timer was touched, the
    captured tracks are all stopped, and the manager is back to what the
    constructor made of it, except for the mute flag, which keeps the
    value [initialize] was given. *)
Theorem initialize_then_cleanup (host : Host) (startMuted : bool) (w : World)
    (sid : SessionId) (sg api : string) (ts : list Track) :
  hasMediaDevices host = true → hasGetUserMedia host = true → capture host = Some ts →
  timers w !! nextTimer w = None →
  let r := initialize host startMuted (w, constructor sid sg api) in
  let r' := cleanup r.2 in
  r.1 = Returned true ∧ r'.1 = Returned tt
  ∧ r'.2.2 = set_isMuted startMuted (constructor sid sg api)
  ∧ timers r'.2.1 = timers w
  ∧ pcs r'.2.1 = pcs w ∧ audioElements r'.2.1 = audioElements w
  ∧ signalsSent r'.2.1 = signalsSent w
  ∧ streams r'.2.1
    = <[fresh (dom (streams w)) := map stop_track (map (enable_audio (negb startMuted)) ts)]>
        (streams w).
Proof.
  intros Hmd Hgum Hcap Hfree. simpl.
  unfold initialize, try_catch. rewrite Hmd, Hgum. simpl.
  unfold bind, getUserMedia, on_this, on_world, modify, startSignalPolling, ret. simpl.
  rewrite Hcap. simpl.
  unfold cleanup, bind, get, on_this, on_world, modify, ret. simpl.
  rewrite map_to_list_empty. simpl.
  split; [done|]. split; [done|]. split; [done|].
  split; [by rewrite delete_insert_id|].
  split; [done|]. split; [done|]. split; [done|].
  unfold set_audio_enabled. simpl.
  rewrite alter_insert_eq, alter_insert_eq. done.
Qed.

(** *** What handling a signal may change *)

Lemma negotiated_refl pc : negotiated pc pc.
Proof. done. Qed.

Lemma negotiated_trans pc1 pc2 pc3 :
  negotiated pc1 pc2 → negotiated pc2 pc3 → negotiated pc1 pc3.
Proof. unfold negotiated. intros (?&?&?&?) (?&?&?&?). repeat split; try congruence; naive_solver. Qed.

Lemma signalled_refl s : signalled s s.
Proof.
  destruct s as [w a]. unfold signalled. simpl. split; [by destruct a|].
  split; [done|]. repeat (split; [done|]). split.
  - intros h pc Hpc. exists pc. done.
  - exists []. by rewrite app_nil_r.
Qed.

Lemma signalled_trans s1 s2 s3 : signalled s1 s2 → signalled s2 s3 → signalled s1 s3.
Proof.
  destruct s1 as [w1 a1], s2 as [w2 a2], s3 as [w3 a3]. unfold signalled. simpl.
  intros (Ha & Hc & Hs & Ht & Hn & Hau & Hp & sent & Hsent & Hall)
         (Ha' & Hc' & Hs' & Ht' & Hn' & Hau' & Hp' & sent' & Hsent' & Hall').
  split; [rewrite Ha', Ha; by destruct a1|].
  split; [auto|]. split; [congruence|]. split; [congruence|]. split; [congruence|].
  split; [congruence|]. split.
  - intros h pc Hpc. destruct (Hp h pc Hpc) as (pc' & Hpc' & Hk).
    destruct (Hp' h pc' Hpc') as (pc'' & Hpc'' & Hk'). exists pc''. split; [done|].
    by eapply negotiated_trans.
  - exists (sent ++ sent'). rewrite Hsent', Hsent, app_assoc. split; [done|].
    apply Forall_app. split; [done|]. rewrite Ha in Hall'. done.
Qed.

Lemma signalling_ret {A} (x : A) : signalling (ret x).
Proof. intros s. apply signalled_refl. Qed.

Lemma signalling_throw {A} e : signalling (throw e : M St A).
Proof. intros s. apply signalled_refl. Qed.

Lemma signalling_bind {A B} (c : M St A) (k : A → M St B) :
  signalling c → (∀ x, signalling (k x)) → signalling (bind c k).
Proof.
  intros Hc Hk s. unfold bind. specialize (Hc s). destruct (c s) as [[x|e] s1]; [|done].
  eapply signalled_trans; [exact Hc|apply Hk].
Qed.

Lemma signalling_try_catch {A} (c : M St A) (h : Exn → M St A) :
  signalling c → (∀ e, signalling (h e)) → signalling (try_catch c h).
Proof.
  intros Hc Hh s. unfold try_catch. specialize (Hc s). destruct (c s) as [[x|e] s1]; [done|].
  eapply signalled_trans; [exact Hc|apply Hh].
Qed.

Lemma signalling_for_of {A} (l : list A) (body : A → M St unit) :
  (∀ x, signalling (body x)) → signalling (for_of l body).
Proof.
  intros Hb. induction l as [|x l IH]; [apply signalling_ret|].
  simpl. apply signalling_bind; auto.
Qed.

Lemma signalling_update_pc h op :
  (∀ pc pc', op pc = Returned pc' → negotiated pc pc') → signalling (update_pc h op).
Proof.
  intros Hop [w a]. unfold update_pc. simpl.
  destruct (pcs w !! h) as [pc|] eqn:Hpc; [|apply signalled_refl].
  destruct (op pc) as [pc'|e] eqn:Hres; [|apply signalled_refl].
  simpl. unfold signalled. simpl. split; [by destruct a|]. split; [done|].
  repeat (split; [done|]). split.
  - intros h0 pc0 Hpc0. destruct (decide (h0 = h)) as [->|Hne].
    + rewrite lookup_insert_eq. exists pc'. split; [done|]. simplify_eq. by apply Hop.
    + rewrite lookup_insert_ne by done. exists pc0. done.
  - exists []. by rewrite app_nil_r.
Qed.

Lemma signalling_ask_pc {A} h (op : PeerConn → Outcome A) : signalling (ask_pc h op).
Proof.
  intros [w a]. unfold ask_pc. simpl. destruct (pcs w !! h); apply signalled_refl.
Qed.

Lemma signalling_read_sdp d : signalling (read_sdp d).
Proof.
  intros s. unfold read_sdp. destruct d as [p|]; [destruct (sdp p)|]; apply signalled_refl.
Qed.

Lemma signalling_answer to d : signalling (sendSignal to Answer d).
Proof.
  intros [w a]. unfold sendSignal, signalled. simpl. split; [by destruct a|].
  split; [done|]. repeat (split; [done|]). split.
  - intros h pc Hpc. exists pc. done.
  - eexists. split; [reflexivity|]. by apply Forall_singleton.
Qed.

Lemma setRemoteDescription_negotiated d pc pc' :
  pc_setRemoteDescription d pc = Returned pc' → negotiated pc pc'.
Proof.
  unfold pc_setRemoteDescription, negotiated.
  destruct (d_parses d), (d_type d), (signalingState pc) eqn:E; simpl; intros [= <-]; simpl;
    rewrite ?E; naive_solver.
Qed.

Lemma setLocalDescription_negotiated d pc pc' :
  pc_setLocalDescription d pc = Returned pc' → negotiated pc pc'.
Proof.
  unfold pc_setLocalDescription, negotiated.
  destruct (d_parses d), (d_type d), (signalingState pc) eqn:E; simpl; intros [= <-]; simpl;
    rewrite ?E; naive_solver.
Qed.

Lemma addIceCandidate_negotiated c pc pc' :
  pc_addIceCandidate c pc = Returned pc' → negotiated pc pc'.
Proof.
  unfold pc_addIceCandidate, negotiated.
  destruct (signalingState pc) eqn:E, (remoteDescription pc), (c_parses c); simpl;
    intros [= <-]; simpl; rewrite ?E; naive_solver.
Qed.

(** The connection that an offer from a new peer gets. *)
Lemma signalling_accept host p (s : St) :
  peerConnections s.2 !! p = None →
  signalled s
    ((let* pc := construct_pc host p ["stun:stun.l.google.com:19302"%string] in
      on_this (λ a, set_peerConnections (<[p := pc]> (peerConnections a)) a) >>
      addLocalTracks pc >> ret pc) s).2.
Proof.
  destruct s as [w a]. simpl. intros Hnew.
  unfold bind at 1. unfold construct_pc. simpl.
  destruct (hasRTCPeerConnection host); [|apply signalled_refl]. simpl.
  set (h := fresh (dom (pcs w))).
  set (pc0 := new_pc p ["stun:stun.l.google.com:19302"%string]).
  set (a1 := set_peerConnections (<[p := h]> (peerConnections a)) a).
  destruct (addLocalTracks_full h (set_pcs (<[h := pc0]>) w) a1 pc0)
    as (pc1 & Heq & _); [apply lookup_insert_eq|done|done|].
  rewrite set_pcs_insert_insert in Heq.
  erewrite bind_returned by reflexivity. simpl. fold a1.
  erewrite bind_returned by exact Heq. simpl.
  unfold signalled. simpl. split; [done|]. split.
  { intros q hq Hq. rewrite lookup_insert_ne; [done|]. intros <-. congruence. }
  repeat (split; [done|]). split.
  - intros h0 pc Hpc. exists pc. split; [|done]. rewrite lookup_insert_ne; [done|].
    intros <-. unfold h in Hpc. by rewrite fresh_pc_None in Hpc.
  - exists []. by rewrite app_nil_r.
Qed.

Lemma signalling_handleSignal host sg : signalling (handleSignal host sg).
Proof.
  unfold handleSignal. apply signalling_try_catch; [|intros; apply signalling_ret].
  destruct (type sg).
  - (* offer *)
    intros s. unfold bind at 1. unfold get. simpl.
    assert (Hrest : ∀ pc, signalling
              (let* d := read_sdp (data sg) in
               update_pc pc (pc_setRemoteDescription d) >>
               let* answer := ask_pc pc (pc_createAnswer pc) in
               update_pc pc (pc_setLocalDescription answer) >>
               sendSignal (from sg) Answer (mkPayload (Some answer) None))).
    { intros pc. apply signalling_bind; [apply signalling_read_sdp|]. intros d.
      apply signalling_bind.
      { apply signalling_update_pc. apply setRemoteDescription_negotiated. }
      intros _. apply signalling_bind; [apply signalling_ask_pc|]. intros answer.
      apply signalling_bind.
      { apply signalling_update_pc. apply setLocalDescription_negotiated. }
      intros _. apply signalling_answer. }
    destruct (peerConnections s.2 !! from sg) as [pc|] eqn:Hconn.
    + erewrite bind_returned by reflexivity. apply Hrest.
    + pose proof (signalling_accept host (from sg) s Hconn) as Hacc.
      unfold bind at 1.
      destruct ((let* pc := construct_pc host (from sg) ["stun:stun.l.google.com:19302"%string] in
                 on_this (λ a, set_peerConnections (<[from sg := pc]> (peerConnections a)) a) >>
                 addLocalTracks pc >> ret pc) s) as [[pc|e] s1]; [|done].
      eapply signalled_trans; [exact Hacc|apply Hrest].
  - (* answer *)
    apply signalling_bind; [intros s; apply signalled_refl|]. intros s0.
    destruct (peerConnections s0.2 !! from sg); [|apply signalling_ret].
    apply signalling_bind; [apply signalling_read_sdp|]. intros d.
    apply signalling_update_pc. apply setRemoteDescription_negotiated.
  - (* candidate *)
    apply signalling_bind; [intros s; apply signalled_refl|]. intros s0.
    destruct (peerConnections s0.2 !! from sg); [|apply signalling_ret].
    destruct (data sg) as [p|]; [|apply signalling_throw].
    destruct (candidate p); [|apply signalling_ret].
    apply signalling_update_pc. apply addIceCandidate_negotiated.
  - apply signalling_ret.
Qed.

Lemma try_catch_returns {S} (c : M S unit) (s : S) :
  (try_catch c (λ _, ret tt) s).1 = Returned tt.
Proof. unfold try_catch. destruct (c s) as [[[]|e] s1]; done. Qed.



(** *** The mailbox *)

Lemma handleSignal_returns host sg s : (handleSignal host sg s).1 = Returned tt.
Proof. apply try_catch_returns. Qed.

Lemma for_of_handleSignal host l s :
  for_of l (handleSignal host) s = (Returned tt, foldl (λ s sg, (handleSignal host sg s).2) s l).
Proof.
  revert s. induction l as [|sg l IH]; intros s; [done|]. simpl.
  pose proof (handleSignal_returns host sg s) as Hr.
  unfold bind. destruct (handleSignal host sg s) as [[[]|e] s1]; [|done]. simpl. apply IH.
Qed.

(** X9: the envelopes of a mailbox are handled one after the other, each
    from the state the one before left, and none of them can stop the
    rest: an envelope that fails is caught inside [handleSignal].  So a
    poll that finds two batches at once does what two polls finding one
    batch each would have done. *)
Theorem mailbox_in_order (host : Host) (l1 l2 : list Signal) (s : St) :
  signalPollTick host (Ok (Some (l1 ++ l2))) s
  = signalPollTick host (Ok (Some l2)) (signalPollTick host (Ok (Some l1)) s).2
  ∧ (signalPollTick host (Ok (Some l1)) s).2
    = foldl (λ s sg, (handleSignal host sg s).2) s l1.
Proof.
  unfold signalPollTick, try_catch. simpl. rewrite !for_of_handleSignal. simpl.
  by rewrite foldl_app.
Qed.

End AudioManagerMore.

(** ** The queue page *)

Module HomePageMoreFacts.
Import Js Browser HomePage HomePageFacts HomePageMore.

(** *** After the deadline *)

Lemma commit_leaving s :
  pollingDeps s = Some (polling_deps s) → atPosition1 s = false →
  hasStartedReading s = false →
  let s' := commit s in
  pollingDeps s' = Some (polling_deps s') ∧ atPosition1 s' = false
  ∧ hasStartedReading s' = false
  ∧ sessionId s' = sessionId s ∧ autoSkipTimeout s' = autoSkipTimeout s
  ∧ actionsPosted s' = actionsPosted s
  ∧ (∀ h t, timers (world s') !! h = Some t → timers (world s) !! h = Some t).
Proof.
  intros Hpd Hp1 Hst. simpl.
  rewrite commit_atPosition1, commit_started, Hst, commit_sessionId.
  split. { destruct (commit_deps s) as [-> _]. unfold polling_deps.
           pose proof (commit_session s) as E. unfold session_view in E. by injection E as -> -> _. }
  split; [done|]. split; [by destruct (_ && _)|]. split; [done|].
  unfold commit. destruct (decide (pollingDeps s = Some (polling_deps s))); [|done].
  case_decide; [done|].
  unfold positionEffect. rewrite Hp1. simpl.
  unfold_audio. unfold atPosition2, atPosition1 in *. simpl.
  destruct s as [w api role nm sid0 joined qs ast wasP2 exp started sg muted ainit am
                   pi ato ti posted pd posd]; simpl in *.
  destruct am as [am|], qs as [q0|], ato as [h1|], ti as [h2|]; simpl;
    try destruct (AudioManager.isMuted am); simpl;
    try destruct (AudioManager.localStream am); simpl;
    try destruct (isPosition2 q0); simpl.
  all: split; [done|]; split; [done|].
  all: intros h t; rewrite ?lookup_delete; repeat case_decide; done.
Qed.

Lemma status_leaving q s :
  quiescent s → sessionId s ≠ None → hasStartedReading s = false →
  isPosition1 q = false →
  let s' := step s (StatusFetched (Ok q)) in
  quiescent s' ∧ sessionId s' = sessionId s ∧ hasStartedReading s' = false
  ∧ autoSkipTimeout s' = autoSkipTimeout s ∧ actionsPosted s' = actionsPosted s
  ∧ (∀ h t, timers (world s') !! h = Some t → timers (world s) !! h = Some t).
Proof.
  intros [Hpd _] Hsid Hst Hq1. simpl. unfold step. simpl. unfold fetchQueueStatus.
  destruct (sessionId s) as [sid|] eqn:Hsess; [|done].
  set (s1 := set_queueStatus (Some q) s).
  split; [apply render_quiescent|].
  pose (I := λ x : Client,
          pollingDeps x = Some (polling_deps x) ∧ atPosition1 x = false
          ∧ hasStartedReading x = false
          ∧ sessionId x = Some sid ∧ autoSkipTimeout x = autoSkipTimeout s
          ∧ actionsPosted x = actionsPosted s
          ∧ (∀ h t, timers (world x) !! h = Some t → timers (world s) !! h = Some t)).
  assert (HI : I (render s1)).
  { apply (render_preserves I).
    - intros x (H1 & H2 & H3 & H4 & H5 & H6 & H7).
      destruct (commit_leaving x H1 H2 H3) as (G1 & G2 & G3 & G4 & G5 & G6 & G7).
      unfold I. split; [done|]. split; [done|]. split; [done|]. split; [congruence|].
      split; [congruence|]. split; [congruence|]. auto.
    - unfold I, s1. split; [exact Hpd|]. split; [exact Hq1|]. done. }
  destruct HI as (H1 & H2 & H3 & H4 & H5 & H6 & H7). done.
Qed.

(** What is left once the timeout has run survives a trip down the
    queue and back. *)
Lemma expired_return q q' s :
  expired s → isPosition1 q = false → isPosition1 q' = true →
  let s' := run s [StatusFetched (Ok q); StatusFetched (Ok q')] in
  expired s' ∧ actionsPosted s' = actionsPosted s.
Proof.
  intros (Hq & Hsid & Hp1 & Hst & Hto & Hnone) Hq1 Hq1'. simpl.
  destruct (status_leaving q s Hq Hsid Hst Hq1) as (G1 & G2 & G3 & G4 & G5 & G6).
  set (s1 := step s (StatusFetched (Ok q))) in *.
  destruct (status_waiting q' s1) as (K1 & K2 & K3 & K4 & K5 & K6 & K7 & K8);
    [done|congruence|done|congruence|done|].
  split; [|congruence].
  split; [done|]. split; [congruence|]. split; [done|]. split; [done|].
  split; [congruence|]. rewrite K5. intros h t Ht. apply (Hnone h). by apply G6.
Qed.

(** X10: the handle of the auto-skip timeout is not reset when the timeout
    runs, nor when the participant leaves position 1 by a snapshot, and
    the timer is only started while the handle is unset: so once a turn
    has been forfeited by the deadline, the next turn at position 1 has
    no deadline.  From the armed state, through the expiry, a snapshot
    off position 1 and a snapshot back on it, and then waiting for any
    time, one skip is posted in all and no timer of the coordinator is
    pending at the end. *)
Theorem no_second_auto_skip (sid : SessionId) (k : nat) (s : Client)
    (es1 es2 : list Event) (q q' : Snapshot) :
  armed sid k s → Forall idle es1 → k ≤ seconds es1 →
  isPosition1 q = false → isPosition1 q' = true → Forall idle es2 →
  let s' := run s (es1 ++ [StatusFetched (Ok q); StatusFetched (Ok q')] ++ es2) in
  atPosition1 s' = true ∧ hasStartedReading s' = false
  ∧ actionsPosted s' = actionsPosted s ++ [(sid, Skip)]
  ∧ no_turn_timers (world s').
Proof.
  intros Harm Hes1 Hk Hq1 Hq1' Hes2. simpl.
  unfold run. rewrite !foldl_app. fold (run s es1).
  destruct (armed_run sid es1 k s Harm Hes1) as [_ Hdue].
  destruct (Hdue Hk) as [Hexp Hposted].
  destruct (expired_return q q' (run s es1) Hexp Hq1 Hq1') as [Hexp' Hposted'].
  unfold run in Hexp', Hposted'. simpl in Hexp', Hposted'.
  set (s2 := step (step (foldl step s es1) (StatusFetched (Ok q))) (StatusFetched (Ok q'))) in *.
  simpl. fold s2.
  destruct (expired_run es2 s2 Hexp' Hes2) as [(_ & _ & Hp1 & Hst & _ & Hnone) Hposted''].
  split; [done|]. split; [done|]. split; [|done].
  transitivity (actionsPosted s2); [exact Hposted''|].
  transitivity (actionsPosted (run s es1)); [exact Hposted'|exact Hposted].
Qed.


(** *** After an action at the front *)

Lemma status_holding q s :
  disarmed s → front q →
  step s (StatusFetched (Ok q)) = set_queueStatus (Some q) s.
Proof.
  intros ([Hpd Hqd] & Hsid & Hp1 & Hp2 & Hnone) [Hq1 Hq2].
  unfold step. simpl. unfold fetchQueueStatus.
  destruct (sessionId s) as [sid|] eqn:Hsess; [|done].
  apply render_id. split; [exact Hpd|].
  change (positionDeps s = Some (position_deps (set_queueStatus (Some q) s))).
  rewrite Hqd. f_equal. unfold position_deps, atPosition1, atPosition2 in *. simpl.
  destruct (queueStatus s) as [q0|]; [|done]. simpl. by rewrite Hp1, Hp2, Hq1, Hq2.
Qed.

Lemma disarmed_holding e s :
  disarmed s → holding e →
  disarmed (step s e) ∧ actionsPosted (step s e) = actionsPosted s.
Proof.
  intros Hd He. pose proof Hd as ([Hpd Hqd] & Hsid & Hp1 & Hp2 & Hnone).
  destruct e as [[q| |]|a resp| |resp|]; try done.
  - rewrite (status_holding q s Hd He). destruct He as [Hq1 Hq2]. split; [|done].
    rewrite <- (status_holding q s Hd (conj Hq1 Hq2)).
    split; [apply render_quiescent|]. rewrite (status_holding q s Hd (conj Hq1 Hq2)).
    unfold atPosition1, atPosition2. simpl. done.
  - assert (step s (StatusFetched NetworkError) = s) as ->; [|done].
    unfold step. simpl. unfold fetchQueueStatus. destruct (sessionId s); by apply render_id.
  - destruct (mute_click s (conj Hpd Hqd)) as (Hsv & Htv & Hst & Hpo & Hq').
    unfold session_view in Hsv. unfold timer_view in Htv.
    injection Hsv as Es _ Eq. injection Htv as Et _ _ _.
    split; [|done]. split; [done|]. split; [congruence|].
    unfold atPosition1, atPosition2 in *. rewrite Eq. split; [done|]. split; [done|].
    unfold no_turn_timers. by rewrite Et.
  - assert (step s (SecondElapsed resp) = s) as ->; [|done].
    unfold step. simpl. assert (second resp s = s) as ->; [|by apply render_id].
    apply foldl_fire_inert. intros h t _. apply Hnone.
  - rewrite card_click by done. done.
Qed.

Lemma disarmed_run es :
  ∀ s, disarmed s → Forall holding es →
       disarmed (run s es) ∧ actionsPosted (run s es) = actionsPosted s.
Proof.
  induction es as [|e es IH]; intros s Hs Hes; [done|].
  apply Forall_cons in Hes as [He Hes]. simpl.
  destruct (disarmed_holding e s Hs He) as [Hs' Hp].
  destruct (IH _ Hs' Hes) as [? ->]. done.
Qed.

Lemma commit_reading s :
  pollingDeps s = Some (polling_deps s) → atPosition1 s = true →
  hasStartedReading s = true →
  let s' := commit s in
  pollingDeps s' = Some (polling_deps s') ∧ hasStartedReading s' = true
  ∧ session_view s' = session_view s ∧ actionsPosted s' = actionsPosted s
  ∧ (∀ h t, timers (world s') !! h = Some t → timers (world s) !! h = Some t).
Proof.
  intros Hpd Hp1 Hst. simpl.
  rewrite commit_started, Hst, Hp1, andb_false_r, commit_session.
  split. { destruct (commit_deps s) as [-> _]. unfold polling_deps.
           pose proof (commit_session s) as E. unfold session_view in E. by injection E as -> -> _. }
  split; [done|]. split; [done|].
  unfold commit. destruct (decide (pollingDeps s = Some (polling_deps s))); [|done].
  case_decide; [done|].
  unfold positionEffect. rewrite Hp1, Hst. simpl.
  unfold_audio. unfold atPosition2, atPosition1 in *. simpl.
  destruct s as [w api role nm sid0 joined qs ast wasP2 exp started sg muted ainit am
                   pi ato ti posted pd posd]; simpl in *.
  destruct qs as [q0|], ato as [h1|], ti as [h2|], wasP2; simpl;
    try destruct (isPosition2 q0); simpl.
  all: split; [done|].
  all: intros h t; rewrite ?lookup_delete; repeat case_decide; done.
Qed.

Lemma prepare_quiescent sid a s :
  quiescent s → quiescent (post_action sid a (handleAction_prepare a s)).
Proof.
  intros Hq. destruct (is_mute_action a) eqn:Ha.
  - destruct (prepare_mutes a s Ha) as (_ & Hsv & Hst & Hw & Hpd & Hqd).
    by apply (quiescent_same s).
  - assert (Hv : turn_view (post_action sid a (handleAction_prepare a s)) = turn_view s)
      by (by apply prepare_turn_view).
    destruct (turn_view_same _ _ Hv) as (Hq' & _). by apply Hq'.
Qed.

Lemma prepare_session a s :
  session_view (handleAction_prepare a s) = session_view s.
Proof.
  destruct (is_mute_action a) eqn:Ha.
  - by destruct (prepare_mutes a s Ha) as (_ & Hsv & _).
  - pose proof (prepare_turn_view a s Ha) as Hv.
    apply (f_equal (λ x, x.1.1.1.1.1)) in Hv. exact Hv.
Qed.

Lemma prepare_posted a s : actionsPosted (handleAction_prepare a s) = actionsPosted s.
Proof. unfold handleAction_prepare. crush_effect. Qed.

Lemma start_answered s :
  let s' := handleAction_answered Start (Ok tt) s in
  session_view s' = session_view s ∧ hasStartedReading s' = true
  ∧ actionsPosted s' = actionsPosted s ∧ pollingDeps s' = pollingDeps s
  ∧ timers (world s') = timers (world s).
Proof.
  unfold handleAction_answered. simpl.
  destruct (audioManager s) as [am|] eqn:Ham; [|done].
  unfold unmute_audio. destruct (AudioManager.isMuted am); [|done].
  destruct (toggle_frame am (set_hasStartedReading true s))
    as (T1 & T2 & T3 & T4 & T5 & T6 & _).
  apply (f_equal (λ x, x.1.1.1)) in T2. simpl in T2.
  split; [exact T1|]. split; [exact T3|]. split; [exact T5|]. split; [exact T6|].
  exact T2.
Qed.

Lemma action_disarmed sid k a resp s :
  armed sid k s → atPosition2 s = false → a ≠ Finish →
  let s' := step s (ActionTaken a resp) in
  disarmed s' ∧ actionsPosted s' = actionsPosted s ++ [(sid, a)].
Proof.
  intros (Hq & Hsid & Hp1 & Hst & Hk & hi & Hti & Hto & Hlt & Hci & Hct & Hothers) Hp2 Ha.
  simpl. unfold step. simpl. unfold handleAction. rewrite Hsid.
  set (sp := post_action sid a (handleAction_prepare a s)).
  assert (Hqp : quiescent sp) by (by apply prepare_quiescent).
  rewrite (render_id sp) by done.
  pose proof (prepare_session a s) as Hsv. unfold session_view in Hsv.
  injection Hsv as Es Ej Eq.
  destruct (prepare_cancels a s) as (Hto' & Hti' & Hc1 & Hc2 & Hn & Hshrink).
  assert (Hnone : no_turn_timers (world sp)).
  { intros h t Ht. apply Hshrink in Ht as Ht'.
    destruct (Hothers h t Ht') as [->|[->|Hpoll]]; [| |done].
    - pose proof (Hc2 hi Hti) as E. change (timers (world sp) !! hi = None) in E. congruence.
    - pose proof (Hc1 (S hi) Hto) as E. change (timers (world sp) !! S hi = None) in E.
      congruence. }
  assert (Hdp : disarmed sp ∧ actionsPosted sp = actionsPosted s ++ [(sid, a)]).
  { split; [|unfold sp; simpl; by rewrite prepare_posted].
    split; [done|]. split; [unfold sp; simpl; congruence|].
    unfold atPosition1, atPosition2 in *.
    change (queueStatus sp) with (queueStatus (handleAction_prepare a s)). rewrite Eq.
    done. }
  assert (Hstart : a = Start ∧ resp = Ok tt ∨ handleAction_answered a resp sp = sp).
  { destruct a; [|right; by destruct resp|done].
    destruct resp as [[]| |]; [by left|by right..]. }
  destruct Hstart as [[-> ->]|Hsame]; [|rewrite Hsame, render_id by done; done].
  (* an accepted start: the position effect runs once more, and finds
     the participant reading *)
  set (s3 := handleAction_answered Start (Ok tt) sp).
  pose proof (start_answered sp) as H3. cbv zeta in H3.
  change (handleAction_answered Start (Ok tt) sp) with s3 in H3.
  destruct H3 as (E1 & E2 & E3 & E4 & E5).
  destruct Hdp as [([Hpd _] & Hsid' & Hp1' & Hp2' & _) Hposted].
  unfold session_view in E1. injection E1 as F1 F2 F3.
  pose (J := λ x : Client,
          pollingDeps x = Some (polling_deps x) ∧ hasStartedReading x = true
          ∧ session_view x = session_view s3 ∧ actionsPosted x = actionsPosted s3
          ∧ (∀ h t, timers (world x) !! h = Some t → timers (world s3) !! h = Some t)).
  assert (HJ : J (render s3)).
  { apply (render_preserves J).
    - intros x (H1 & H2 & H3 & H4 & H5).
      assert (Hx1 : atPosition1 x = true).
      { unfold session_view in H3. injection H3 as _ _ G. unfold atPosition1 in *.
        rewrite G, F3. exact Hp1'. }
      destruct (commit_reading x H1 Hx1 H2) as (G1 & G2 & G3 & G4 & G5).
      unfold J. split; [done|]. split; [done|]. split; [congruence|]. split; [congruence|].
      auto.
    - unfold J. split; [|done]. rewrite E4, Hpd. unfold polling_deps. by rewrite F1, F2. }
  destruct HJ as (J1 & J2 & J3 & J4 & J5).
  unfold session_view in J3. injection J3 as G1 G2 G3.
  split; [|congruence].
  split; [apply render_quiescent|]. split; [congruence|].
  unfold atPosition1, atPosition2 in *. rewrite G3, F3. split; [done|]. split; [done|].
  intros h t Ht. apply J5 in Ht. rewrite E5 in Ht. by apply (Hnone h).
Qed.

(** X11: a click on start or skip at position 1 cancels the deadline for
    good, whatever the server answers: the handles are reset and the
    position effect has no reason to run again while the snapshots go on
    reporting the front of the queue.  However long the participant then
    stays there — polls, seconds, the mute button, the position card —
    the click is the only action posted and no timer of the coordinator
    is pending. *)
Theorem action_disarms (sid : SessionId) (k : nat) (s : Client) (a : QueueAction)
    (resp : Fetch unit) (es : list Event) :
  armed sid k s → atPosition2 s = false → a ≠ Finish → Forall holding es →
  let s' := run s (ActionTaken a resp :: es) in
  actionsPosted s' = actionsPosted s ++ [(sid, a)]
  ∧ atPosition1 s' = true
  ∧ no_turn_timers (world s').
Proof.
  intros Harm Hp2 Ha Hes. simpl.
  destruct (action_disarmed sid k a resp s Harm Hp2 Ha) as [Hd Hposted].
  destruct (disarmed_run es _ Hd Hes) as [(_ & _ & Hp1 & _ & Hnone) Hposted'].
  split; [|done]. transitivity (actionsPosted (step s (ActionTaken a resp))); done.
Qed.

(** *** The mute indicator *)

Lemma mirrored_same s s' : audio_view s' = audio_view s → mirrored s → mirrored s'.
Proof.
  unfold audio_view, mirrored. intros [= Ha _ Hm] H am. rewrite Ha, Hm. apply H.
Qed.

Lemma mirrored_muted s s' : audio_view s' = muted_view s → mirrored s → mirrored s'.
Proof.
  unfold muted_view. destruct (audioManager s) as [am|] eqn:Ham; [|apply mirrored_same].
  intros Hv _. apply (mirrored_same (set_isMuted true (mute_audio am s))); [done|].
  unfold mirrored, mute_audio. destruct (AudioManager.isMuted am) eqn:Hm; simpl.
  - rewrite Ham. intros ? [= <-]. done.
  - unfold_audio. simpl. destruct (AudioManager.localStream am); simpl;
      intros ? [= <-]; simpl; by rewrite Hm.
Qed.

Lemma mirrored_turn_view s s' : turn_view s' = turn_view s → mirrored s → mirrored s'.
Proof.
  intros Hv. apply mirrored_same. apply (f_equal (λ x, x.1.1.1.1.2)) in Hv. exact Hv.
Qed.

Lemma commit_mirrored s : mirrored s → mirrored (commit s).
Proof.
  intros H. pose proof (commit_audio s) as Hv.
  destruct (position_changed s && negb (atPosition1 s)); [|by apply (mirrored_same s)].
  destruct (queueStatus s); [by apply (mirrored_muted s)|by apply (mirrored_same s)].
Qed.

Lemma render_mirrored s : mirrored s → mirrored (render s).
Proof. apply (render_preserves mirrored). apply commit_mirrored. Qed.

Lemma handleSessionEnd_mirrored s : mirrored (handleSessionEnd s).
Proof.
  destruct (handleSessionEnd_fields s) as (Ha & _). unfold mirrored. by rewrite Ha.
Qed.

Lemma toggleMute_mirrored s : mirrored (toggleMute s).
Proof.
  unfold toggleMute, mirrored. destruct (audioManager s) as [am|] eqn:Ham; [|by rewrite Ham].
  unfold_audio. simpl. destruct (AudioManager.localStream am); simpl; intros ? [= <-]; done.
Qed.

Lemma handleAction_mirrored a resp s : mirrored s → mirrored (handleAction a resp s).
Proof.
  intros H. unfold handleAction. destruct (sessionId s) as [sid|]; [|done].
  set (sp := post_action sid a (handleAction_prepare a s)).
  assert (Hsp : mirrored sp).
  { destruct (is_mute_action a) eqn:Ha.
    - destruct (prepare_mutes a s Ha) as (Hau & _). by apply (mirrored_muted s).
    - apply (mirrored_turn_view s); [|done]. by apply prepare_turn_view. }
  apply render_mirrored in Hsp. revert Hsp. generalize (render sp). intros x Hx.
  unfold handleAction_answered. destruct resp as [[]| |]; [|done..].
  destruct a; [|done..].
  destruct (audioManager (set_hasStartedReading true x)) as [am|] eqn:Ham; [|done].
  unfold mirrored, unmute_audio. destruct (AudioManager.isMuted am) eqn:Hm; simpl.
  - unfold_audio. simpl. destruct (AudioManager.localStream am); simpl;
      intros ? [= <-]; simpl; by rewrite Hm.
  - simpl in Ham. rewrite Ham. intros ? [= <-]. done.
Qed.

Lemma commit_muted s : mirrored s ∧ isMuted s = true → mirrored (commit s) ∧ isMuted (commit s) = true.
Proof.
  intros [H Hm]. split; [by apply commit_mirrored|].
  pose proof (commit_audio s) as Hv.
  assert (Hsame : audio_view (commit s) = audio_view s → isMuted (commit s) = true).
  { intros E. apply (f_equal snd) in E. simpl in E. congruence. }
  destruct (position_changed s && negb (atPosition1 s)); [|auto].
  destruct (queueStatus s); [|auto].
  unfold muted_view in Hv. destruct (audioManager s); [|auto].
  apply (f_equal snd) in Hv. exact Hv.
Qed.

Lemma initializeAudio_mirrored host sid sg startMuted s :
  isMuted s = true → mirrored (initializeAudio host sid sg startMuted s).
Proof.
  intros Hm. unfold initializeAudio, call_audio, AudioManager.initialize, try_catch.
  destruct (negb (hasMediaDevices host) || negb (hasGetUserMedia host)); simpl.
  { unfold mirrored. simpl. intros ? [= <-]. done. }
  unfold bind at 1. unfold AudioManager.getUserMedia. simpl.
  destruct (capture host) as [ts|]; simpl.
  - unfold mirrored. simpl. intros ? [= <-]. done.
  - unfold mirrored. simpl. intros ? [= <-]. done.
Qed.

Lemma joinQueue_mirrored host joined status s :
  mirrored s → isMuted s = true → mirrored (joinQueue host joined status s).
Proof.
  intros H Hm. unfold joinQueue. destruct (is_blank (name s)); [done|].
  destruct (selectedSubGroup s) as [sg|]; [|done]. destruct joined as [sid| |]; [|done..].
  pose (K := λ x : Client, mirrored x ∧ isMuted x = true).
  assert (HK : ∀ x, K x → K (render x)).
  { apply (render_preserves K). apply commit_muted. }
  assert (H1 : K (render (set_hasJoined true (set_sessionId (Some sid) s)))).
  { apply HK. split; [|done]. by apply (mirrored_same s). }
  revert H1. generalize (render (set_hasJoined true (set_sessionId (Some sid) s))).
  intros x Hx.
  assert (H2 : K (render (fetchQueueStatus (Some sid) status x))).
  { apply HK. unfold fetchQueueStatus. destruct status; [|split|done].
    - destruct Hx. split; [by apply (mirrored_same x)|done].
    - apply handleSessionEnd_mirrored.
    - by destruct (handleSessionEnd_fields x) as (_ & _ & _ & _ & _ & ? & _). }
  revert H2. generalize (render (fetchQueueStatus (Some sid) status x)). intros y [Hy Hmy].
  destruct status; [|done..].
  apply render_mirrored. by apply initializeAudio_mirrored.
Qed.

(** X12: the page's mute indicator never disagrees with the audio manager:
    the agreement is kept by every event — status answers of any kind,
    action clicks however they are answered, the mute button, the
    position card, the timers — and a join from a page that shows
    muted establishes it, whether the capture succeeds or not. *)
Theorem mute_indicator_agrees (host : Host) (joined : Fetch SessionId)
    (status : Fetch Snapshot) (s : Client) (es : list Event) :
  mirrored s →
  mirrored (run s es)
  ∧ (isMuted s = true → mirrored (run (joinQueue host joined status s) es)).
Proof.
  assert (Hrun : ∀ es s, mirrored s → mirrored (run s es)).
  { clear. intros es. induction es as [|e es IH]; intros s H; [done|].
    simpl. apply IH. unfold step. apply render_mirrored.
    destruct e as [resp|a resp| |resp|]; simpl.
    - unfold fetchQueueStatus. destruct (sessionId s); [|done].
      destruct resp; [by apply (mirrored_same s)|apply handleSessionEnd_mirrored|done].
    - by apply handleAction_mirrored.
    - apply toggleMute_mirrored.
    - apply (mirrored_turn_view s); [apply second_turn_view|done].
    - apply (mirrored_turn_view s); [apply toggleExpanded_turn_view|done]. }
  intros H. split; [by apply Hrun|]. intros Hm. apply Hrun. by apply joinQueue_mirrored.
Qed.

(** *** The status poll *)

Lemma no_new_poll_refl s : no_new_poll s s.
Proof. done. Qed.

Lemma no_new_poll_trans s1 s2 s3 : no_new_poll s1 s2 → no_new_poll s2 s3 → no_new_poll s1 s3.
Proof. unfold no_new_poll. intros [? ?] [? ?]. split; [congruence|auto]. Qed.

Lemma no_new_poll_polled s s' : no_new_poll s s' → polled s → polled s'.
Proof. unfold no_new_poll, polled. intros [-> H] Hp h Hh. auto. Qed.

Lemma no_new_poll_view s s' :
  timer_view s' = timer_view s → pollingInterval s' = pollingInterval s → no_new_poll s s'.
Proof.
  intros Hv Hp. apply (f_equal (λ x, x.1.1.1)) in Hv. simpl in Hv.
  split; [done|]. by rewrite Hv.
Qed.

Ltac poll_lookup :=
  intros;
  repeat (progress (rewrite ?lookup_insert, ?lookup_delete in * ); repeat case_decide);
  simplify_eq; done.

Lemma positionEffect_no_new_poll r s : no_new_poll s (positionEffect r s).
Proof.
  split; [by destruct (positionEffect_frame r s) as (_ & _ & _ & ? & _)|].
  unfold positionEffect, startAutoSkipTimer. unfold_audio. simpl.
  destruct s as [w api role nm sid0 joined qs ast wasP2 exp started sg muted ainit am
                   pi ato ti posted pd posd]; simpl.
  destruct (atPosition1 r), (hasStartedReading r), (wasPosition2 r), (atPosition2 r),
    (queueStatus r), am as [am|], ato as [h1|], ti as [h2|]; simpl;
    try destruct (AudioManager.isMuted am); simpl;
    try destruct (AudioManager.localStream am); simpl.
  all: poll_lookup.
Qed.


Lemma fire_no_new_poll resp s h : no_new_poll s (fire resp s h).
Proof.
  unfold fire. destruct (timers (world s) !! h) as [[| |n|[|[|k]] st sid| |]|] eqn:Ht;
    try apply no_new_poll_refl.
  - unfold countdownTick. simpl. unfold clear_ref.
    destruct (n - 1 <=? 0)%Z, (timerInterval s); split; simpl; try done; poll_lookup.
  - unfold autoSkipExpired, post_action. destruct st, sid, resp; split; simpl; try done;
      poll_lookup.
  - unfold autoSkipExpired, post_action. destruct st, sid, resp; split; simpl; try done;
      poll_lookup.
  - split; simpl; try done; poll_lookup.
Qed.

Lemma second_no_new_poll resp s : no_new_poll s (second resp s).
Proof.
  unfold second. generalize (seq 0 (nextTimer (world s))). intros l. revert s.
  induction l as [|h l IH]; intros s; [done|]. simpl.
  eapply no_new_poll_trans; [apply fire_no_new_poll|apply IH].
Qed.

Lemma prepare_no_new_poll a s : no_new_poll s (handleAction_prepare a s).
Proof.
  unfold handleAction_prepare. unfold_audio. simpl.
  destruct s as [w api role nm sid0 joined qs ast wasP2 exp started sg muted ainit am
                   pi ato ti posted pd posd]; simpl.
  destruct am as [am|], ato as [h1|], ti as [h2|], (is_mute_action a); simpl;
    try destruct (AudioManager.isMuted am); simpl;
    try destruct (AudioManager.localStream am); simpl.
  all: split; simpl; try done; poll_lookup.
Qed.

Lemma answered_no_new_poll a resp s : no_new_poll s (handleAction_answered a resp s).
Proof.
  unfold handleAction_answered. destruct resp as [[]| |]; [|done..]. destruct a; [|done..].
  simpl. destruct (audioManager s) as [am|]; [|done].
  unfold unmute_audio. destruct (AudioManager.isMuted am); [|done].
  destruct (toggle_frame am (set_hasStartedReading true s))
    as (_ & T2 & _ & _ & _ & _ & _ & T8 & _).
  by apply no_new_poll_view.
Qed.

Lemma toggleMute_no_new_poll s : no_new_poll s (toggleMute s).
Proof.
  unfold toggleMute. destruct (audioManager s) as [am|]; [|done].
  destruct (toggle_frame am s) as (_ & T2 & _ & _ & _ & _ & _ & T8 & _).
  destruct (call_audio AudioManager.toggleMute am s) as [[b|e] s']; simpl in *;
    by apply no_new_poll_view.
Qed.

Lemma handleSessionEnd_no_new_poll s :
  no_new_poll s (handleSessionEnd s)
  ∧ ∀ h, pollingInterval s = Some h → timers (world (handleSessionEnd s)) !! h = None.
Proof.
  split.
  - split; [unfold handleSessionEnd; simpl; destruct (audioManager s); reflexivity|].
    unfold handleSessionEnd. simpl.
    destruct (audioManager s) as [am|] eqn:Ham; simpl.
    + unfold call_audio. simpl.
      set (w1 := clear_ref (timerInterval s) (clear_ref (autoSkipTimeout s)
                   (clear_ref (pollingInterval s) (world s)))).
      destruct (AudioManagerFacts.cleanup_effect w1 am)
        as (_ & _ & _ & _ & _ & _ & _ & _ & _ & _ & _ & Ht & _).
      simpl in Ht. rewrite Ht. unfold w1, clear_ref, clearTimer.
      destruct (AudioManager.pollingInterval am), (timerInterval s), (autoSkipTimeout s),
        (pollingInterval s); simpl; poll_lookup.
    + unfold clear_ref, clearTimer.
      destruct (timerInterval s), (autoSkipTimeout s), (pollingInterval s); simpl;
        poll_lookup.
  - intros h Hh. by destruct (handleSessionEnd_world s) as [Hw _]; apply Hw; left.
Qed.

Lemma startPolling_polled s : polled s → polled (startPolling s).
Proof.
  unfold polled, startPolling, clear_ref, clearTimer, setTimer. simpl.
  intros Hp h. destruct (pollingInterval s) as [h0|] eqn:Href; simpl.
  - rewrite lookup_insert. case_decide; [congruence|].
    rewrite lookup_delete. case_decide; [done|]. intros Hh. apply Hp in Hh. congruence.
  - rewrite lookup_insert. case_decide; [congruence|]. intros Hh. by apply Hp in Hh.
Qed.

Lemma commit_polled s : polled s → polled (commit s).
Proof.
  intros Hp. unfold commit.
  set (x := if decide (pollingDeps s = Some (polling_deps s)) then s
            else pollingEffect s (set_pollingDeps (Some (polling_deps s)) s)).
  assert (H1 : polled x).
  { unfold x. case_decide; [done|]. unfold pollingEffect. destruct (_ && _); [|done].
    by apply startPolling_polled. }
  simpl. fold x. destruct (decide (positionDeps s = Some (position_deps s))); [done|].
  eapply no_new_poll_polled; [apply positionEffect_no_new_poll|]. exact H1.
Qed.

Lemma render_polled s : polled s → polled (render s).
Proof. apply (render_preserves polled). apply commit_polled. Qed.

Lemma handle_polled e s : polled s → polled (handle e s).
Proof.
  intros Hp. destruct e as [resp|a resp| |resp|]; simpl.
  - unfold fetchQueueStatus. destruct (sessionId s); [|done].
    destruct resp; [done| |done].
    eapply no_new_poll_polled; [apply handleSessionEnd_no_new_poll|done].
  - unfold handleAction. destruct (sessionId s) as [sid|]; [|done].
    eapply no_new_poll_polled; [apply answered_no_new_poll|]. apply render_polled.
    eapply no_new_poll_polled; [|exact Hp].
    eapply no_new_poll_trans; [apply prepare_no_new_poll|done].
  - eapply no_new_poll_polled; [apply toggleMute_no_new_poll|done].
  - eapply no_new_poll_polled; [apply second_no_new_poll|done].
  - unfold toggleExpanded. by destruct (atPosition1 s).
Qed.

Lemma run_polled es : ∀ s, polled s → polled (run s es).
Proof.
  induction es as [|e es IH]; intros s Hp; [done|].
  simpl. apply IH. unfold step. by apply render_polled, handle_polled.
Qed.

Lemma commit_unpolled s :
  sessionId s = None ∧ (∀ h, timers (world s) !! h ≠ Some StatusPoll) →
  sessionId (commit s) = None ∧ (∀ h, timers (world (commit s)) !! h ≠ Some StatusPoll).
Proof.
  intros [Hsid Hnone]. split; [by rewrite commit_sessionId|].
  intros h Hh. unfold commit in Hh.
  set (x := if decide (pollingDeps s = Some (polling_deps s)) then s
            else pollingEffect s (set_pollingDeps (Some (polling_deps s)) s)) in *.
  assert (Hx : timers (world x) !! h ≠ Some StatusPoll).
  { unfold x. destruct (decide (pollingDeps s = Some (polling_deps s))); [apply Hnone|].
    unfold pollingEffect. rewrite Hsid. apply Hnone. }
  simpl in Hh. fold x in Hh.
  destruct (decide (positionDeps s = Some (position_deps s))); [done|].
  apply positionEffect_no_new_poll in Hh. done.
Qed.

(** X13: status polling never leaks an interval: if every pending status
    poll is the one whose handle the page holds, this stays so whatever
    happens — [startPolling] clears the old interval before it creates
    the new one, and nothing else creates one.  So at most one status
    poll is pending at any time, and none once the session has been
    ended by a status answer that is not ok. *)
Theorem status_poll_never_leaks (s : Client) (es : list Event) :
  polled s →
  let s' := run s es in
  polled s'
  ∧ (∀ h1 h2, timers (world s') !! h1 = Some StatusPoll →
              timers (world s') !! h2 = Some StatusPoll → h1 = h2)
  ∧ (sessionId s' ≠ None →
     ∀ h, timers (world (step s' (StatusFetched NotOk))) !! h ≠ Some StatusPoll).
Proof.
  intros Hp. simpl. pose proof (run_polled es s Hp) as Hp'.
  split; [done|]. split.
  - intros h1 h2 H1 H2. apply Hp' in H1, H2. congruence.
  - intros Hsid. unfold step. simpl. unfold fetchQueueStatus.
    destruct (sessionId (run s es)) as [sid|]; [|done].
    apply (render_preserves
             (λ x, sessionId x = None ∧ ∀ h, timers (world x) !! h ≠ Some StatusPoll)).
    + apply commit_unpolled.
    + split; [by destruct (handleSessionEnd_fields (run s es)) as (_ & ? & _)|].
      intros h Hh. destruct (handleSessionEnd_no_new_poll (run s es)) as [[_ Hshrink] Hgone].
      apply Hshrink in Hh as Hh'. apply Hp' in Hh'. apply Hgone in Hh'. congruence.
Qed.

Lemma commit_outside s :
  outside s →
  outside (commit s)
  ∧ pcs (world (commit s)) = pcs (world s) ∧ streams (world (commit s)) = streams (world s)
  ∧ (∀ h, timers (world s) !! h = None → timers (world (commit s)) !! h = None).
Proof.
  intros (Hsid & Hj & Hq & Hr & Hn & Hg & Ham & Hai & Hm).
  unfold outside, commit, pollingEffect, positionEffect, atPosition1, atPosition2.
  rewrite Hsid, Hj, Hq. simpl.
  repeat case_decide; simpl; rewrite ?Ham; simpl;
    rewrite ?Hsid, ?Hj, ?Hq, ?Hr, ?Hm, ?Hai, ?Ham, ?Hn, ?Hg; simpl.
  all: repeat split; try done.
  all: try (destruct (autoSkipTimeout s), (timerInterval s); simpl; done).
  all: intros h Hh;
    destruct (autoSkipTimeout s), (timerInterval s); simpl;
    rewrite ?lookup_delete; repeat case_decide; done.
Qed.


Lemma leaveQueue_timers resp s h :
  sessionId s ≠ None →
  pollingInterval s = Some h ∨ autoSkipTimeout s = Some h ∨ timerInterval s = Some h →
  timers (world (leaveQueue resp s)) !! h = None.
Proof.
  intros Hsid Hh. unfold leaveQueue. destruct (sessionId s); [|done].
  set (w1 := clear_ref (timerInterval s) (clear_ref (autoSkipTimeout s)
               (clear_ref (pollingInterval s) (world s)))).
  assert (H1 : timers w1 !! h = None).
  { unfold w1, clear_ref, clearTimer.
    destruct (pollingInterval s), (autoSkipTimeout s), (timerInterval s); simpl;
      rewrite ?lookup_delete; repeat case_decide; try done; naive_solver. }
  destruct resp; simpl; [| |exact H1].
  all: destruct (audioManager s) as [am|]; simpl; [|exact H1].
  all: unfold call_audio; simpl; fold w1.
  all: destruct (AudioManagerFacts.cleanup_effect w1 am)
         as (_ & _ & _ & _ & _ & _ & _ & _ & _ & _ & _ & Ht & _); simpl in Ht; rewrite Ht.
  all: destruct (AudioManager.pollingInterval am); [|done].
  all: rewrite lookup_delete; by case_decide.
Qed.

(** X14: leaving the queue.  Without a session the handler does nothing.
    With one, it first stops the page's three timers.  When the request
    is answered (whatever the status) the page ends outside every queue:
    session, role, name and sub-group forgotten, the audio manager
    cleaned up and dropped, the indicator muted, reading over.  When the
    request is rejected the handler stops there: the session is kept and
    the page still shows the queue, but the status poll is gone and
    nothing on the page restarts it. *)
Theorem leaveQueue_spec (s : Client) (sid : SessionId) (resp : Fetch unit) :
  (sessionId s = None → leaveQueue resp s = s)
  ∧ (sessionId s = Some sid → quiescent s →
     let s' := leave resp s in
     (∀ h, pollingInterval s = Some h ∨ autoSkipTimeout s = Some h ∨ timerInterval s = Some h →
           timers (world s') !! h = None)
     ∧ (resp ≠ NetworkError →
          outside s' ∧ hasStartedReading s' = false
          ∧ ∀ am, audioManager s = Some am →
              (∀ h, AudioManager.pollingInterval am = Some h → timers (world s') !! h = None)
              ∧ (∀ p h pc, AudioManager.peerConnections am !! p = Some h →
                           pcs (world s) !! h = Some pc →
                           pcs (world s') !! h = Some (pc_close pc))
              ∧ (∀ sh ts, AudioManager.localStream am = Some sh →
                          streams (world s) !! sh = Some ts →
                          streams (world s') !! sh = Some (map stop_track ts)))
     ∧ (resp = NetworkError →
          s' = set_world (clear_ref (timerInterval s) (clear_ref (autoSkipTimeout s)
                            (clear_ref (pollingInterval s) (world s)))) s
          ∧ (polled s → ∀ h, timers (world s') !! h ≠ Some StatusPoll))).
Proof.
  split. { intros Hsid. unfold leaveQueue. by rewrite Hsid. }
  intros Hsid Hquiet. simpl. unfold leave.
  assert (resp = NetworkError ∨ resp ≠ NetworkError) as [->|Hresp]
    by (destruct resp; auto).
  - (* rejected *)
    assert (Hl : leaveQueue NetworkError s
                 = set_world (clear_ref (timerInterval s) (clear_ref (autoSkipTimeout s)
                                (clear_ref (pollingInterval s) (world s)))) s).
    { unfold leaveQueue. rewrite Hsid. done. }
    assert (Hr : render (leaveQueue NetworkError s) = leaveQueue NetworkError s).
    { apply render_id. rewrite Hl. exact Hquiet. }
    rewrite Hr. split; [|split; [done|]].
    + intros h Hh. apply leaveQueue_timers; [congruence|done].
    + intros _. split; [exact Hl|]. intros Hp h Hh. rewrite Hl in Hh. simpl in Hh.
      assert (Hin : timers (world s) !! h = Some StatusPoll).
      { revert Hh. unfold clear_ref, clearTimer.
        destruct (pollingInterval s), (autoSkipTimeout s), (timerInterval s); simpl;
          rewrite ?lookup_delete; repeat case_decide; done. }
      apply Hp in Hin. revert Hh. rewrite Hin. unfold clear_ref, clearTimer.
      destruct (autoSkipTimeout s), (timerInterval s); simpl;
        rewrite ?lookup_delete; repeat case_decide; done.
  - (* answered *)
    set (s0 := leaveQueue resp s).
    assert (H0 : outside s0).
    { unfold s0, leaveQueue. rewrite Hsid.
      destruct resp; [|..|done]; simpl; destruct (audioManager s) eqn:E; simpl;
        rewrite ?E; done. }
    assert (Hworld : ∀ am, audioManager s = Some am →
              (∀ h, AudioManager.pollingInterval am = Some h → timers (world s0) !! h = None)
              ∧ (∀ p h pc, AudioManager.peerConnections am !! p = Some h →
                           pcs (world s) !! h = Some pc →
                           pcs (world s0) !! h = Some (pc_close pc))
              ∧ (∀ sh ts, AudioManager.localStream am = Some sh →
                          streams (world s) !! sh = Some ts →
                          streams (world s0) !! sh = Some (map stop_track ts))).
    { intros am Ham.
      assert (Hsame : world s0 = world (handleSessionEnd s)).
      { unfold s0, leaveQueue, handleSessionEnd. rewrite Hsid.
        destruct resp; [|..|done]; simpl; rewrite Ham; reflexivity. }
      rewrite Hsame. destruct (handleSessionEnd_world s) as [_ Hw]. by apply Hw. }
    pose (J := λ x : Client,
            outside x ∧ pcs (world x) = pcs (world s0) ∧ streams (world x) = streams (world s0)
            ∧ ∀ h, timers (world s0) !! h = None → timers (world x) !! h = None).
    assert (HJ : J (render s0)).
    { apply (render_preserves J); [|done].
      intros x (Hx & Hp & Hs & Ht). destruct (commit_outside x Hx) as (G1 & G2 & G3 & G4).
      unfold J. split; [done|]. split; [congruence|]. split; [congruence|]. auto. }
    destruct HJ as (Hout & Hp & Hs & Ht).
    split; [|split; [|done]].
    + intros h Hh. apply Ht. apply leaveQueue_timers; [congruence|done].
    + intros _. split; [done|]. split.
      * (* the position effect has run at least once, off position 1 *)
        assert (Hch : position_changed s0 = true).
        { apply bool_decide_eq_true. intros E. destruct Hquiet as [_ E'].
          assert (Hd : positionDeps s0 = positionDeps s).
          { unfold s0, leaveQueue. rewrite Hsid.
            destruct resp; [|..|done]; simpl; destruct (audioManager s) eqn:E'';
              simpl; rewrite ?E''; done. }
          rewrite Hd, E' in E. injection E as _ _ _ _ E.
          destruct H0 as (E0 & _). rewrite Hsid, E0 in E. done. }
        assert (H1 : hasStartedReading (commit s0) = false).
        { rewrite commit_started, Hch.
          unfold atPosition1. destruct H0 as (_ & _ & -> & _). done. }
        assert (H2 : hasStartedReading (commit (commit s0)) = false).
        { rewrite commit_started, H1. by destruct (_ && _). }
        rewrite render_unfold. case_decide as Hq0.
        { destruct Hq0 as [_ E]. apply position_changed_false in E. congruence. }
        by case_decide.
      * intros am Ham. destruct (Hworld am Ham) as (W1 & W2 & W3).
        split; [intros h Hh; by apply Ht, W1|]. rewrite Hp, Hs. done.
Qed.

Lemma positionEffect_polling r s : polling s → polling (positionEffect r s).
Proof.
  intros (h & Hp & Ht & Hlt & Hn1 & Hn2 & Hrefs).
  unfold polling, positionEffect, startAutoSkipTimer. unfold_audio.
  destruct s as [w api role nm sid0 joined qs ast wasP2 exp started sg muted ainit am
                   pi ato ti posted pd posd]; simpl in *. subst pi.
  assert (Hato : ∀ h', ato = Some h' → h' < nextTimer w) by (intros; apply Hrefs; auto).
  assert (Hti : ∀ h', ti = Some h' → h' < nextTimer w) by (intros; apply Hrefs; auto).
  clear Hrefs.
  destruct (atPosition1 r), (hasStartedReading r), (wasPosition2 r), (atPosition2 r),
    (queueStatus r), am as [am|], ato as [h1|], ti as [h2|]; simpl;
    try destruct (AudioManager.isMuted am); simpl;
    try destruct (AudioManager.localStream am); simpl.
  all: exists h; split; [done|].
  all: try specialize (Hato _ eq_refl); try specialize (Hti _ eq_refl).
  all: split;
    [rewrite ?lookup_insert_ne, ?lookup_delete_ne by (try lia; congruence); done|].
  all: split; [lia|].
  all: split; [try done; intros [=]; lia|].
  all: split; [try done; intros [=]; lia|].
  all: intros h' [[= <-]|[= <-]]; lia.
Qed.


Lemma startPolling_polling s :
  (∀ h', autoSkipTimeout s = Some h' ∨ timerInterval s = Some h' → h' < nextTimer (world s)) →
  polling (startPolling s).
Proof.
  intros Hrefs. unfold polling, startPolling, clear_ref, clearTimer, setTimer.
  destruct (pollingInterval s) as [h0|]; simpl.
  all: exists (nextTimer (world s)); split; [done|]; split; [by rewrite lookup_insert_eq|].
  all: split; [lia|].
  all: split; [intros E; specialize (Hrefs _ (or_introl E)); lia|].
  all: split; [intros E; specialize (Hrefs _ (or_intror E)); lia|].
  all: intros h' Hh'; specialize (Hrefs _ Hh'); lia.
Qed.

Lemma commit_polling s : polling s → polling (commit s).
Proof.
  intros Hp. unfold commit.
  set (x := if decide (pollingDeps s = Some (polling_deps s)) then s
            else pollingEffect s (set_pollingDeps (Some (polling_deps s)) s)).
  assert (H1 : polling x).
  { unfold x. destruct (decide (pollingDeps s = Some (polling_deps s))); [done|].
    unfold pollingEffect. destruct (_ && _); [|exact Hp].
    apply startPolling_polling. destruct Hp as (h & _ & _ & _ & _ & _ & Hrefs). exact Hrefs. }
  simpl. fold x. destruct (decide (positionDeps s = Some (position_deps s))); [done|].
  apply positionEffect_polling.
  destruct H1 as (h & ?). exists h. done.
Qed.

Lemma render_polling s : polling s → polling (render s).
Proof. apply (render_preserves polling). apply commit_polling. Qed.

(** The first render after the session id has arrived: the status poll
    starts, and nothing else happens. *)
Lemma join_first_render sid s :
  visiting s →
  let s1 := render (set_hasJoined true (set_sessionId (Some sid) s)) in
  quiescent s1 ∧ polling s1
  ∧ session_view s1 = (Some sid, true, None)
  ∧ audioManager s1 = None ∧ hasStartedReading s1 = false
  ∧ autoSkipTimeout s1 = None ∧ timerInterval s1 = None
  ∧ no_turn_timers (world s1)
  ∧ actionsPosted s1 = actionsPosted s
  ∧ isMuted s1 = isMuted s ∧ audioInitialized s1 = audioInitialized s
  ∧ apiBase s1 = apiBase s.
Proof.
  intros ([Hpd Hqd] & Hsid & Hj & Hq & Ham & Hst & Hto & Hti & Hnone). simpl.
  set (sA := set_hasJoined true (set_sessionId (Some sid) s)).
  assert (Hc : commit sA
               = set_hasStartedReading false (set_autoSkipTimer 10
                   (set_positionDeps (Some (position_deps sA))
                      (startPolling (set_pollingDeps (Some (polling_deps sA)) sA))))).
  { unfold commit.
    destruct (decide (pollingDeps sA = Some (polling_deps sA))) as [E|_].
    { exfalso. change (pollingDeps sA) with (pollingDeps s) in E. rewrite Hpd in E.
      unfold polling_deps in E. simpl in E. rewrite Hsid in E. done. }
    destruct (decide (positionDeps sA = Some (position_deps sA))) as [E|_].
    { exfalso. change (positionDeps sA) with (positionDeps s) in E. rewrite Hqd in E.
      unfold position_deps in E. simpl in E. rewrite Hsid in E. congruence. }
    unfold pollingEffect, positionEffect, atPosition1, atPosition2. simpl. rewrite Hq. simpl.
    unfold startPolling, clear_ref, setTimer. simpl. rewrite Hto, Hti, Ham.
    destruct (pollingInterval s); reflexivity. }
  assert (Hq1 : quiescent (commit sA)).
  { rewrite Hc. split; [reflexivity|]. simpl.
    unfold position_deps. simpl. by rewrite Hst. }
  assert (Hr : render sA = commit sA).
  { rewrite render_unfold. case_decide as E.
    - exfalso. destruct E as [E _]. change (pollingDeps sA) with (pollingDeps s) in E.
      rewrite Hpd in E. unfold polling_deps in E. simpl in E. rewrite Hsid in E. done.
    - by rewrite decide_True. }
  rewrite Hr. split; [done|]. rewrite Hc. split.
  { unfold polling, startPolling, clear_ref, clearTimer, setTimer. simpl. rewrite Hto, Hti.
    destruct (pollingInterval s) eqn:Hpi; simpl; rewrite ?Hpi; simpl; eexists;
      (split; [reflexivity|]);
      rewrite lookup_insert_eq; (split; [done|]); (split; [lia|]); naive_solver. }
  unfold startPolling, clear_ref, clearTimer, setTimer, session_view, no_turn_timers.
  simpl. destruct (pollingInterval s) eqn:Hpi; simpl; rewrite ?Hpi, ?Hq, ?Ham, ?Hto, ?Hti; simpl.
  all: repeat (split; [done|]).
  all: split; [|done].
  all: intros h t; rewrite lookup_insert; case_decide; [by intros [= <-]|];
    rewrite ?lookup_delete; try case_decide; try done; apply (Hnone h).
Qed.


Lemma render_audio_none s :
  audioManager s = None → audio_view (render s) = audio_view s.
Proof.
  intros Ham.
  apply (render_preserves (λ x, audio_view x = audio_view s)); [|done].
  intros x Hx. rewrite commit_audio.
  assert (Hm : muted_view x = audio_view x).
  { unfold muted_view. apply (f_equal (λ v, v.1.1)) in Hx. simpl in Hx.
    by rewrite Hx, Ham. }
  destruct (_ && _); [|done]. destruct (queueStatus x); congruence.
Qed.

Lemma render_session s : session_view (render s) = session_view s.
Proof.
  apply (render_preserves (λ x, session_view x = session_view s)); [|done].
  intros x Hx. by rewrite commit_session.
Qed.

Lemma render_posted s : actionsPosted (render s) = actionsPosted s.
Proof.
  apply (render_preserves (λ x, actionsPosted x = actionsPosted s)); [|done].
  intros x Hx. rewrite <- Hx. unfold commit.
  destruct (pollingEffect_frame x (set_pollingDeps (Some (polling_deps x)) x))
    as (_ & _ & _ & _ & Hpo & _).
  repeat case_decide; try done.
  all: destruct (positionEffect_frame x
         (set_positionDeps (Some (position_deps x))
            (pollingEffect x (set_pollingDeps (Some (polling_deps x)) x))))
         as (_ & _ & _ & _ & Hpo');
    destruct (positionEffect_frame x (set_positionDeps (Some (position_deps x)) x))
         as (_ & _ & _ & _ & Hpo'').
  all: simpl in *; congruence.
Qed.

Lemma render_profile s :
  apiBase (render s) = apiBase s ∧ audioInitialized (render s) = audioInitialized s.
Proof.
  apply (render_preserves
           (λ x, apiBase x = apiBase s ∧ audioInitialized x = audioInitialized s)); [|done].
  intros x [<- <-]. unfold commit, pollingEffect, startPolling, positionEffect,
    startAutoSkipTimer. crush_effect.
Qed.

(** X16: arriving at position 1 starts the deadline: the snapshot that takes
    a participant who is not reading, and has no timeout handle left
    over, to position 1 arms the auto-skip for ten seconds.  Counted from
    that snapshot, with the participant doing nothing but wait, nothing
    is posted before the tenth second, and from the tenth second on one
    skip has been posted and no timer of the coordinator is pending. *)
Theorem arrival_starts_deadline (sid : SessionId) (q : Snapshot) (s : Client)
    (es : list Event) :
  quiescent s → sessionId s = Some sid → atPosition1 s = false →
  hasStartedReading s = false → autoSkipTimeout s = None → no_turn_timers (world s) →
  isPosition1 q = true → Forall idle es →
  let s' := run s (StatusFetched (Ok q) :: es) in
  (seconds es < 10 → actionsPosted s' = actionsPosted s)
  ∧ (10 ≤ seconds es →
       actionsPosted s' = actionsPosted s ++ [(sid, Skip)] ∧ no_turn_timers (world s')).
Proof.
  intros Hq Hsid Hp1 Hst Hto Hnone Hq1 Hes. simpl.
  pose proof (arrival_arms sid q s Hq Hsid Hp1 Hst Hto Hnone Hq1) as Harm.
  assert (Hpo : actionsPosted (step s (StatusFetched (Ok q))) = actionsPosted s).
  { unfold step. rewrite render_posted. simpl. unfold fetchQueueStatus. by rewrite Hsid. }
  destruct (armed_run sid es 10 _ Harm Hes) as [H1 H2]. rewrite <- Hpo. split.
  - intros Hlt. by destruct (H1 Hlt).
  - intros Hle. destruct (H2 Hle) as [(_ & _ & _ & _ & _ & Hn) Hp]. done.
Qed.

(** What [initializeAudio] makes of a rendered page without manager. *)
Lemma initializeAudio_effect host sid g startMuted s :
  audioManager s = None →
  let s' := initializeAudio host sid g startMuted s in
  session_view s' = session_view s ∧ hasStartedReading s' = hasStartedReading s
  ∧ wasPosition2 s' = wasPosition2 s ∧ pollingDeps s' = pollingDeps s
  ∧ positionDeps s' = positionDeps s ∧ actionsPosted s' = actionsPosted s
  ∧ pollingInterval s' = pollingInterval s ∧ autoSkipTimeout s' = autoSkipTimeout s
  ∧ timerInterval s' = timerInterval s
  ∧ nextTimer (world s) ≤ nextTimer (world s')
  ∧ (∀ h, h < nextTimer (world s) → timers (world s') !! h = timers (world s) !! h)
  ∧ (∀ h t, timers (world s') !! h = Some t →
            timers (world s) !! h = Some t ∨ is_poll t = true)
  ∧ ∃ am, audioManager s' = Some am
          ∧ AudioManager.sessionId am = sid ∧ AudioManager.subGroup am = g
          ∧ AudioManager.apiUrl am = apiBase s
          ∧ (hasMediaDevices host = true → hasGetUserMedia host = true →
             capture host ≠ None →
               audioInitialized s' = true ∧ isMuted s' = startMuted
               ∧ AudioManager.isMuted am = startMuted
               ∧ AudioManager.isInitialized am = true
               ∧ tracks_follow (world s') am)
          ∧ (hasMediaDevices host = false ∨ hasGetUserMedia host = false
             ∨ capture host = None →
               audioInitialized s' = audioInitialized s ∧ isMuted s' = isMuted s
               ∧ AudioManager.isMuted am = true
               ∧ AudioManager.isInitialized am = false
               ∧ world s' = world s).
Proof.
  intros Ham. simpl.
  unfold initializeAudio, call_audio, AudioManager.initialize, try_catch.
  destruct (hasMediaDevices host) eqn:Hmd, (hasGetUserMedia host) eqn:Hgum; simpl.
  2-4: repeat (split; [done|]); (split; [by left|]);
    eexists; (split; [reflexivity|]); simpl; repeat (split; [done|]); done.
  unfold bind at 1. unfold AudioManager.getUserMedia. simpl.
  destruct (capture host) as [ts|] eqn:Hcap; simpl.
  - repeat (split; [done|]). split; [lia|]. split.
    { intros h Hh. rewrite lookup_insert_ne by lia. done. }
    split.
    { intros h t. rewrite lookup_insert. case_decide; [intros [= <-]; by right|by left]. }
    eexists. split; [reflexivity|]. simpl. repeat (split; [done|]). split.
    + intros _ _ _. repeat (split; [done|]).
      intros sh ts' tr [= <-]. simpl. unfold AudioManager.set_audio_enabled. simpl.
      rewrite lookup_alter_eq, lookup_insert_eq. simpl. intros [= <-] Hin Haud.
      apply list_elem_of_fmap in Hin as (tr0 & -> & _).
      unfold enable_audio in *. destruct (is_audio tr0) eqn:E; [done|congruence].
    + intros [?|[?|?]]; done.
  - repeat (split; [done|]). split; [by left|].
    eexists. split; [reflexivity|]. simpl. repeat (split; [done|]). done.
Qed.


Lemma initializeAudio_polling host sid g startMuted s :
  audioManager s = None → polling s → polling (initializeAudio host sid g startMuted s).
Proof.
  intros Ham (h & Hp & Ht & Hlt & Hn1 & Hn2 & Hrefs).
  destruct (initializeAudio_effect host sid g startMuted s Ham)
    as (_ & _ & _ & _ & _ & _ & E1 & E2 & E3 & Hle & Hkeep & _).
  exists h. rewrite E1, E2, E3, Hkeep by done. split; [done|]. split; [done|].
  split; [lia|]. split; [done|]. split; [done|].
  intros h' Hh'. specialize (Hrefs h' Hh'). lia.
Qed.

Lemma initializeAudio_armed host sid0 g startMuted sid k s :
  audioManager s = None → armed sid k s → armed sid k (initializeAudio host sid0 g startMuted s).
Proof.
  intros Ham (Hq & Hsid & Hp1 & Hst & Hk & hi & Hti & Hto & Hlt & Hci & Hct & Hothers).
  destruct (initializeAudio_effect host sid0 g startMuted s Ham)
    as (Hsv & E1 & E2 & E3 & E4 & _ & _ & E6 & E7 & Hle & Hkeep & Hnew & _).
  unfold session_view in Hsv. injection Hsv as F1 F2 F3.
  split; [by apply (quiescent_same s); unfold session_view; try congruence|].
  split; [congruence|]. split; [unfold atPosition1 in *; by rewrite F3|].
  split; [congruence|]. split; [done|].
  exists hi. rewrite E6, E7, !Hkeep by lia. split; [done|]. split; [done|].
  split; [lia|]. split; [done|]. split; [done|].
  intros h t Ht. destruct (Hnew h t Ht) as [Hold|Hpoll]; [by apply Hothers|auto].
Qed.


End HomePageMoreFacts.

(** ** The page with the position-2 timer *)

Module HomePageP2MoreFacts.
Import Js Browser HomePageP2 HomePageP2Facts HomePageP2More.

Lemma counting_wait_posted hi k resp s :
  counting hi (S (S k)) s →
  actionsPosted (step s (SecondElapsed resp)) = actionsPosted s.
Proof.
  intros (Hq & Hw & Hp2 & Hp1 & Hk & Hti & Hto & Hn & Hci & Hct & Hothers).
  destruct (second_fields resp s hi Hn Hothers) as (Hquiet & _).
  unfold step. simpl. rewrite p2_render_id by auto.
  rewrite (p2_second_pair resp s hi) by done.
  assert (H1 : fire resp s hi = position2Tick s) by (unfold fire; by rewrite Hci).
  rewrite H1. unfold fire. simpl. by rewrite Hct.
Qed.

Lemma counting_due_forfeited hi sid resp s :
  counting hi 1 s → sessionId s = Some sid →
  forfeited (step s (SecondElapsed resp))
  ∧ actionsPosted (step s (SecondElapsed resp)) = actionsPosted s ++ [(sid, Skip)].
Proof.
  intros (Hq & Hw & Hp2 & Hp1 & Hk & Hti & Hto & Hn & Hci & Hct & Hothers) Hsess.
  destruct (second_fields resp s hi Hn Hothers) as (Hquiet & Hsid & Hqs & Hw' & Hn').
  assert (Hquiet' := Hquiet Hq).
  unfold step. simpl. rewrite p2_render_id by done.
  split.
  - split; [done|]. split; [congruence|].
    unfold atPosition1, atPosition2 in *. rewrite Hqs.
    split; [done|]. split; [done|].
    rewrite (p2_second_pair resp s hi) by done.
    assert (H1 : fire resp s hi = position2Tick s) by (unfold fire; by rewrite Hci).
    rewrite H1.
    assert (H2 : fire resp (position2Tick s) (S hi)
                 = position2Expired (sessionId s) resp
                     (set_world (clearTimer (S hi) (world s)) (position2Tick s))).
    { unfold fire. simpl. by rewrite Hct. }
    rewrite H2, Hsess. clear H1 H2 Hquiet Hquiet' Hsid Hqs Hw' Hn' Hp1 Hp2 Hq.
    unfold position2Expired, clearPosition2Timer, post_action, position2Tick.
    destruct s as [w sid0 qs wasP2 started p2t active muted am ti to posted d2 d1].
    simpl in *. subst. simpl. split; [done|]. split; [done|].
    intros h t. rewrite ?lookup_delete. repeat case_decide; try done.
    intros Ht. destruct (Hothers h t Ht) as [?|[?|?]]; done.
  - rewrite (p2_second_pair resp s hi) by done.
    assert (H1 : fire resp s hi = position2Tick s) by (unfold fire; by rewrite Hci).
    rewrite H1. unfold fire. simpl. rewrite Hct, Hsess.
    unfold position2Expired, clearPosition2Timer, post_action, position2Tick.
    destruct s as [w sid0 qs wasP2 started p2t active muted am ti to posted d2 d1].
    simpl in *. subst. done.
Qed.

Lemma forfeited_staying e s :
  forfeited s → staying e → step s e = handle e s ∧ forfeited (step s e)
  ∧ actionsPosted (step s e) = actionsPosted s.
Proof.
  intros (Hq & Hw & Hp2 & Hp1 & Hti & Hto & Hnone) He.
  destruct e as [q|resp].
  - destruct (snapshot_same q s Hq Hp2 Hp1 He) as [Hq' Hstep].
    rewrite Hstep. split; [done|]. split; [|done].
    destruct He as [Hq2 Hq1]. split; [done|]. unfold atPosition1, atPosition2. simpl.
    done.
  - assert (Hsec : second resp s = s).
    { apply p2_foldl_fire_inert. intros h t _. apply Hnone. }
    unfold step. simpl. rewrite Hsec, p2_render_id by done. done.
Qed.

Lemma forfeited_run es :
  ∀ s, forfeited s → Forall staying es →
       forfeited (run s es) ∧ actionsPosted (run s es) = actionsPosted s.
Proof.
  induction es as [|e es IH]; intros s Hs Hes; [done|].
  apply Forall_cons in Hes as [He Hes]. simpl.
  destruct (forfeited_staying e s Hs He) as (_ & Hs' & Hp).
  destruct (IH _ Hs' Hes) as [? ->]. done.
Qed.

Lemma counting_sessionId hi k e s :
  counting hi k s → staying e → sessionId (step s e) = sessionId s
  ∧ (match e with SnapshotFetched _ => actionsPosted (step s e) = actionsPosted s
     | _ => True end).
Proof.
  intros Hc He. pose proof Hc as (Hq & Hw & Hp2 & Hp1 & Hk & Hti & Hto & Hn & Hci & Hct & Hothers).
  destruct e as [q|resp].
  - destruct (snapshot_same q s Hq Hp2 Hp1 He) as [_ ->]. done.
  - destruct (second_fields resp s hi Hn Hothers) as (Hquiet & Hsid & _).
    unfold step. simpl. rewrite p2_render_id by auto. done.
Qed.

Lemma counting_run_posted hi sid es :
  ∀ k s, counting hi k s → sessionId s = Some sid → Forall staying es →
    (seconds es < k → actionsPosted (run s es) = actionsPosted s)
    ∧ (k ≤ seconds es →
       forfeited (run s es) ∧ actionsPosted (run s es) = actionsPosted s ++ [(sid, Skip)]).
Proof.
  induction es as [|e es IH]; intros k s Hc Hsid Hes.
  - simpl. split; [done|]. destruct Hc as (_ & _ & _ & _ & Hk & _). lia.
  - apply Forall_cons in Hes as [He Hes].
    destruct (counting_sessionId hi k e s Hc He) as [Hsid' Hpo].
    change (run s (e :: es)) with (run (step s e) es).
    destruct e as [q|resp]; simpl.
    + rewrite <- Hpo. apply IH; [by apply counting_snapshot|congruence|done].
    + destruct k as [|[|k]].
      * destruct Hc as (_ & _ & _ & _ & Hk & _). lia.
      * split; [lia|]. intros _.
        destruct (counting_due_forfeited hi sid resp s Hc Hsid) as [Hf Hp].
        destruct (forfeited_run es _ Hf Hes) as [? ->]. done.
      * pose proof (counting_second_wait hi k resp s Hc) as Hc'.
        pose proof (counting_wait_posted hi k resp s Hc) as Hp.
        destruct (IH (S k) _ Hc' ltac:(congruence) Hes) as [IH1 IH2].
        rewrite <- Hp. split; intros Hlt; [apply IH1|apply IH2]; lia.
Qed.

Lemma p2_commit_posted s :
  actionsPosted (commit s) = actionsPosted s ∧ sessionId (commit s) = sessionId s.
Proof.
  unfold commit, position2Effect, position1Effect, startPosition2Timer, clearPosition2Timer,
    mute_audio, setTimer.
  destruct s as [w sid0 qs wasP2 started p2t active muted am ti to posted d2 d1]. simpl.
  repeat case_decide; simpl;
    repeat match goal with
      | |- context [if ?b then _ else _] => destruct b; simpl
      | |- context [match ?x with _ => _ end] => destruct x; simpl
      end; done.
Qed.

Lemma p2_render_posted s :
  actionsPosted (render s) = actionsPosted s ∧ sessionId (render s) = sessionId s.
Proof.
  unfold render. generalize 4. intros n. revert s.
  induction n as [|n IH]; intros s; simpl; [done|].
  case_decide; [done|]. destruct (IH (commit s)) as [-> ->]. apply p2_commit_posted.
Qed.

(** X21: the get-ready timeout forfeits the turn: a participant who reaches
    position 2 and stays there has nothing posted for thirty seconds;
    then exactly one skip is posted under the session id, both handles
    are reset and no timer of the page is left — and since the page
    still counts as having been at position 2, staying there starts no
    further timer and sends no further skip. *)
Theorem get_ready_timeout_skips_once (s : Client) (sid : SessionId) (q : Snapshot)
    (es : list Event) :
  ready s → sessionId s = Some sid → atSecond q → Forall staying es →
  let s' := run s (SnapshotFetched q :: es) in
  (seconds es < 30 → actionsPosted s' = actionsPosted s)
  ∧ (30 ≤ seconds es →
       actionsPosted s' = actionsPosted s ++ [(sid, Skip)]
       ∧ position2TimerInterval s' = None ∧ position2TimeoutRef s' = None
       ∧ ∀ h t, timers (world s') !! h = Some t → HomePage.is_poll t = true).
Proof.
  intros Hr Hsid Hq Hes. simpl.
  pose proof (ready_snapshot q s Hr Hq) as Hc.
  set (s1 := step s (SnapshotFetched q)) in *.
  assert (Hp1 : actionsPosted s1 = actionsPosted s).
  { unfold s1, step. by destruct (p2_render_posted (handle (SnapshotFetched q) s)) as [-> _]. }
  assert (Hsid1 : sessionId s1 = Some sid).
  { rewrite <- Hsid. unfold s1, step.
    by destruct (p2_render_posted (handle (SnapshotFetched q) s)) as [_ ->]. }
  destruct (counting_run_posted (nextTimer (world s)) sid es 30 s1 Hc Hsid1 Hes) as [H1 H2].
  rewrite <- Hp1. split; [exact H1|]. intros Hle.
  destruct (H2 Hle) as [(_ & _ & _ & _ & Hti & Hto & Hnone) Hpo]. done.
Qed.


(** *** Reaching position 1 *)

Lemma commit_calm posted s : calm posted s → calm posted (commit s).
Proof.
  intros (Hp1 & Hp2 & Hti & Hto & Hnone & Hpo).
  unfold calm, commit, position2Effect, position1Effect, clearPosition2Timer.
  rewrite Hp1, Hp2. simpl. unfold atPosition1, atPosition2 in *.
  destruct s as [w sid0 qs wasP2 started p2t active muted am ti to posted0 d2 d1].
  simpl in *. subst. repeat case_decide; simpl; destruct wasP2; simpl; done.
Qed.

Lemma settle_calm posted n : ∀ s, calm posted s → calm posted (settle n s).
Proof.
  induction n as [|n IH]; intros s Hs; simpl; [done|].
  case_decide; [done|]. by apply IH, commit_calm.
Qed.

Lemma calm_leading posted e s : calm posted s → leading e → calm posted (step s e).
Proof.
  intros Hc He. unfold step, render. apply settle_calm.
  destruct Hc as (Hp1 & Hp2 & Hti & Hto & Hnone & Hpo).
  destruct e as [q|resp]; simpl.
  - destruct He as [Hq1 Hq2]. unfold calm, atPosition1, atPosition2. simpl. done.
  - assert (second resp s = s) as ->; [|done].
    apply p2_foldl_fire_inert. intros h t _. apply Hnone.
Qed.

Lemma calm_run posted es : ∀ s, calm posted s → Forall leading es → calm posted (run s es).
Proof.
  induction es as [|e es IH]; intros s Hs Hes; [done|].
  apply Forall_cons in Hes as [He Hes]. simpl. apply IH; [|done]. by apply calm_leading.
Qed.

(** X22: reaching position 1 cancels the get-ready timer: with the countdown
    running at position 2, the snapshot that reports position 1 clears
    both timers and resets both handles before the timeout can run; at
    position 1 this page starts no timer of its own, so however long the
    participant then waits there nothing is posted. *)
Theorem promotion_cancels_get_ready (hi k : nat) (s : Client) (q : Snapshot)
    (es : list Event) :
  counting hi k s → isPosition1 q = true → isPosition2 q = false → Forall leading es →
  let s' := run s (SnapshotFetched q :: es) in
  actionsPosted s' = actionsPosted s
  ∧ position2TimerInterval s' = None ∧ position2TimeoutRef s' = None
  ∧ ∀ h t, timers (world s') !! h = Some t → HomePage.is_poll t = true.
Proof.
  intros (Hq & Hw & Hp2 & Hp1 & Hk & Hti & Hto & Hn & Hci & Hct & Hothers) Hq1 Hq2 Hes.
  simpl.
  assert (Hc : calm (actionsPosted s) (step s (SnapshotFetched q))).
  { unfold step, render. simpl handle. set (s1 := set_queueStatus (Some q) s).
    assert (Hnq : ¬ quiescent s1).
    { intros [E _]. change (position2Deps s1) with (position2Deps s) in E.
      destruct Hq as [E' _]. rewrite E' in E. injection E as E.
      unfold atPosition2 in Hp2. destruct (queueStatus s) as [q0|]; simpl in E; [|done].
      change HomePage.isPosition2 with isPosition2 in *. congruence. }
    change (settle 4 s1) with (if decide (quiescent s1) then s1 else settle 3 (commit s1)).
    rewrite decide_False by done. apply settle_calm.
    unfold calm, commit.
    destruct (decide (position2Deps s1 = Some (position2_deps s1))) as [E|_].
    { exfalso. change (position2Deps s1) with (position2Deps s) in E.
      destruct Hq as [E' _]. rewrite E' in E. injection E as E.
      unfold atPosition2 in Hp2. destruct (queueStatus s) as [q0|]; simpl in E; [|done].
      change HomePage.isPosition2 with isPosition2 in *. congruence. }
    unfold position2Effect, position1Effect. change (atPosition2 s1) with (isPosition2 q).
    change (atPosition1 s1) with (isPosition1 q). change (wasPosition2 s1) with (wasPosition2 s).
    rewrite Hq1, Hq2, Hw. simpl. unfold clearPosition2Timer, atPosition1, atPosition2.
    subst s1. clear Hnq Hq.
    destruct s as [w sid0 qs wasP2 started p2t active muted am ti to posted0 d2 d1].
    simpl in *. subst. case_decide; simpl; rewrite Hq1, Hq2.
    all: repeat split; try done.
    all: intros h t; rewrite !lookup_delete; repeat case_decide; try done.
    all: intros Ht; destruct (Hothers h t Ht) as [?|[?|?]]; done. }
  destruct (calm_run _ es _ Hc Hes) as (_ & _ & Hti' & Hto' & Hnone & Hpo). done.
Qed.

End HomePageP2MoreFacts.

(** ** The paged document viewer *)

Module PDFViewerFacts.
Import Browser PDFViewer PrimFloat.

Lemma render_in_range v :
  (0 ≤ currentPage v)%Z →
  ((0 < pageCount v)%Z → (currentPage v < pageCount v)%Z) →
  ((pageCount v ≤ 0)%Z → currentPage v = 0%Z) →
  ((0 < pageCount v)%Z → imageDeps v = Some (currentPage v, pageCount v) →
     imageUrl v = Some (currentPage v)) →
  in_range (render v).
Proof.
  intros H0 H1 H2 H3. unfold render, in_range, imageEffect.
  case_decide as Hd; simpl; [auto 10|].
  destruct (0 <? pageCount v)%Z eqn:E; simpl.
  - repeat split; auto.
  - apply Z.ltb_ge in E. repeat split; auto. lia.
Qed.

Lemma handle_image e v :
  imageUrl (handle e v) = imageUrl v ∧ imageDeps (handle e v) = imageDeps v.
Proof.
  destruct e as [[n| |]| | |i|key| | | | |]; simpl;
    unfold handleKeyDown, goToPrevPage, goToNextPage;
    repeat match goal with
      | |- context [if ?b then _ else _] => destruct b; simpl
      end; done.
Qed.

Lemma handle_bounds e v :
  (0 ≤ currentPage v)%Z →
  ((0 < pageCount v)%Z → (currentPage v < pageCount v)%Z) →
  ((pageCount v ≤ 0)%Z → currentPage v = 0%Z) →
  (0 ≤ currentPage (handle e v))%Z
  ∧ ((0 < pageCount (handle e v))%Z → (currentPage (handle e v) < pageCount (handle e v))%Z)
  ∧ ((pageCount (handle e v) ≤ 0)%Z → currentPage (handle e v) = 0%Z).
Proof.
  intros H0 H1 H2.
  destruct e as [[n| |]| | |i|key| | | | |]; simpl;
    unfold handleKeyDown, goToPrevPage, goToNextPage;
    repeat match goal with
      | |- context [if ?b then _ else _] => destruct b eqn:?; simpl
      end;
    rewrite ?Z.ltb_lt, ?Z.ltb_ge in *; repeat split; try lia; auto.
Qed.

Lemma step_in_range v e : in_range v → in_range (step v e).
Proof.
  intros (H0 & H1 & H2 & H3 & H4). unfold step.
  destruct (handle_bounds e v H0 H1 H2) as (G0 & G1 & G2).
  destruct (handle_image e v) as [Gu Gd].
  apply render_in_range; [done..|].
  intros Hp Hd. rewrite Gd, H4 in Hd. injection Hd as E1 E2.
  rewrite Gu, <- E1. apply H3. lia.
Qed.

(** X17: the page shown by the paged viewer is always a page of the
    document: whatever is clicked or typed and whatever the server
    answers, the current page stays between 0 and the last page (at 0
    when the document has no pages), and once there are pages the image
    requested is the one of the current page. *)
Theorem page_stays_in_range (es : list Event) : in_range (run mount es).
Proof.
  assert (H : ∀ v, in_range v → in_range (run v es)).
  { induction es as [|e es IH]; intros v Hv; [done|]. simpl. apply IH.
    by apply step_in_range. }
  apply H. unfold in_range, mount. simpl. repeat split; try done; lia.
Qed.


Lemma viewer_render_id v : imageDeps v = Some (currentPage v, pageCount v) → render v = v.
Proof. intros H. unfold render. by rewrite decide_True. Qed.

Lemma step_next n p l e x u :
  (0 ≤ p < n - 1)%Z →
  step (mkViewer n p l e x u (Some (p, n))) NextClicked
  = mkViewer n (p + 1) l e x (Some (p + 1)%Z) (Some ((p + 1)%Z, n)).
Proof.
  intros Hp. unfold step, handle, goToNextPage. simpl.
  assert (p <? n - 1 = true)%Z as -> by (apply Z.ltb_lt; lia).
  unfold render, imageEffect. simpl.
  destruct (decide (Some (p, n) = Some ((p + 1)%Z, n))) as [[= E]|_]; [lia|].
  assert (0 <? n = true)%Z as -> by (apply Z.ltb_lt; lia). done.
Qed.

Lemma step_prev n p l e x u :
  (0 < p < n)%Z →
  step (mkViewer n p l e x u (Some (p, n))) PrevClicked
  = mkViewer n (p - 1) l e x (Some (p - 1)%Z) (Some ((p - 1)%Z, n)).
Proof.
  intros Hp. unfold step, handle, goToPrevPage. simpl.
  assert (0 <? p = true)%Z as -> by (apply Z.ltb_lt; lia).
  unfold render, imageEffect. simpl.
  destruct (decide (Some (p, n) = Some ((p - 1)%Z, n))) as [[= E]|_]; [lia|].
  assert (0 <? n = true)%Z as -> by (apply Z.ltb_lt; lia). done.
Qed.

(** X18: turning pages: next and then previous, or previous and then next,
    comes back to the very same state whenever the first of the two
    moves; at the first page previous does nothing, at the last page —
    or in a document without pages — next does nothing; the arrow keys
    do what the two buttons do, and every other key nothing. *)
Theorem navigation_round_trip (v : Viewer) :
  in_range v →
  ((currentPage v < pageCount v - 1)%Z → run v [NextClicked; PrevClicked] = v)
  ∧ ((0 < currentPage v)%Z → run v [PrevClicked; NextClicked] = v)
  ∧ (currentPage v = 0%Z → step v PrevClicked = v)
  ∧ ((pageCount v - 1 ≤ currentPage v)%Z → step v NextClicked = v)
  ∧ step v (KeyDown "ArrowLeft") = step v PrevClicked
  ∧ step v (KeyDown "ArrowRight") = step v NextClicked
  ∧ (∀ key : string, key ≠ "ArrowLeft"%string → key ≠ "ArrowRight"%string →
       step v (KeyDown key) = v).
Proof.
  intros (H0 & H1 & H2 & H3 & H4).
  destruct v as [n p l e x u d]. simpl in *. subst d.
  split; [|split; [|split; [|split; [|split; [done|split; [done|]]]]]].
  - intros Hlt. unfold run. simpl. rewrite step_next by lia. rewrite step_prev by lia.
    replace (p + 1 - 1)%Z with p by lia. rewrite H3 by lia. done.
  - intros Hlt. assert (p < n)%Z by (apply H1; lia).
    unfold run. simpl. rewrite step_prev by lia. rewrite step_next by lia.
    replace (p - 1 + 1)%Z with p by lia. rewrite H3 by lia. done.
  - intros ->. unfold step, handle, goToPrevPage. simpl. by apply viewer_render_id.
  - intros Hle. unfold step, handle, goToNextPage. simpl.
    assert (p <? n - 1 = false)%Z as -> by (apply Z.ltb_ge; lia). by apply viewer_render_id.
  - intros key Hl Hr. unfold step, handle, handleKeyDown.
    apply String.eqb_neq in Hl, Hr. rewrite Hl, Hr. by apply viewer_render_id.
Qed.

(** *** Zoom *)

Lemma zoom_level_step (x : float) :
  In x zoom_levels →
  In (math_min (x + 0.25) 3) zoom_levels ∧ In (math_max (x - 0.25) 0.5) zoom_levels
  ∧ ((0.5 <=? x)%float = true ∧ (x <=? 3)%float = true)
  ∧ ((x <? 3)%float = true → math_max (math_min (x + 0.25) 3 - 0.25) 0.5 = x)
  ∧ ((0.5 <? x)%float = true → math_min (math_max (x - 0.25) 0.5 + 0.25) 3 = x)
  ∧ ((3 <=? x)%float = true → math_min (x + 0.25) 3 = x)
  ∧ ((x <=? 0.5)%float = true → math_max (x - 0.25) 0.5 = x).
Proof.
  unfold zoom_levels. simpl.
  intros [<-|[<-|[<-|[<-|[<-|[<-|[<-|[<-|[<-|[<-|[<-|[]]]]]]]]]]]]; vm_compute;
    repeat split; auto 20; discriminate.
Qed.

Lemma render_scale v : scale (render v) = scale v.
Proof. unfold render, imageEffect. case_decide; [done|]. by destruct (0 <? pageCount v)%Z. Qed.

Lemma step_scale e v :
  scale (step v e)
  = match e with
    | ZoomInClicked => math_min (scale v + 0.25) 3
    | ZoomOutClicked => math_max (scale v - 0.25) 0.5
    | ResetClicked => 1%float
    | _ => scale v
    end.
Proof.
  unfold step. rewrite render_scale.
  destruct e as [[n| |]| | |i|key| | | | |]; simpl;
    unfold handleKeyDown, goToPrevPage, goToNextPage;
    repeat match goal with
      | |- context [if ?b then _ else _] => destruct b; simpl
      end; done.
Qed.

(** X19: the zoom buttons keep the scale on the quarter steps between 0.5
    and 3, where the arithmetic on doubles is exact: whatever is clicked,
    the scale is one of these eleven values; zooming in and out again (or
    out and in again) returns to the same scale unless the first click
    was at the end of the range, where it changes nothing — the ends at
    which the two buttons are disabled. *)
Theorem zoom_stays_in_levels (es : list Event) :
  let v := run mount es in
  In (scale v) zoom_levels
  ∧ ((0.5 <=? scale v)%float = true ∧ (scale v <=? 3)%float = true)
  ∧ ((scale v <? 3)%float = true → scale (run v [ZoomInClicked; ZoomOutClicked]) = scale v)
  ∧ ((0.5 <? scale v)%float = true → scale (run v [ZoomOutClicked; ZoomInClicked]) = scale v)
  ∧ ((3 <=? scale v)%float = true → scale (step v ZoomInClicked) = scale v)
  ∧ ((scale v <=? 0.5)%float = true → scale (step v ZoomOutClicked) = scale v).
Proof.
  assert (H : ∀ v, In (scale v) zoom_levels → In (scale (run v es)) zoom_levels).
  { induction es as [|e es IH]; intros v Hv; [done|]. simpl. apply IH.
    rewrite step_scale. destruct (zoom_level_step _ Hv) as (H1 & H2 & _).
    destruct e; try done. unfold zoom_levels. simpl. auto. }
  simpl. assert (Hin : In (scale (run mount es)) zoom_levels).
  { apply H. unfold zoom_levels, mount. simpl. auto. }
  destruct (zoom_level_step _ Hin) as (_ & _ & Hb & R1 & R2 & S1 & S2).
  split; [done|]. split; [done|]. simpl. rewrite !step_scale. done.
Qed.

End PDFViewerFacts.

(** ** The sub-group list *)

Module SubGroupsFacts.
Import Browser SubGroups.

(** X20: [fetchSubGroups] always ends with the loading flag down.  It never
    replaces a selection that was made; without one, and given a list
    that is not empty, it preselects [General] when a group of that name
    is listed and the first group otherwise — so what it preselects is
    always the name of a listed group.  When the request fails, or the
    list is empty or missing, the selection stays as it was (and in the
    failing case so does the list). *)
Theorem fetchSubGroups_spec (resp : Fetch (option (list SubGroup))) (s : Selection) :
  let s' := fetchSubGroups resp s in
  loadingSubGroups s' = false
  ∧ (unselected (selectedSubGroup s) = false → selectedSubGroup s' = selectedSubGroup s)
  ∧ (selectedSubGroup s' = selectedSubGroup s
     ∨ ∃ l g, resp = Ok (Some l) ∧ g ∈ l ∧ selectedSubGroup s' = Some (g_name g))
  ∧ (∀ l, resp = Ok (Some l) → l ≠ [] → unselected (selectedSubGroup s) = true →
       availableSubGroups s' = l
       ∧ ((∃ g, g ∈ l ∧ g_name g = "General"%string) →
            selectedSubGroup s' = Some "General"%string)
       ∧ ((∀ g, g ∈ l → g_name g ≠ "General"%string) →
            selectedSubGroup s' = g_name <$> head l))
  ∧ (resp = Ok None ∨ resp = Ok (Some []) →
       selectedSubGroup s' = selectedSubGroup s ∧ availableSubGroups s' = [])
  ∧ (resp = NotOk ∨ resp = NetworkError →
       selectedSubGroup s' = selectedSubGroup s
       ∧ availableSubGroups s' = availableSubGroups s).
Proof.
  simpl. split; [by destruct resp as [[[|]|]| |]; simpl; repeat case_match|].
  split.
  { intros Hsel. unfold fetchSubGroups. destruct resp as [[[|g l]|]| |]; simpl; try done.
    by rewrite Hsel. }
  split.
  { unfold fetchSubGroups. destruct resp as [[[|g l]|]| |]; simpl; auto.
    destruct (unselected (selectedSubGroup s)); simpl; [|auto].
    destruct (String.eqb (g_name g) "General") eqn:Eg; simpl.
    - right. exists (g :: l), g. apply String.eqb_eq in Eg. rewrite Eg.
      split; [done|]. split; [left|done].
    - destruct (List.find _ l) as [g'|] eqn:Ef; simpl.
      + right. apply List.find_some in Ef as [Hin Hn]. apply String.eqb_eq in Hn.
        exists (g :: l), g'. split; [done|]. split; [|by rewrite Hn].
        right. by apply list_elem_of_In.
      + right. exists (g :: l), g. split; [done|]. split; [left|done]. }
  split.
  { intros l -> Hne Hsel. destruct l as [|g l]; [done|]. unfold fetchSubGroups. simpl.
    rewrite Hsel. simpl. split.
    { destruct (String.eqb (g_name g) "General"); simpl; [done|].
      by destruct (List.find _ l). }
    split.
    - intros (g' & Hin & Hn).
      destruct (String.eqb (g_name g) "General") eqn:Eg; simpl; [done|].
      destruct (List.find _ l) as [g''|] eqn:Ef; simpl; [done|].
      exfalso. apply list_elem_of_In in Hin. destruct Hin as [->|Hin].
      + apply String.eqb_neq in Eg. done.
      + apply (List.find_none _ _ Ef) in Hin. apply String.eqb_neq in Hin. done.
    - intros Hnone.
      destruct (String.eqb (g_name g) "General") eqn:Eg; simpl.
      { apply String.eqb_eq in Eg. exfalso. apply (Hnone g); [left|done]. }
      destruct (List.find _ l) as [g''|] eqn:Ef; simpl; [|done].
      apply List.find_some in Ef as [Hin Hn]. apply String.eqb_eq in Hn.
      exfalso. apply (Hnone g''); [right; by apply list_elem_of_In|done]. }
  split.
  { intros [-> | ->]; done. }
  intros [-> | ->]; done.
Qed.

End SubGroupsFacts.

(** ** Scenarios *)

Module MoreScenarioFacts.
Import Js Browser Scenario MoreScenarios ScenarioFacts.

(** *** The audio manager *)




(** A candidate of [a] before the answer of [a] has arrived is dropped;
    after it, it is added. *)
Lemma candidate_needs_remote_description_witness :
  AudioManager.handleSignal host (candidate_of "a") (connected.1, connected.2)
  = (Returned tt, (connected.1, connected.2))
  ∧ remoteCandidates
      <$> pcs (AudioManager.handleSignal host (candidate_of "a") (answered.1, answered.2)).2.1
          !! 0
    = Some [mkCandidate 0 true].
Proof.
  destruct (AudioManagerMore.candidate_needs_remote_description host connected.1 connected.2
              (candidate_of "a") (mkPayload None (Some (mkCandidate 0 true)))
              (mkCandidate 0 true) 0 offered_to_a)
    as (Hr & Hdropped & _).
  - reflexivity.
  - reflexivity.
  - reflexivity.
  - reflexivity.
  - vm_compute. reflexivity.
  - vm_compute. reflexivity.
  - discriminate.
  - destruct (AudioManagerMore.candidate_needs_remote_description host answered.1 answered.2
              (candidate_of "a") (mkPayload None (Some (mkCandidate 0 true)))
              (mkCandidate 0 true) 0 answered_by_a)
      as (_ & _ & Hadded).
    + reflexivity.
    + reflexivity.
    + reflexivity.
    + reflexivity.
    + vm_compute. reflexivity.
    + vm_compute. reflexivity.
    + discriminate.
    + cbv zeta in Hr, Hdropped, Hadded. split.
      * rewrite (surjective_pairing (AudioManager.handleSignal _ _ _)).
        rewrite Hr, (Hdropped eq_refl). reflexivity.
      * rewrite Hadded by discriminate.
        cbn [snd fst set_pcs pcs]. rewrite lookup_insert_eq. reflexivity.
Defined.

(** Initialising on an empty page and cleaning up again. *)
Lemma initialize_then_cleanup_witness :
  let r := AudioManager.initialize host false
             (empty_world, AudioManager.constructor "me" "General" "/api") in
  let r' := AudioManager.cleanup r.2 in
  r'.2.2 = AudioManager.set_isMuted false (AudioManager.constructor "me" "General" "/api")
  ∧ timers r'.2.1 = ∅
  ∧ streams r'.2.1 !! 0 = Some [mkTrack AudioKind true true].
Proof.
  destruct (AudioManagerMore.initialize_then_cleanup host false empty_world "me" "General" "/api"
              [mkTrack AudioKind true false])
    as (_ & _ & Ham & Htimers & _ & _ & _ & Hstreams).
  - reflexivity.
  - reflexivity.
  - reflexivity.
  - reflexivity.
  - cbv zeta. split; [exact Ham|]. split; [exact Htimers|].
    rewrite Hstreams. vm_compute. reflexivity.
Defined.

(** *** The queue page *)

Lemma first_in_line_armed : HomePage.armed "me" 10 first_in_line.
Proof.
  split; [by_evaluation|]. split; [reflexivity|]. split; [reflexivity|].
  split; [reflexivity|]. split; [lia|]. exists 3.
  split; [reflexivity|]. split; [reflexivity|]. split; [vm_compute; lia|].
  split; [reflexivity|]. split; [reflexivity|].
  change (map_Forall (λ h t, h = 3 ∨ h = 4 ∨ HomePage.is_poll t = true)
            (timers (HomePage.world first_in_line))).
  by_evaluation.
Qed.

Lemma seconds_idle (n : nat) :
  Forall HomePage.idle (replicate n (HomePage.SecondElapsed (Ok tt))).
Proof. induction n; [apply List.Forall_nil|apply List.Forall_cons; [exact I|assumption]]. Qed.

Lemma waiting_for_idle (n : nat) : Forall HomePage.idle (waiting_for n).
Proof.
  apply List.Forall_cons; [reflexivity|]. apply List.Forall_cons; [exact I|].
  apply List.Forall_cons; [exact I|]. apply List.Forall_cons; [exact I|].
  apply seconds_idle.
Qed.

Lemma waiting_for_holding (n : nat) : Forall HomePageMore.holding (waiting_for n).
Proof.
  apply List.Forall_cons; [split; reflexivity|]. apply List.Forall_cons; [exact I|].
  apply List.Forall_cons; [exact I|]. apply List.Forall_cons; [exact I|].
  induction n; [apply List.Forall_nil|apply List.Forall_cons; [exact I|assumption]].
Qed.

(** The deadline passes, the queue moves the participant to place 2 and
    back to place 1, and twelve more seconds pass. *)
Lemma no_second_auto_skip_witness :
  let s' := HomePage.run first_in_line
              (ten_seconds
               ++ [HomePage.StatusFetched (Ok (q 2)); HomePage.StatusFetched (Ok (q 1))]
               ++ waiting_for 12) in
  HomePage.atPosition1 s' = true ∧ HomePage.hasStartedReading s' = false
  ∧ HomePage.actionsPosted s' = HomePage.actionsPosted first_in_line ++ [("me"%string, Skip)]
  ∧ HomePage.no_turn_timers (HomePage.world s').
Proof.
  apply (HomePageMoreFacts.no_second_auto_skip "me" 10 first_in_line ten_seconds
           (waiting_for 12) (q 2) (q 1)).
  - exact first_in_line_armed.
  - apply seconds_idle.
  - vm_compute. lia.
  - reflexivity.
  - reflexivity.
  - apply waiting_for_idle.
Defined.

(** A click on start at position 1, and twelve seconds of reading. *)
Lemma action_disarms_witness :
  let s' := HomePage.run first_in_line
              (HomePage.ActionTaken Start (Ok tt) :: waiting_for 12) in
  HomePage.actionsPosted s' = HomePage.actionsPosted first_in_line ++ [("me"%string, Start)]
  ∧ HomePage.atPosition1 s' = true
  ∧ HomePage.no_turn_timers (HomePage.world s').
Proof.
  apply (HomePageMoreFacts.action_disarms "me" 10 first_in_line Start (Ok tt) (waiting_for 12)).
  - exact first_in_line_armed.
  - reflexivity.
  - discriminate.
  - apply waiting_for_holding.
Defined.

(** Joining at the front of the queue, where the audio starts unmuted,
    and three seconds with a click on the mute button. *)
Lemma mute_indicator_agrees_witness :
  HomePageMore.mirrored (HomePage.run (joined 1) (waiting_for 3)).
Proof.
  refine (proj2 (HomePageMoreFacts.mute_indicator_agrees host (Ok "me"%string) (Ok (q 1))
                   entered (waiting_for 3) _) eq_refl).
  intros am H. discriminate H.
Defined.

Lemma joined_polled : HomePageMore.polled (joined 3).
Proof.
  intros h H. apply elem_of_map_to_list in H.
  assert (Hl : map_to_list (timers (HomePage.world (joined 3))) = [(2, SignalPoll); (1, StatusPoll)])
    by (vm_compute; reflexivity).
  rewrite Hl in H.
  apply elem_of_cons in H as [H|H]; [discriminate H|].
  apply elem_of_cons in H as [H|H]; [injection H as ->; reflexivity|].
  apply elem_of_nil in H as [].
Qed.

(** In the queue at place 3: three seconds, and then a status answer
    that is not ok. *)
Lemma status_poll_never_leaks_witness :
  let s' := HomePage.run (joined 3) (waiting_for 3) in
  HomePageMore.polled s'
  ∧ ∀ h, timers (HomePage.world (HomePage.step s' (HomePage.StatusFetched NotOk))) !! h
         ≠ Some StatusPoll.
Proof.
  destruct (HomePageMoreFacts.status_poll_never_leaks (joined 3) (waiting_for 3) joined_polled)
    as (Hpolled & _ & Hended).
  split; [exact Hpolled|]. apply Hended. vm_compute. discriminate.
Defined.

(** Second in line, the snapshot that reports place 1, and ten seconds. *)
Lemma arrival_starts_deadline_witness :
  HomePage.actionsPosted
    (HomePage.run second_in_line (HomePage.StatusFetched (Ok (q 1)) :: ten_seconds))
  = HomePage.actionsPosted second_in_line ++ [("me"%string, Skip)].
Proof.
  refine (proj1 (proj2 (HomePageMoreFacts.arrival_starts_deadline "me" (q 1) second_in_line
                          ten_seconds _ _ _ _ _ _ _ _) _)).
  - by_evaluation.
  - reflexivity.
  - reflexivity.
  - reflexivity.
  - reflexivity.
  - change (map_Forall (λ _ t, HomePage.is_poll t = true)
              (timers (HomePage.world second_in_line))).
    by_evaluation.
  - reflexivity.
  - apply seconds_idle.
  - vm_compute. lia.
Defined.


(** *** The page with the position-2 timer *)

Lemma third_in_line_ready : HomePageP2.ready third_in_line.
Proof.
  split; [by_evaluation|]. split; [reflexivity|]. split; [reflexivity|].
  split; [reflexivity|]. split; [reflexivity|].
  intros h t H. vm_compute in H. discriminate.
Qed.

Lemma staying_for_staying (n : nat) : Forall HomePageP2.staying (staying_for n).
Proof.
  induction n; [apply List.Forall_nil|].
  apply List.Forall_cons; [exact I|]. apply List.Forall_cons; [split; reflexivity|]. exact IHn.
Qed.

Lemma leading_for_leading (n : nat) : Forall HomePageP2More.leading (leading_for n).
Proof.
  induction n; [apply List.Forall_nil|].
  apply List.Forall_cons; [exact I|]. apply List.Forall_cons; [split; reflexivity|]. exact IHn.
Qed.

(** Twenty-nine seconds at position 2 post nothing; forty post the one skip. *)
Lemma get_ready_timeout_skips_once_witness :
  HomePageP2.actionsPosted
    (HomePageP2.run third_in_line (HomePageP2.SnapshotFetched (q 2) :: staying_for 29))
  = HomePageP2.actionsPosted third_in_line
  ∧ HomePageP2.actionsPosted
      (HomePageP2.run third_in_line (HomePageP2.SnapshotFetched (q 2) :: staying_for 40))
    = HomePageP2.actionsPosted third_in_line ++ [("me"%string, Skip)].
Proof.
  assert (Hq : HomePageP2.atSecond (q 2)) by (split; reflexivity).
  destruct (HomePageP2MoreFacts.get_ready_timeout_skips_once third_in_line "me" (q 2)
              (staying_for 29) third_in_line_ready eq_refl Hq (staying_for_staying 29))
    as [Hbefore _].
  destruct (HomePageP2MoreFacts.get_ready_timeout_skips_once third_in_line "me" (q 2)
              (staying_for 40) third_in_line_ready eq_refl Hq (staying_for_staying 40))
    as [_ Hafter].
  split; [apply Hbefore; vm_compute; lia|apply Hafter; vm_compute; lia].
Defined.

(** Three seconds into position 2 the queue moves on: the participant
    is first, and waits there for forty seconds. *)
Lemma promotion_cancels_get_ready_witness :
  let s' := HomePageP2.run getting_ready (HomePageP2.SnapshotFetched (q 1) :: leading_for 40) in
  HomePageP2.actionsPosted s' = HomePageP2.actionsPosted getting_ready
  ∧ HomePageP2.position2TimerInterval s' = None ∧ HomePageP2.position2TimeoutRef s' = None
  ∧ ∀ h t, timers (HomePageP2.world s') !! h = Some t → HomePage.is_poll t = true.
Proof.
  apply (HomePageP2MoreFacts.promotion_cancels_get_ready 1 27 getting_ready (q 1)
           (leading_for 40)).
  - split; [by_evaluation|]. split; [reflexivity|]. split; [reflexivity|].
    split; [reflexivity|]. split; [lia|]. split; [reflexivity|]. split; [reflexivity|].
    split; [reflexivity|]. split; [reflexivity|]. split; [reflexivity|].
    change (map_Forall (λ h t, h = 1 ∨ h = 2 ∨ HomePage.is_poll t = true)
              (timers (HomePageP2.world getting_ready))).
    by_evaluation.
  - reflexivity.
  - reflexivity.
  - apply leading_for_leading.
Defined.

(** *** The paged viewer *)

(** At the second of five pages: forth and back, back and forth. *)
Lemma navigation_round_trip_witness :
  PDFViewer.run second_page [PDFViewer.NextClicked; PDFViewer.PrevClicked] = second_page
  ∧ PDFViewer.run second_page [PDFViewer.PrevClicked; PDFViewer.NextClicked] = second_page.
Proof.
  destruct (PDFViewerFacts.navigation_round_trip second_page) as (Hforth & Hback & _).
  - split; [vm_compute; discriminate|]. split; [intros _; reflexivity|].
    split; [intros H; vm_compute in H; by destruct H|]. split; reflexivity.
  - split; [apply Hforth|apply Hback]; reflexivity.
Defined.

End MoreScenarioFacts.
